(** * ek-geo: geographic point sets and grid sampling

    A shallow embedding of [src/ek_geo/datastructs.py]: the [Point],
    [Coords] and [Bounds] models with their subscripts, the bounding box
    and the two [sample] methods, over IEEE-754 binary64 numbers as
    Python's [float] has them, with the exceptions Python raises.  The
    geodesic distance of [geopy] is an external library: the development
    is parameterised by it.  [Point.update_aux] and [Coords.inject_idx]
    mutate point objects in place: they are embedded over a store of
    objects.  [Coords.plot], which only drives the [pydeck] library, is
    not embedded. *)

From Stdlib Require Import ZArith Lia Bool.
From Stdlib Require Import SpecFloat.
From stdpp Require Import base option list gmap strings.

#[local] Set Warnings "-clear-no-such-hyp".
Local Open Scope Z_scope.

(** ** Python's [float]: binary64 *)

(** A Python [float] is an IEEE-754 binary64 datum.  [spec_float] is the
    Standard Library's executable specification of such data; the
    arithmetic below is its round-to-nearest-even arithmetic at
    precision 53 and maximal exponent 1024. *)
Definition float : Type := spec_float.

Definition prec : Z := 53.
Definition emax : Z := 1024.

Definition fadd : float -> float -> float := SFadd prec emax.
Definition fsub : float -> float -> float := SFsub prec emax.
Definition fmul : float -> float -> float := SFmul prec emax.
Definition fdiv : float -> float -> float := SFdiv prec emax.
Definition flt : float -> float -> bool := SFltb.
Definition fle : float -> float -> bool := SFleb.
Definition feq : float -> float -> bool := SFeqb.

Definition fzero : float := S754_zero false.
Definition fone : float := S754_finite false 4503599627370496 (-52).
Definition fhalf : float := S754_finite false 4503599627370496 (-53).

Definition is_nan (x : float) : bool :=
  match x with S754_nan => true | _ => false end.

(** C's truth value of a double: everything but the two zeros (a NaN is
    true). *)
Definition truthy (x : float) : bool :=
  match x with S754_zero _ => false | _ => true end.

Definition signbit (x : float) : bool :=
  match x with
  | S754_zero s | S754_infinity s | S754_finite s _ _ => s
  | S754_nan => false
  end.

(** The integer [m * 2^e] read off a finite float, rounded toward minus
    infinity ([Z.shiftl] with a negative shift is the floor division). *)
Definition floor_Z (s : bool) (m : positive) (e : Z) : Z :=
  Z.shiftl (cond_Zopp s (Zpos m)) e.

(** The same, rounded toward zero. *)
Definition trunc_Z (s : bool) (m : positive) (e : Z) : Z :=
  cond_Zopp s (Z.shiftl (Zpos m) e).

(** C's [floor]: the largest integral double below or at [x].  The result
    is a zero only for [0 <= x < 1], and for the two zeros themselves. *)
Definition ffloor (x : float) : float :=
  match x with
  | S754_finite s m e =>
      if 0 <=? e then x else binary_normalize prec emax (floor_Z s m e) 0 false
  | _ => x
  end.

(** C's [fmod]: the exact remainder of [x / y] with the sign of [x].  The
    remainder of two binary64 numbers is a binary64 number, so the
    normalisation rounds nothing. *)
Definition fmod (x y : float) : float :=
  match x, y with
  | S754_nan, _ | _, S754_nan => S754_nan
  | S754_infinity _, _ => S754_nan
  | _, S754_zero _ => S754_nan
  | S754_zero _, _ => x
  | S754_finite _ _ _, S754_infinity _ => x
  | S754_finite sx mx ex, S754_finite _ my ey =>
      let e := Z.min ex ey in
      let r := Z.rem (Z.shiftl (Zpos mx) (ex - e)) (Z.shiftl (Zpos my) (ey - e)) in
      binary_normalize prec emax (cond_Zopp sx r) e sx
  end.

(** ** Exceptions and the error monad *)

(** The built-in exceptions the modelled code can raise. *)
Inductive exn : Type :=
  | ZeroDivisionError
  | OverflowError
  | ValueError
  | IndexError.

(** A computation either returns a value or raises. *)
Inductive result (A : Type) : Type :=
  | Ok (a : A)
  | Raise (e : exn).
Arguments Ok {A} a.
Arguments Raise {A} e.

Definition bind {A B : Type} (c : result A) (k : A -> result B) : result B :=
  match c with
  | Ok a => k a
  | Raise e => Raise e
  end.

#[global] Instance result_bind : MBind result := λ A B k c, bind c k.
#[global] Instance result_ret : MRet result := @Ok.

(** A [for] loop over [xs] threading the state [acc]; the first exception
    leaves the loop. *)
Fixpoint for_each {A S : Type} (xs : list A) (body : A -> S -> result S)
    (acc : S) : result S :=
  match xs with
  | [] => Ok acc
  | x :: xs' => acc' ← body x acc; for_each xs' body acc'
  end.

(** Python's [range(n)]: [0, 1, ..., n-1], empty for [n <= 0]. *)
Definition range (n : Z) : list Z := Z.of_nat <$> seq 0 (Z.to_nat n).

(** ** Python's arithmetic on [float] and [int] *)

(** The largest magnitude that still rounds to a finite binary64 number is
    just below [2^1024 - 2^970]; [q = a / b] is at or above it when
    [2 * |a| >= (2^1025 - 2^971) * |b|]. *)
Definition overflows (a b : Z) : bool :=
  (2 ^ 1025 - 2 ^ 971) * Z.abs b <=? 2 * Z.abs a.

(** An [int] as the ratio [z / 1], exactly (the mantissa is not normalised;
    the division and rounding below take any mantissa). *)
Definition exact_int (z : Z) : float :=
  match z with
  | Z0 => S754_zero false
  | Zpos p => S754_finite false p 0
  | Zneg p => S754_finite true p 0
  end.

(** The decimal literal [m * 10^e10] as Python reads it: the nearest
    binary64 number, so [dec 5 (-2)] is [0.05]. *)
Definition dec (m e10 : Z) : float :=
  if 0 <=? e10 then binary_normalize prec emax (m * 10 ^ e10) 0 false
  else SFdiv prec emax (exact_int m) (exact_int (10 ^ (- e10))).

(** [float(n)] for an [int]: the nearest binary64 number, [OverflowError]
    when there is none. *)
Definition int_to_float (n : Z) : result float :=
  if overflows n 1 then Raise OverflowError
  else Ok (binary_normalize prec emax n 0 false).

(** [a / b] on two [int]s: the correctly rounded quotient. *)
Definition int_truediv (a b : Z) : result float :=
  if b =? 0 then Raise ZeroDivisionError
  else if overflows a b then Raise OverflowError
  else Ok (fdiv (exact_int a) (exact_int b)).

(** [x / n] for a [float] and an [int]: the [int] is converted first. *)
Definition float_truediv_int (x : float) (n : Z) : result float :=
  if n =? 0 then Raise ZeroDivisionError
  else d ← int_to_float n; Ok (fdiv x d).

(** [x // y] on two [float]s, as CPython's [float_floor_div] computes it:
    from the exact remainder [fmod(x, y)] the quotient [(x - mod) / y],
    lowered by one when the remainder and the divisor differ in sign, then
    snapped to the nearest integral value. *)
Definition float_floordiv (vx wx : float) : result float :=
  if feq wx fzero then Raise ZeroDivisionError
  else
    let mod_ := fmod vx wx in
    let div := fdiv (fsub vx mod_) wx in
    let div :=
      if truthy mod_ && negb (eqb (flt wx fzero) (flt mod_ fzero))
      then fsub div fone else div in
    if truthy div then
      let floordiv := ffloor div in
      Ok (if flt fhalf (fsub div floordiv) then fadd floordiv fone
          else floordiv)
    else Ok (S754_zero (signbit (fdiv vx wx))).

(** [int(x)] for a [float]: truncation toward zero. *)
Definition float_to_int (x : float) : result Z :=
  match x with
  | S754_nan => Raise ValueError
  | S754_infinity _ => Raise OverflowError
  | S754_zero _ => Ok 0
  | S754_finite s m e => Ok (trunc_Z s m e)
  end.

(** [min(a, b)] and [max(a, b)]: the first argument is kept unless the
    second compares strictly below (above) it. *)
Definition py_min (a b : float) : float := if flt b a then b else a.
Definition py_max (a b : float) : float := if flt a b then b else a.

(** ** The data model *)

(** The Python values that occur as subscripts and as auxiliary
    attributes.  A [bool] is an [int] ([False == 0], [True == 1]). *)
Inductive pyval : Type :=
  | PyNone
  | PyBool (b : bool)
  | PyInt (z : Z)
  | PyFloat (x : float)
  | PyStr (s : string)
  | PySlice (start stop step : option Z).

(** [isinstance(v, int)], with the integer when it holds. *)
Definition as_int (v : pyval) : option Z :=
  match v with
  | PyInt z => Some z
  | PyBool b => Some (if b then 1 else 0)
  | _ => None
  end.

(** [class Point(BaseModel)]: [lon: float], [lat: float], [aux: dict]. *)
Record Point : Type := mkPoint {
  lon : float;
  lat : float;
  aux : gmap string pyval
}.

(** [class Coords(BaseModel)]: [coords: List[Point]]. *)
Record Coords : Type := mkCoords { coords : list Point }.

(** [class Bounds(BaseModel)]: [lo: Point], [hi: Point]. *)
Record Bounds : Type := mkBounds { lo : Point; hi : Point }.

(** [geopy]'s [Distance], read through its [km] property. *)
Record Distance : Type := mkDistance { km : float }.

(** ** [Point] *)

(** [Point(lon=..., lat=...)]: the two fields are declared [float] with no
    validator and no constraint, so every [float] is stored as it is;
    [aux] defaults to the empty dict. *)
Definition Point_init (lon lat : float) : result Point :=
  Ok (mkPoint lon lat ∅).

(** [Point.__getitem__] (lines 12-21).  A subscript that is neither an
    [int] nor a [str] falls off the end of the method, which returns
    [None]. *)
Definition Point_getitem (self : Point) (idx : pyval) : result pyval :=
  match as_int idx with
  | Some z => Ok (PyFloat (if z =? 0 then lon self else lat self))
  | None =>
      match idx with
      | PyStr s =>
          if String.eqb s "lon" then Ok (PyFloat (lon self))
          else if String.eqb s "lat" then Ok (PyFloat (lat self))
          else Ok (default PyNone (aux self !! s))
      | _ => Ok PyNone
      end
  end.

Definition latlon (self : Point) : float * float := (lat self, lon self).

(** ** Python's list subscripts *)

(** [l[i]] for an [int]: a negative [i] counts from the end. *)
Definition list_getitem {A : Type} (l : list A) (i : Z) : result A :=
  let k := if i <? 0 then i + Z.of_nat (length l) else i in
  if k <? 0 then Raise IndexError
  else match l !! Z.to_nat k with
       | Some x => Ok x
       | None => Raise IndexError
       end.

(** [slice(start, stop, step).indices(len)]. *)
Definition slice_indices (start stop step : option Z) (len : Z)
    : result (Z * Z * Z) :=
  let step := default 1 step in
  if step =? 0 then Raise ValueError
  else
    let '(lower, upper) := if 0 <? step then (0, len) else (-1, len - 1) in
    let clip (v : Z) :=
      if v <? 0 then Z.max (v + len) lower else Z.min v upper in
    let start :=
      match start with
      | None => if step <? 0 then upper else lower
      | Some v => clip v
      end in
    let stop :=
      match stop with
      | None => if step <? 0 then lower else upper
      | Some v => clip v
      end in
    Ok (start, stop, step).

(** [range(start, stop, step)] for a nonzero [step]. *)
Definition range3 (start stop step : Z) : list Z :=
  let n := if 0 <? step then (stop - start + step - 1) / step
           else (start - stop - step - 1) / (- step) in
  (λ k, start + k * step) <$> range n.

(** [l[start:stop:step]]: a new list of the selected items. *)
Definition list_getslice {A : Type} (l : list A) (start stop step : option Z)
    : result (list A) :=
  '(start, stop, step) ← slice_indices start stop step (Z.of_nat (length l));
  Ok (omap (λ k, l !! Z.to_nat k) (range3 start stop step)).

(** ** [Coords] *)

(** What [Coords.__getitem__] returns. *)
Inductive item : Type :=
  | ItemPoint (p : Point)
  | ItemCoords (c : Coords)
  | ItemNone.

Definition Coords_append (self : Coords) (point : Point) : Coords :=
  mkCoords (coords self ++ [point]).

(** [Coords.__getitem__] (lines 104-108). *)
Definition Coords_getitem (self : Coords) (idx : pyval) : result item :=
  match as_int idx with
  | Some z => p ← list_getitem (coords self) z; Ok (ItemPoint p)
  | None =>
      match idx with
      | PySlice start stop step =>
          l ← list_getslice (coords self) start stop step;
          Ok (ItemCoords (mkCoords l))
      | _ => Ok ItemNone
      end
  end.

Definition Coords_len (self : Coords) : Z := Z.of_nat (length (coords self)).

(** One turn of the loop of [get_bounds] (lines 48-51) on the pair
    [(lo, hi)]. *)
Definition widen (point : Point) (b : Point * Point) : Point * Point :=
  let '(lo, hi) := b in
  let lo := mkPoint (py_min (lon lo) (lon point)) (lat lo) (aux lo) in
  let lo := mkPoint (lon lo) (py_min (lat lo) (lat point)) (aux lo) in
  let hi := mkPoint (py_max (lon hi) (lon point)) (lat hi) (aux hi) in
  let hi := mkPoint (lon hi) (py_max (lat hi) (lat point)) (aux hi) in
  (lo, hi).

(** [Coords.get_bounds] (lines 42-52). *)
Definition get_bounds (self : Coords) : result (option Bounds) :=
  match coords self with
  | [] => Ok None
  | p0 :: _ =>
      lo ← Point_init (lon p0) (lat p0);
      hi ← Point_init (lon p0) (lat p0);
      '(lo, hi) ← for_each (coords self) (λ point b, Ok (widen point b)) (lo, hi);
      Ok (Some (mkBounds lo hi))
  end.

(** [Bounds.from_points] (lines 121-125). *)
Definition from_points (ul lr : Point) : result Bounds :=
  lo ← Point_init (py_min (lon ul) (lon lr)) (py_min (lat ul) (lat lr));
  hi ← Point_init (py_max (lon ul) (lon lr)) (py_max (lat ul) (lat lr));
  Ok (mkBounds lo hi).

(** ** Grid sampling *)

(** The cell index of a coordinate along one axis (lines 63 and 64):
    [int((x - origin) // iv)]. *)
Definition cell_index (x origin iv : float) : result Z :=
  q ← float_floordiv (fsub x origin) iv; float_to_int q.

(** The pair [(i, j)] of lines 62-65: the row of the latitude first, then
    the column of the longitude. *)
Definition point_cell (bounds : Bounds) (lat_iv lon_iv : float)
    (point : Point) : result (Z * Z) :=
  i ← cell_index (lat point) (lat (lo bounds)) lat_iv;
  j ← cell_index (lon point) (lon (lo bounds)) lon_iv;
  Ok (i, j).

(** The test of line 66. *)
Definition in_grid (i j h_len w_len : Z) : bool :=
  (0 <=? i) && (i <? h_len) && ((0 <=? j) && (j <? w_len)).

(** Whether the loop of [Coords.sample] appends a point whose cell is
    computed. *)
Definition keeps (bounds : Bounds) (w_len h_len : Z) (lat_iv lon_iv : float)
    (point : Point) : bool :=
  match point_cell bounds lat_iv lon_iv point with
  | Ok (i, j) => in_grid i j h_len w_len
  | Raise _ => false
  end.

Section Sampling.

(** [geopy.distance.distance]: the geodesic distance between two
    [(lat, lon)] pairs.  The library is not part of the repository; it
    raises for coordinates it refuses. *)
Variable geodesic : float * float → float * float → result Distance.

(** [Point.distance] (lines 29-30). *)
Definition Point_distance (self other : Point) : result Distance :=
  geodesic (latlon self) (latlon other).

(** [Bounds.get_wh] (lines 127-130): the height is measured first. *)
Definition get_wh (self : Bounds) : result (Distance * Distance) :=
  height ← geodesic (latlon (lo self)) (lat (hi self), lon (lo self));
  width ← geodesic (latlon (lo self)) (lat (lo self), lon (hi self));
  Ok (width, height).

(** [int(extent.km // interval.km)]. *)
Definition cell_count (extent interval : Distance) : result Z :=
  q ← float_floordiv (km extent) (km interval); float_to_int q.

(** The first two lines of both [sample] methods (lines 133-134 and
    58-59): the pair [(wcnt, hcnt)], the width's count computed first. *)
Definition grid_counts (self : Bounds) (interval : Distance)
    : result (Z * Z) :=
  '(width, height) ← get_wh self;
  wcnt ← cell_count width interval;
  hcnt ← cell_count height interval;
  Ok (wcnt, hcnt).

(** [lo + (k / cnt) * (hi - lo)], the interpolation of lines 137 and
    139. *)
Definition interpolate (lo hi : float) (k cnt : Z) : result float :=
  t ← int_truediv k cnt; Ok (fadd lo (fmul t (fsub hi lo))).

(** [Bounds.sample] (lines 132-141). *)
Definition Bounds_sample (self : Bounds) (interval : Distance)
    : result Coords :=
  '(wcnt, hcnt) ← grid_counts self interval;
  for_each (range hcnt) (λ i coords,
    lat_ ← interpolate (lat (lo self)) (lat (hi self)) i hcnt;
    for_each (range wcnt) (λ j coords,
      lon_ ← interpolate (lon (lo self)) (lon (hi self)) j wcnt;
      p ← Point_init lon_ lat_;
      Ok (Coords_append coords p)) coords) (mkCoords []).

(** Lines 56-60 of [Coords.sample]: the counts and the two cell sizes,
    the latitude's computed first. *)
Definition sample_grid (bounds : Bounds) (interval : Distance)
    : result (Z * Z * float * float) :=
  let '(ul_lat, ul_lon) := (lat (lo bounds), lon (lo bounds)) in
  let '(br_lat, br_lon) := (lat (hi bounds), lon (hi bounds)) in
  '(w_len, h_len) ← grid_counts bounds interval;
  lat_iv ← float_truediv_int (fsub br_lat ul_lat) h_len;
  lon_iv ← float_truediv_int (fsub br_lon ul_lon) w_len;
  Ok (w_len, h_len, lat_iv, lon_iv).

(** [Coords.sample] (lines 54-68). *)
Definition Coords_sample (self : Coords) (bounds : Bounds)
    (interval : Distance) : result Coords :=
  let sampled_coords := mkCoords [] in
  '(w_len, h_len, lat_iv, lon_iv) ← sample_grid bounds interval;
  for_each (coords self) (λ point sampled_coords,
    '(i, j) ← point_cell bounds lat_iv lon_iv point;
    if in_grid i j h_len w_len
    then Ok (Coords_append sampled_coords point)
    else Ok sampled_coords) sampled_coords.

End Sampling.

(** ** Running the model: a stand-in for the geodesic *)

(** [geopy] measures distances on the WGS-84 ellipsoid.  On a box of a
    degree or less the two legs that [get_wh] measures are, to three
    digits, the difference in latitude times the length of a degree of
    meridian there and the difference in longitude times the length of a
    degree of parallel there.  [flat_geodesic_at klat klon] charges these
    two rates, in km per degree; it stands for the library wherever an
    example has to be run. *)
Definition flat_geodesic_at (klat klon : float) (a b : float * float)
    : result Distance :=
  let dlat := SFabs (fsub (fst b) (fst a)) in
  let dlon := SFabs (fsub (snd b) (snd a)) in
  Ok (mkDistance (fadd (fmul klat dlat) (fmul klon dlon))).

(** At the equator: 110.574 km per degree of latitude, 111.320 km per
    degree of longitude. *)
Definition flat_geodesic (a b : float * float) : result Distance :=
  flat_geodesic_at (dec 110574 (-3)) (dec 111320 (-3)) a b.

(** At 37.78 degrees north: 110.992 km per degree of latitude, 88.089 km
    per degree of longitude. *)
Definition flat_geodesic_sf (a b : float * float) : result Distance :=
  flat_geodesic_at (dec 110992 (-3)) (dec 88089 (-3)) a b.

(** A point with no auxiliary attribute, from decimal literals. *)
Definition pt (lon lat : float) : Point := mkPoint lon lat ∅.

(** The point [(lon 2, lat 1)] carrying [aux = {"idx": 7}]. *)
Definition tagged_point : Point :=
  mkPoint (dec 2 0) (dec 1 0) {[ "idx" := PyInt 7 ]}.

(** The box from [(lat 0, lon 0)] to [(lat 1, lon 1)]. *)
Definition unit_box : Bounds :=
  mkBounds (pt (dec 0 0) (dec 0 0)) (pt (dec 1 0) (dec 1 0)).

(** The box with its latitudes the other way round: [lo] at
    [(lat 1, lon 0)], [hi] at [(lat 0, lon 1)].  The module's own
    [__main__] builds its box this way, with [lo.lat > hi.lat]. *)
Definition flipped_box : Bounds :=
  mkBounds (pt (dec 0 0) (dec 1 0)) (pt (dec 1 0) (dec 0 0)).

(** The box of no area at [(lat 0, lon 0)]. *)
Definition point_box : Bounds :=
  mkBounds (pt (dec 0 0) (dec 0 0)) (pt (dec 0 0) (dec 0 0)).

(** The box of the golden scenario: [lo = (lat 37.784409, lon -122.402614)],
    [hi = (lat 37.789733, lon -122.394974)]. *)
Definition golden_box : Bounds :=
  mkBounds (pt (dec (-122402614) (-6)) (dec 37784409 (-6)))
           (pt (dec (-122394974) (-6)) (dec 37789733 (-6))).

(** The box of the module's [__main__] (lines 145-148): the same corners
    with the two latitudes exchanged, so that [lo.lat > hi.lat]. *)
Definition main_box : Bounds :=
  mkBounds (pt (dec (-122402614) (-6)) (dec 37789733 (-6)))
           (pt (dec (-122394974) (-6)) (dec 37784409 (-6))).

(** The interval of the golden scenario, [Distance(kilometers=0.05)]. *)
Definition km005 : Distance := mkDistance (dec 5 (-2)).

(** Intervals of 50 km, 25 km, 11 km and 1 km. *)
Definition km50 : Distance := mkDistance (dec 50 0).
Definition km25 : Distance := mkDistance (dec 25 0).
Definition km11 : Distance := mkDistance (dec 11 0).
Definition km1 : Distance := mkDistance (dec 1 0).

(** Four points: two in the south-west quarter of [unit_box], one in its
    south-east quarter, one east of the box. *)
Definition crowd : Coords :=
  mkCoords [pt (dec 1 (-1)) (dec 1 (-1)); pt (dec 2 (-1)) (dec 2 (-1));
            pt (dec 7 (-1)) (dec 2 (-1)); pt (dec 15 (-1)) (dec 5 (-1))].

(** What [Coords.sample] keeps of [crowd] at 50 km. *)
Definition crowd_kept : Coords :=
  mkCoords [pt (dec 1 (-1)) (dec 1 (-1)); pt (dec 2 (-1)) (dec 2 (-1));
            pt (dec 7 (-1)) (dec 2 (-1))].

(** A point on the northern edge of [unit_box]: [lat = hi.lat = 1]. *)
Definition edge_point : Point := pt (dec 5 (-1)) (dec 1 0).

(** A point set with a NaN longitude. *)
Definition nan_points : Coords :=
  mkCoords [pt S754_nan (dec 0 0); pt (dec 1 0) (dec 0 0)].

(** Three points and the box around them. *)
Definition triangle : Coords :=
  mkCoords [pt (dec 2 0) (dec 5 0); pt (dec (-1) 0) (dec 7 0);
            pt (dec 3 0) (dec 4 0)].
Definition triangle_box : Bounds :=
  mkBounds (pt (dec (-1) 0) (dec 4 0)) (pt (dec 3 0) (dec 7 0)).

(** The point set [[(lon 1, lat 0); (lon 2, lat 0)]]. *)
Definition two_points : Coords :=
  mkCoords [pt (dec 1 0) (dec 0 0); pt (dec 2 0) (dec 0 0)].

(** What [≤] on every coordinate means for a box corner and a point. *)
Definition below (a b : Point) : Prop :=
  fle (lon a) (lon b) = true ∧ fle (lat a) (lat b) = true.

(** ** Proof automation *)

(** Splits the comparisons of exponents and mantissas that [SFcompare]
    makes, and closes the arithmetic. *)
Ltac order_cases :=
  repeat match goal with
    | H : context [Pos.compare_cont Eq ?p ?q] |- _ =>
        change (Pos.compare_cont Eq p q) with (p ?= q)%positive in H
    | |- context [Pos.compare_cont Eq ?p ?q] =>
        change (Pos.compare_cont Eq p q) with (p ?= q)%positive
    end;
  repeat match goal with
    | H : context [(?a ?= ?b)%Z] |- _ =>
        destruct (Z.compare_spec a b); simpl in H
    | H : context [(?p ?= ?q)%positive] |- _ =>
        destruct (Pos.compare_spec p q); simpl in H
    | |- context [(?a ?= ?b)%Z] => destruct (Z.compare_spec a b); simpl
    | |- context [(?p ?= ?q)%positive] =>
        destruct (Pos.compare_spec p q); simpl
    end;
  try done; try lia.


(** ** Specification vocabulary *)

(** The size of a binary64 number: a mantissa below [2^53] at an exponent
    of at most 971.  Every number the arithmetic rounds to has it. *)
Definition fbounded (x : float) : Prop :=
  match x with
  | S754_finite _ m e => Zpos m < 2 ^ prec ∧ e ≤ emax - prec
  | _ => True
  end.

(** The largest finite binary64 number, an integer. *)
Definition max_float_Z : Z := (2 ^ prec - 1) * 2 ^ (emax - prec).

(** The value [interpolate] returns when it returns. *)
Definition lerp (lo hi : float) (k cnt : Z) : float :=
  fadd lo (fmul (fdiv (exact_int k) (exact_int cnt)) (fsub hi lo)).

(** The point [Bounds.sample] emits for row [i] and column [j]. *)
Definition grid_point (self : Bounds) (wcnt hcnt i j : Z) : Point :=
  mkPoint (lerp (lon (lo self)) (lon (hi self)) j wcnt)
          (lerp (lat (lo self)) (lat (hi self)) i hcnt) ∅.

(** The grid in row-major order: rows of ascending latitude index, each
    of ascending longitude index. *)
Definition grid_rows (self : Bounds) (wcnt hcnt : Z) : list Point :=
  i ← range hcnt; (λ j, grid_point self wcnt hcnt i j) <$> range wcnt.


(** The finite binary64 numbers.  A mantissa is canonical at its exponent
    when the exponent is the one the format gives to a number of that many
    digits ([canonical_mantissa] of the library, with the bound on the
    exponent): 53 digits, or fewer at the least exponent -1074. *)
Definition canonical (m : positive) (e : Z) : Prop :=
  fexp prec emax (Zpos (digits2_pos m) + e) = e ∧ e ≤ emax - prec.

Definition binary64 (x : float) : Prop :=
  match x with
  | S754_zero _ => True
  | S754_finite _ m e => canonical m e
  | _ => False
  end.

(** [math.isfinite]. *)
Definition finite (x : float) : bool :=
  match x with
  | S754_zero _ | S754_finite _ _ _ => true
  | _ => false
  end.

(** The value of a finite number as an integer, in units of [2^-2148]
    (the product of two numbers of the least exponent is a whole number
    of them). *)
Definition scaled (x : float) : Z :=
  match x with
  | S754_finite s m e => cond_Zopp s (Zpos m * 2 ^ (e + 2148))
  | _ => 0
  end.

(** A shift record that has lost no bit: the round and sticky bits are
    clear. *)
Definition exact_rec (mrs : shr_record) : Prop :=
  shr_r mrs = false ∧ shr_s mrs = false.

(** The two ends of an axis of a box in order: finite numbers [lo <= hi]
    whose difference is finite. *)
Definition ordered (lo hi : float) : Prop :=
  binary64 lo ∧ binary64 hi ∧ fle lo hi = true ∧ finite (fsub hi lo) = true.

(** [lo <= x <= hi]. *)
Definition within (lo hi x : float) : Prop :=
  fle lo x = true ∧ fle x hi = true.

(** ** [Point.update_aux] and [Coords.inject_idx] *)

(** [Point.update_aux] (lines 32-33): [self.aux.update(kwargs)] writes
    every item of [kwargs] into [aux], over the value a key had; the
    coordinates are not touched.  [kwargs] is the dict that Python binds
    the keyword arguments of the call to. *)
Definition Point_update_aux (self : Point) (kwargs : gmap string pyval)
    : Point :=
  mkPoint (lon self) (lat self) (kwargs ∪ aux self).

(** A [Point] is a mutable object, and a [Coords] holds references to its
    points: the same object can be held twice, or by two point sets.
    [objects] maps the references to the objects they refer to. *)
Definition ref : Type := nat.
Definition objects : Type := gmap ref Point.

(** [Point.update_aux] called on the object a reference refers to. *)
Definition update_aux_at (point : ref) (kwargs : gmap string pyval)
    (σ : objects) : objects :=
  alter (λ p, Point_update_aux p kwargs) point σ.

(** [enumerate(l)]. *)
Definition enumerate {A : Type} (l : list A) : list (Z * A) :=
  imap (λ i x, (Z.of_nat i, x)) l.

(** [Coords.inject_idx] (lines 99-102) on the references [self.coords]
    holds: every object in turn gets [aux["idx"] = i], and the method
    returns [self]. *)
Definition inject_idx (self : list ref) (σ : objects) : list ref * objects :=
  (self,
   foldl (λ σ '(i, point), update_aux_at point {[ "idx" := PyInt i ]} σ)
     σ (enumerate self)).

(** The point set that a list of references stands for. *)
Definition deref (σ : objects) (self : list ref) : option Coords :=
  mkCoords <$> mapM (σ !!.) self.

(** A point set with every point tagged by its position. *)
Definition indexed (ps : list Point) : list Point :=
  imap (λ i p, Point_update_aux p {[ "idx" := PyInt (Z.of_nat i) ]}) ps.

(** Where a slice bound [v] lands in a list of [len] items when the step
    is positive: counted from the end when negative, and clipped to
    [[0, len]]. *)
Definition clip_index (len v : Z) : Z :=
  if v <? 0 then Z.max (v + len) 0 else Z.min v len.

(** Two numbers of the same magnitude and opposite signs (two zeros,
    whatever their signs). *)
Definition mirror (x y : float) : Prop :=
  match x, y with
  | S754_zero _, S754_zero _ => True
  | S754_infinity sx, S754_infinity sy => sy = negb sx
  | S754_nan, S754_nan => True
  | S754_finite sx mx ex, S754_finite sy my ey =>
      sy = negb sx ∧ my = mx ∧ ey = ex
  | _, _ => False
  end.

(** ** More data to run the model on *)

(** The two corners of [unit_box], the high one first. *)
Definition north_east : Point := pt (dec 1 0) (dec 1 0).
Definition south_west : Point := pt (dec 0 0) (dec 0 0).

(** Two point objects at the references 0 and 1: the points of
    [two_points]. *)
Definition two_objects : objects :=
  {[ 0%nat := pt (dec 1 0) (dec 0 0); 1%nat := pt (dec 2 0) (dec 0 0) ]}.

(** The points of [crowd] behind the low corner of [unit_box]. *)
Definition crowd_with_corner : Coords :=
  mkCoords (coords crowd ++ [south_west]).

(** The points of [crowd] and one west of [unit_box]. *)
Definition crowd_with_west : Coords :=
  mkCoords (coords crowd ++ [pt (dec (-1) (-1)) (dec 5 (-1))]).

(** Intervals of 0 km and of 200 km. *)
Definition km0 : Distance := mkDistance (dec 0 0).

(** Closes [binary64 x] for a number [x] that evaluates. *)
Ltac binary64_compute :=
  first [exact I | split; [reflexivity | by vm_compute]].

(** A zero, a positive number or plus infinity. *)
Definition nonneg (x : float) : Prop :=
  match x with
  | S754_zero _ | S754_infinity false | S754_finite false _ _ => True
  | _ => False
  end.

(** An exponent that rounding can leave: at least -1074. *)
Definition above_emin (x : float) : Prop :=
  match x with
  | S754_finite _ _ e => -1074 ≤ e
  | _ => True
  end.

(** -1.0, and the smallest positive binary64 number. *)
Definition fone_neg : float := S754_finite true 4503599627370496 (-52).
Definition fmin_pos : float := S754_finite false 1 (-1074).
(** * Properties *)

(** ** Subscripts *)

(** C10: [Point.__getitem__] raises for no subscript; for an [int] it
    returns [lon] at index 0 and [lat] at every other index, and for a
    [str] other than ["lon"] and ["lat"] the value [aux] holds at that key,
    [None] when [aux] has no such key. *)
Theorem Point_getitem_total (p : Point) (idx : pyval) :
  (∃ v, Point_getitem p idx = Ok v) ∧
  (∀ z : Z, idx = PyInt z →
     Point_getitem p idx = Ok (PyFloat (if z =? 0 then lon p else lat p))) ∧
  (∀ s : string, idx = PyStr s → s ≠ "lon" → s ≠ "lat" →
     Point_getitem p idx = Ok (default PyNone (aux p !! s))).
Proof.
  split; [|split].
  - unfold Point_getitem. destruct (as_int idx) as [z|]; [by eexists|].
    destruct idx; try by eexists.
    repeat case_match; by eexists.
  - by intros z ->.
  - intros s -> Hlon Hlat. unfold Point_getitem; simpl.
    apply String.eqb_neq in Hlon, Hlat. by rewrite Hlon, Hlat.
Qed.

(** [Point_getitem_total] on a point with [aux = {"idx": 7}]: an index
    other than 0, a key of [aux], a key [aux] lacks. *)
Lemma Point_getitem_total_witness :
  Point_getitem tagged_point (PyInt (-3)) = Ok (PyFloat (dec 1 0)) ∧
  Point_getitem tagged_point (PyStr "idx") = Ok (PyInt 7) ∧
  Point_getitem tagged_point (PyStr "name") = Ok PyNone.
Proof.
  split; [|split].
  - exact (proj1 (proj2 (Point_getitem_total tagged_point (PyInt (-3))))
             (-3) eq_refl).
  - exact (proj2 (proj2 (Point_getitem_total tagged_point (PyStr "idx")))
             "idx" eq_refl ltac:(discriminate) ltac:(discriminate)).
  - exact (proj2 (proj2 (Point_getitem_total tagged_point (PyStr "name")))
             "name" eq_refl ltac:(discriminate) ltac:(discriminate)).
Defined.

Lemma list_getitem_nonneg {A : Type} (l : list A) (i : Z) (x : A) :
  0 ≤ i → l !! Z.to_nat i = Some x → list_getitem l i = Ok x.
Proof.
  intros Hi Hx. unfold list_getitem.
  destruct (Z.ltb_spec i 0) as [?|_]; [lia|].
  destruct (Z.ltb_spec i 0) as [?|_]; [lia|]. by rewrite Hx.
Qed.

Lemma list_getitem_neg {A : Type} (l : list A) (i : Z) (x : A) :
  - Z.of_nat (length l) ≤ i < 0 →
  l !! Z.to_nat (i + Z.of_nat (length l)) = Some x → list_getitem l i = Ok x.
Proof.
  intros Hi Hx. unfold list_getitem.
  destruct (Z.ltb_spec i 0) as [_|?]; [|lia].
  destruct (Z.ltb_spec (i + Z.of_nat (length l)) 0) as [?|_]; [lia|].
  by rewrite Hx.
Qed.

Lemma list_getitem_out {A : Type} (l : list A) (i : Z) :
  i < - Z.of_nat (length l) ∨ Z.of_nat (length l) ≤ i →
  list_getitem l i = Raise IndexError.
Proof.
  intros Hi. unfold list_getitem.
  destruct (Z.ltb_spec i 0) as [Hneg|Hpos].
  - destruct (Z.ltb_spec (i + Z.of_nat (length l)) 0) as [_|?]; [done|lia].
  - destruct (Z.ltb_spec i 0) as [?|_]; [lia|].
    rewrite (lookup_ge_None_2 l (Z.to_nat i)); [done|lia].
Qed.

(** C6, as the code has it: [s[idx]] is Python's list subscript.  An index
    in [[0, len)] returns the point at that position; an index in
    [[-len, 0)] counts from the end and returns the point at [idx + len];
    every other index raises [IndexError]. *)
Theorem Coords_getitem_int (s : Coords) (idx : Z) :
  (0 ≤ idx < Coords_len s →
     ∃ p, coords s !! Z.to_nat idx = Some p ∧
          Coords_getitem s (PyInt idx) = Ok (ItemPoint p)) ∧
  (- Coords_len s ≤ idx < 0 →
     ∃ p, coords s !! Z.to_nat (idx + Coords_len s) = Some p ∧
          Coords_getitem s (PyInt idx) = Ok (ItemPoint p)) ∧
  (idx < - Coords_len s ∨ Coords_len s ≤ idx →
     Coords_getitem s (PyInt idx) = Raise IndexError).
Proof.
  unfold Coords_len, Coords_getitem; simpl. split; [|split].
  - intros Hi.
    destruct (lookup_lt_is_Some_2 (coords s) (Z.to_nat idx)) as [p Hp]; [lia|].
    exists p. split; [done|]. by rewrite (list_getitem_nonneg _ _ p) by (done || lia).
  - intros Hi.
    destruct (lookup_lt_is_Some_2 (coords s)
                (Z.to_nat (idx + Z.of_nat (length (coords s))))) as [p Hp]; [lia|].
    exists p. split; [done|]. by rewrite (list_getitem_neg _ _ p) by (done || lia).
  - intros Hi. by rewrite list_getitem_out.
Qed.

(** [Coords_getitem_int] on two points: the indices 1, -2 and 2. *)
Lemma Coords_getitem_int_witness :
  Coords_getitem two_points (PyInt 1) = Ok (ItemPoint (pt (dec 2 0) (dec 0 0))) ∧
  Coords_getitem two_points (PyInt (-2)) = Ok (ItemPoint (pt (dec 1 0) (dec 0 0))) ∧
  Coords_getitem two_points (PyInt 2) = Raise IndexError.
Proof.
  split; [|split].
  - destruct (proj1 (Coords_getitem_int two_points 1)) as (p & Hp & ->).
    + unfold Coords_len; simpl; lia.
    + by injection Hp as <-.
  - destruct (proj1 (proj2 (Coords_getitem_int two_points (-2))))
      as (p & Hp & ->).
    + unfold Coords_len; simpl; lia.
    + by injection Hp as <-.
  - apply (proj2 (proj2 (Coords_getitem_int two_points 2))).
    right. unfold Coords_len; simpl; lia.
Defined.

(** C6, as the claim states it, fails: [-1] lies outside [[0, 2)], and
    [s[-1]] returns the last point. *)
Lemma Coords_getitem_negative_index :
  ¬ (0 ≤ -1 < Coords_len two_points) ∧
  Coords_getitem two_points (PyInt (-1)) = Ok (ItemPoint (pt (dec 2 0) (dec 0 0))).
Proof. split; [unfold Coords_len; simpl; lia | reflexivity]. Qed.

(** ** Construction *)

(** C5, as the code has it: [Point(lon=..., lat=...)] succeeds for every
    pair of [float]s, finite or not, in range or not, and stores both
    unchanged with an empty [aux]. *)
Theorem Point_init_accepts_every_float (x y : float) :
  ∃ p, Point_init x y = Ok p ∧ lon p = x ∧ lat p = y ∧ aux p = ∅.
Proof. by eexists. Qed.

(** C5, as the claim states it, fails: a NaN longitude and a latitude of
    1000 degrees give a point that holds them. *)
Lemma Point_init_keeps_nan :
  Point_init S754_nan (dec 1000 0) = Ok (pt S754_nan (dec 1000 0)) ∧
  is_nan (lon (pt S754_nan (dec 1000 0))) = true ∧
  fle (lat (pt S754_nan (dec 1000 0))) (dec 90 0) = false.
Proof. by vm_compute. Qed.

(** ** The order of binary64 numbers *)

Lemma fle_refl (a : float) : is_nan a = false → fle a a = true.
Proof.
  destruct a as [[]|[]| |[] m e]; try done; intros _;
    unfold fle, SFleb; simpl; order_cases.
Qed.

Lemma flt_fle (a b : float) : flt a b = true → fle a b = true.
Proof.
  unfold flt, fle, SFltb, SFleb. by destruct (SFcompare a b) as [[]|].
Qed.

Lemma flt_false_fle (a b : float) :
  is_nan a = false → is_nan b = false → flt b a = false → fle a b = true.
Proof.
  destruct a as [[]|[]| |[] ma ea], b as [[]|[]| |[] mb eb]; try done;
    intros _ _; unfold flt, fle, SFltb, SFleb; simpl; intros H; order_cases.
Qed.

Lemma fle_trans (a b c : float) :
  fle a b = true → fle b c = true → fle a c = true.
Proof.
  destruct a as [[]|[]| |[] ma ea], b as [[]|[]| |[] mb eb],
    c as [[]|[]| |[] mc ec]; try done;
    unfold fle, SFleb; simpl; intros H1 H2; order_cases.
Qed.

(** ** The bounding box *)

Lemma for_each_pure {A S : Type} (f : A → S → S) (xs : list A) (s : S) :
  for_each xs (λ x s, Ok (f x s)) s = Ok (foldl (λ s x, f x s) s xs).
Proof. revert s. induction xs as [|x xs IH]; intros s; [done|]. apply IH. Qed.

(** The running minimum of a sequence without NaN: not a NaN, below the
    start and below every item, and one of them. *)
Lemma running_min (xs : list float) (m0 : float) :
  is_nan m0 = false → Forall (λ x, is_nan x = false) xs →
  let m := foldl py_min m0 xs in
  is_nan m = false ∧ fle m m0 = true ∧
  Forall (λ x, fle m x = true) xs ∧ m ∈ m0 :: xs.
Proof.
  intros Hm0 Hxs. revert m0 Hm0.
  induction Hxs as [|x xs Hx _ IH]; intros m0 Hm0; simpl.
  - repeat split; [done|by apply fle_refl|constructor|set_solver].
  - assert (is_nan (py_min m0 x) = false) as Hnan
      by (unfold py_min; by destruct (flt x m0)).
    destruct (IH (py_min m0 x) Hnan) as (Hn & Hle & Hall & Hin).
    assert (fle (py_min m0 x) m0 = true ∧ fle (py_min m0 x) x = true)
      as [Hle0 Hlex].
    { unfold py_min. destruct (flt x m0) eqn:Hlt.
      - split; [by apply flt_fle|by apply fle_refl].
      - split; [by apply fle_refl|by apply flt_false_fle]. }
    repeat split; [done|by eapply fle_trans| |].
    + constructor; [by eapply fle_trans|done].
    + apply elem_of_cons in Hin as [->|Hin]; [|set_solver].
      unfold py_min. destruct (flt x m0); set_solver.
Qed.

(** The running maximum, likewise. *)
Lemma running_max (xs : list float) (m0 : float) :
  is_nan m0 = false → Forall (λ x, is_nan x = false) xs →
  let m := foldl py_max m0 xs in
  is_nan m = false ∧ fle m0 m = true ∧
  Forall (λ x, fle x m = true) xs ∧ m ∈ m0 :: xs.
Proof.
  intros Hm0 Hxs. revert m0 Hm0.
  induction Hxs as [|x xs Hx _ IH]; intros m0 Hm0; simpl.
  - repeat split; [done|by apply fle_refl|constructor|set_solver].
  - assert (is_nan (py_max m0 x) = false) as Hnan
      by (unfold py_max; by destruct (flt m0 x)).
    destruct (IH (py_max m0 x) Hnan) as (Hn & Hle & Hall & Hin).
    assert (fle m0 (py_max m0 x) = true ∧ fle x (py_max m0 x) = true)
      as [Hle0 Hlex].
    { unfold py_max. destruct (flt m0 x) eqn:Hlt.
      - split; [by apply flt_fle|by apply fle_refl].
      - split; [by apply fle_refl|by apply flt_false_fle]. }
    repeat split; [done|by eapply fle_trans| |].
    + constructor; [by eapply fle_trans|done].
    + apply elem_of_cons in Hin as [->|Hin]; [|set_solver].
      unfold py_max. destruct (flt m0 x); set_solver.
Qed.

(** The four coordinates the loop of [get_bounds] ends with are the four
    running extrema. *)
Lemma widen_loop (ps : list Point) (lo0 hi0 : Point) :
  let b := foldl (λ b p, widen p b) (lo0, hi0) ps in
  lon b.1 = foldl py_min (lon lo0) (lon <$> ps) ∧
  lat b.1 = foldl py_min (lat lo0) (lat <$> ps) ∧
  lon b.2 = foldl py_max (lon hi0) (lon <$> ps) ∧
  lat b.2 = foldl py_max (lat hi0) (lat <$> ps).
Proof.
  revert lo0 hi0. induction ps as [|p ps IH]; intros lo0 hi0; [done|].
  simpl. apply (IH (mkPoint _ _ _) (mkPoint _ _ _)).
Qed.

Lemma get_bounds_unfold (p0 : Point) (ps : list Point) :
  get_bounds (mkCoords (p0 :: ps)) =
  Ok (Some (let b := foldl (λ b p, widen p b)
                       (mkPoint (lon p0) (lat p0) ∅, mkPoint (lon p0) (lat p0) ∅)
                       (p0 :: ps) in
            mkBounds b.1 b.2)).
Proof.
  unfold get_bounds, Point_init. cbn [coords mbind result_bind bind].
  rewrite for_each_pure. cbn [bind].
  by destruct (foldl _ _ _).
Qed.

(** C7, as the code has it: [get_bounds] returns [None] for the empty point
    set and raises for none; for a non-empty point set with no NaN
    coordinate it returns a box whose [lo] is below every point and whose
    [hi] is above every point, coordinate by coordinate, each of the four
    coordinates being one that a point of the set has. *)
Theorem get_bounds_tight (s : Coords) :
  (coords s = [] → get_bounds s = Ok None) ∧
  (coords s ≠ [] →
   Forall (λ p, is_nan (lon p) = false ∧ is_nan (lat p) = false) (coords s) →
   ∃ b, get_bounds s = Ok (Some b) ∧
        Forall (λ p, below (lo b) p ∧ below p (hi b)) (coords s) ∧
        lon (lo b) ∈ lon <$> coords s ∧ lat (lo b) ∈ lat <$> coords s ∧
        lon (hi b) ∈ lon <$> coords s ∧ lat (hi b) ∈ lat <$> coords s).
Proof.
  destruct s as [ps]; simpl. split.
  - by intros ->.
  - destruct ps as [|p0 ps]; [done|]. intros _ Hnan.
    eexists. split; [apply get_bounds_unfold|].
    pose proof (widen_loop (p0 :: ps) (mkPoint (lon p0) (lat p0) ∅)
                  (mkPoint (lon p0) (lat p0) ∅)) as (E1 & E2 & E3 & E4).
    cbn zeta in *. cbn [lo hi].
    assert (Forall (λ x, is_nan x = false) (lon <$> p0 :: ps)) as Hlon
      by (apply Forall_fmap; eapply Forall_impl; [done|]; by intros ? []).
    assert (Forall (λ x, is_nan x = false) (lat <$> p0 :: ps)) as Hlat
      by (apply Forall_fmap; eapply Forall_impl; [done|]; by intros ? []).
    assert (is_nan (lon p0) = false ∧ is_nan (lat p0) = false) as [N1 N2]
      by (by inversion Hnan).
    destruct (running_min _ _ N1 Hlon) as (_ & _ & A1 & I1).
    destruct (running_min _ _ N2 Hlat) as (_ & _ & A2 & I2).
    destruct (running_max _ _ N1 Hlon) as (_ & _ & A3 & I3).
    destruct (running_max _ _ N2 Hlat) as (_ & _ & A4 & I4).
    cbn zeta in *. cbn [lon lat] in E1, E2, E3, E4.
    rewrite <- E1 in A1, I1. rewrite <- E2 in A2, I2.
    rewrite <- E3 in A3, I3. rewrite <- E4 in A4, I4.
    rewrite Forall_fmap in A1, A2, A3, A4.
    split; [|set_solver].
    rewrite Forall_forall in A1, A2, A3, A4. apply Forall_forall.
    intros p Hp. unfold below. naive_solver.
Qed.

(** ** Down-sampling a point set *)

Lemma bind_Ok {A B : Type} (c : result A) (k : A → result B) (b : B) :
  c ≫= k = Ok b ↔ ∃ a, c = Ok a ∧ k a = Ok b.
Proof.
  destruct c as [a|e]; simpl.
  - split; [by exists a|by intros (? & [= <-] & ?)].
  - split; [done|by intros (? & ? & ?)].
Qed.

Lemma filter_sublist {A : Type} (f : A → bool) (l : list A) :
  sublist (List.filter f l) l.
Proof.
  induction l as [|x l IH]; simpl; [constructor|].
  destruct (f x); by constructor.
Qed.

(** The loop of [Coords.sample] ends normally exactly when every cell is
    computed, and then it has appended the points it keeps, in order. *)
Lemma sample_loop (bounds : Bounds) (w_len h_len : Z) (lat_iv lon_iv : float)
    (ps : list Point) (acc out : Coords) :
  for_each ps (λ point sampled_coords,
    '(i, j) ← point_cell bounds lat_iv lon_iv point;
    if in_grid i j h_len w_len
    then Ok (Coords_append sampled_coords point)
    else Ok sampled_coords) acc = Ok out ↔
  Forall (λ p, ∃ ij, point_cell bounds lat_iv lon_iv p = Ok ij) ps ∧
  coords out =
    coords acc ++ List.filter (keeps bounds w_len h_len lat_iv lon_iv) ps.
Proof.
  revert acc. induction ps as [|p ps IH]; intros acc; simpl.
  - rewrite app_nil_r. split.
    + intros [= <-]. by split.
    + intros [_ E]. destruct out, acc; simpl in E. by subst.
  - unfold keeps at 1. rewrite Forall_cons.
    destruct (point_cell bounds lat_iv lon_iv p) as [[i j]|e] eqn:Hcell;
      cbn [mbind result_bind bind].
    + destruct (in_grid i j h_len w_len); cbn [mbind result_bind bind];
        rewrite IH; cbn [Coords_append coords]; rewrite <- ?app_assoc;
        naive_solver.
    + split; [done|]. by intros [[[ij Hij] _] _].
Qed.

Section SamplingFacts.

Variable geodesic : float * float → float * float → result Distance.

(** [Coords.sample] returns exactly when the grid and every cell are
    computed, and what it returns is the sequence of the points it
    keeps. *)
Lemma Coords_sample_spec (self : Coords) (bounds : Bounds)
    (interval : Distance) (out : Coords) :
  Coords_sample geodesic self bounds interval = Ok out ↔
  ∃ w_len h_len lat_iv lon_iv,
    sample_grid geodesic bounds interval = Ok (w_len, h_len, lat_iv, lon_iv) ∧
    Forall (λ p, ∃ ij, point_cell bounds lat_iv lon_iv p = Ok ij)
      (coords self) ∧
    coords out =
      List.filter (keeps bounds w_len h_len lat_iv lon_iv) (coords self).
Proof.
  unfold Coords_sample. rewrite bind_Ok. split.
  - intros ([[[w h] lat_iv] lon_iv] & Hgrid & Hloop).
    apply sample_loop in Hloop. naive_solver.
  - intros (w & h & lat_iv & lon_iv & Hgrid & Hall & Hout).
    exists (w, h, lat_iv, lon_iv). split; [done|].
    apply sample_loop. by split.
Qed.

End SamplingFacts.

(** ** The size of rounded numbers *)

Lemma digits2_pos_gt (m : positive) : Zpos m < 2 ^ Zpos (digits2_pos m).
Proof.
  induction m as [m IH|m IH|]; simpl digits2_pos;
    rewrite ?Pos2Z.inj_succ, ?Z.pow_succ_r by lia; lia.
Qed.

Lemma digits2_pos_ge (p : positive) : 2 ^ (Zpos (digits2_pos p) - 1) ≤ Zpos p.
Proof.
  induction p as [p IH|p IH|]; simpl digits2_pos; [| |done];
    rewrite Pos2Z.inj_succ;
    replace (Z.succ (Z.pos (digits2_pos p)) - 1)
      with (Z.succ (Z.pos (digits2_pos p) - 1)) by lia;
    rewrite Z.pow_succ_r by lia; lia.
Qed.

Lemma iter_xO_value (p k : positive) :
  Zpos (Pos.iter xO p k) = Zpos p * 2 ^ Zpos k.
Proof.
  induction k as [|k IH] using Pos.peano_ind.
  - simpl. lia.
  - rewrite Pos.iter_succ, Pos2Z.inj_xO, IH, Pos2Z.inj_succ, Z.pow_succ_r by lia.
    lia.
Qed.

Lemma iter_xO_digits (p k : positive) :
  Zpos (digits2_pos (Pos.iter xO p k)) = Zpos (digits2_pos p) + Zpos k.
Proof.
  induction k as [|k IH] using Pos.peano_ind.
  - simpl. lia.
  - rewrite Pos.iter_succ. simpl digits2_pos.
    rewrite Pos2Z.inj_succ, IH. lia.
Qed.

Lemma shr_1_m (mrs : shr_record) :
  0 ≤ shr_m mrs → shr_m (shr_1 mrs) = shr_m mrs / 2.
Proof.
  destruct mrs as [m r s]. cbn [shr_m]. intros Hm.
  destruct m as [|[p|p|]|p]; cbn [shr_1 shr_m]; try lia; try done.
  - apply (Z.div_unique _ 2 _ 1); lia.
  - apply (Z.div_unique _ 2 _ 0); lia.
Qed.

Lemma iter_shr_1_m (p : positive) (mrs : shr_record) :
  0 ≤ shr_m mrs →
  shr_m (SpecFloat.iter_pos shr_1 p mrs) = shr_m mrs / 2 ^ Zpos p.
Proof.
  revert mrs.
  induction p as [p IH|p IH|]; intros mrs Hm; cbn [SpecFloat.iter_pos].
  - assert (0 ≤ shr_m (shr_1 mrs))
      by (rewrite shr_1_m by done; by apply Z.div_pos).
    assert (0 ≤ shr_m (SpecFloat.iter_pos shr_1 p (shr_1 mrs)))
      by (rewrite IH by done; apply Z.div_pos; lia).
    rewrite !IH, shr_1_m by done.
    rewrite !Z.div_div by lia. f_equal.
    replace (Z.pos p~1) with (1 + Z.pos p + Z.pos p) by lia.
    rewrite !Z.pow_add_r by lia. change (2 ^ 1) with 2. lia.
  - assert (0 ≤ shr_m (SpecFloat.iter_pos shr_1 p mrs))
      by (rewrite IH by done; apply Z.div_pos; lia).
    rewrite !IH by done.
    rewrite !Z.div_div by lia. f_equal.
    replace (Z.pos p~0) with (Z.pos p + Z.pos p) by lia.
    rewrite !Z.pow_add_r by lia. lia.
  - by rewrite shr_1_m.
Qed.

(** Shifting a mantissa to its exponent leaves fewer than 54 bits. *)
Lemma shr_fexp_m (m e : Z) (l : location) :
  0 ≤ m → 0 ≤ shr_m (shr_fexp prec emax m e l).1 < 2 ^ prec.
Proof.
  intros Hm. unfold shr_fexp, shr.
  assert (shr_m (shr_record_of_loc m l) = m) as Hrec
    by (by destruct l as [|[]]).
  assert (m < 2 ^ Zdigits2 m) as Hdig.
  { destruct m as [|p|p]; simpl; [lia|apply digits2_pos_gt|lia]. }
  assert (0 ≤ Zdigits2 m) as Hd0 by (destruct m; simpl; lia).
  assert (Zdigits2 m - prec ≤ fexp prec emax (Zdigits2 m + e) - e) as Hn
    by (unfold fexp; lia).
  destruct (fexp prec emax (Zdigits2 m + e) - e) as [|n|n] eqn:En; simpl.
  - rewrite Hrec. split; [done|].
    eapply Z.lt_le_trans; [done|]. apply Z.pow_le_mono_r; lia.
  - rewrite iter_shr_1_m, Hrec by lia. split; [apply Z.div_pos; lia|].
    apply Z.div_lt_upper_bound; [lia|].
    rewrite <- Z.pow_add_r by (unfold prec; lia).
    eapply Z.lt_le_trans; [done|]. apply Z.pow_le_mono_r; lia.
  - rewrite Hrec. split; [done|].
    eapply Z.lt_le_trans; [done|]. apply Z.pow_le_mono_r; lia.
Qed.

Lemma binary_round_aux_bounded (s : bool) (m e : Z) (l : location) :
  0 ≤ m → fbounded (binary_round_aux prec emax s m e l).
Proof.
  intros Hm. unfold binary_round_aux.
  pose proof (shr_fexp_m m e l Hm) as H1.
  destruct (shr_fexp prec emax m e l) as [mrs' e']. simpl in H1.
  set (m1 := round_nearest_even (shr_m mrs') (loc_of_shr_record mrs')).
  assert (0 ≤ m1) as Hm1.
  { unfold m1, round_nearest_even.
    destruct (loc_of_shr_record mrs') as [|[]]; try lia.
    destruct (Z.even (shr_m mrs')); lia. }
  pose proof (shr_fexp_m m1 e' loc_Exact Hm1) as H2.
  destruct (shr_fexp prec emax m1 e' loc_Exact) as [mrs'' e'']. simpl in H2.
  destruct (shr_m mrs'') as [|q|q]; try done.
  destruct (Z.leb_spec e'' (emax - prec)); simpl; [split; lia|done].
Qed.

Lemma binary_normalize_bounded (m e : Z) (szero : bool) :
  fbounded (binary_normalize prec emax m e szero).
Proof.
  destruct m as [|p|p]; simpl; [done| |]; unfold binary_round;
    destruct (shl_align _ _ _); by apply binary_round_aux_bounded.
Qed.

Lemma fadd_bounded (x y : float) :
  fbounded x → fbounded y → fbounded (fadd x y).
Proof.
  intros Hx Hy. unfold fadd.
  destruct x as [[]|[]| |sx mx ex], y as [[]|[]| |sy my ey];
    try done; apply binary_normalize_bounded.
Qed.

Lemma fsub_bounded (x y : float) :
  fbounded x → fbounded y → fbounded (fsub x y).
Proof.
  intros Hx Hy. unfold fsub.
  destruct x as [[]|[]| |sx mx ex], y as [[]|[]| |sy my ey];
    try done; apply binary_normalize_bounded.
Qed.

Lemma fdiv_bounded (x y : float) : fbounded (fdiv x y).
Proof.
  unfold fdiv.
  destruct x as [[]|[]| |sx mx ex], y as [[]|[]| |sy my ey]; try done.
  all: unfold SFdiv, SFdiv_core_binary.
  all: match goal with
       | |- context [Z.div_eucl ?a ?b] =>
           pose proof (Z.div_pos a b) as Hq; unfold Z.div in Hq;
           destruct (Z.div_eucl a b) as [q r]
       end.
  all: apply binary_round_aux_bounded, Hq; [|lia].
  all: match goal with
       | |- 0 ≤ match ?s with _ => _ end =>
           destruct s; try lia; apply Z.shiftl_nonneg; lia
       end.
Qed.

Lemma ffloor_bounded (x : float) : fbounded x → fbounded (ffloor x).
Proof.
  destruct x as [| | |s m e]; try done. intros Hx. unfold ffloor.
  destruct (0 <=? e); [done|apply binary_normalize_bounded].
Qed.

Lemma fone_bounded : fbounded fone.
Proof. by vm_compute. Qed.

(** [x // y] is of binary64 size whatever [x] and [y] are. *)
Lemma float_floordiv_bounded (x y q : float) :
  float_floordiv x y = Ok q → fbounded q.
Proof.
  unfold float_floordiv. destruct (feq y fzero); [done|]. cbv zeta.
  set (div0 := fdiv (fsub x (fmod x y)) y).
  match goal with
  | |- context [if ?c then fsub div0 fone else div0] =>
      set (div := if c then fsub div0 fone else div0)
  end.
  assert (fbounded div) as Hdiv.
  { unfold div. destruct (_ && _).
    - apply fsub_bounded; [apply fdiv_bounded|apply fone_bounded].
    - apply fdiv_bounded. }
  destruct (truthy div); intros [= <-]; [|done].
  destruct (flt fhalf _); [apply fadd_bounded|]; try apply ffloor_bounded;
    done || apply fone_bounded.
Qed.

Lemma float_to_int_bound (x : float) (n : Z) :
  fbounded x → float_to_int x = Ok n → Z.abs n ≤ max_float_Z.
Proof.
  assert (0 < max_float_Z) as Hpos by (by vm_compute).
  destruct x as [| | |s m e]; try done; simpl.
  - intros _ [= <-]. lia.
  - intros [Hm He] [= <-]. unfold trunc_Z.
    assert (0 ≤ Z.shiftl (Z.pos m) e ≤ max_float_Z) as Hs.
    { destruct (Z.le_gt_cases 0 e) as [Hpose|Hnege].
      - rewrite Z.shiftl_mul_pow2 by done. split; [lia|].
        unfold max_float_Z. apply Z.mul_le_mono_nonneg; try lia.
        apply Z.pow_le_mono_r; lia.
      - rewrite Z.shiftl_div_pow2 by lia. split; [apply Z.div_pos; lia|].
        transitivity (Z.pos m).
        + apply Z.div_le_upper_bound; [lia|].
          assert (1 ≤ 2 ^ (- e)) by (apply (Z.pow_le_mono_r 2 0); lia). nia.
        + unfold max_float_Z.
          assert (1 ≤ 2 ^ (emax - prec)) by (by vm_compute). nia. }
    destruct s; simpl; lia.
Qed.

Lemma int_to_float_fits (n : Z) :
  Z.abs n ≤ max_float_Z →
  int_to_float n = Ok (binary_normalize prec emax n 0 false).
Proof.
  intros Hn. unfold int_to_float, overflows.
  destruct (Z.leb_spec ((2 ^ 1025 - 2 ^ 971) * Z.abs 1) (2 * Z.abs n))
    as [Hle|_]; [|done].
  exfalso. revert Hn Hle. unfold max_float_Z, prec, emax.
  change (Z.abs 1) with 1.
  generalize (Z.abs n). intros a.
  change (1024 - 53) with 971.
  replace (2 ^ 1025) with (2 ^ 54 * 2 ^ 971) by (by vm_compute).
  replace (2 ^ 53) with (2 ^ 54 / 2) by (by vm_compute).
  assert (0 < 2 ^ 971) by (by vm_compute).
  change (2 ^ 54) with 18014398509481984.
  change (18014398509481984 / 2) with 9007199254740992.
  nia.
Qed.

(** ** Rounding to binary64 *)

(** [binary_round_aux] rounds to nearest, ties to even.  This part
    describes what it returns ([round_shape]) and derives that rounding
    keeps the order: an exact value at most (at least) a binary64 number
    is rounded to at most (at least) that number ([round_le],
    [round_ge]).  Values are compared as integers, in units of
    [2^-2148] ([scaled]). *)

(** The number of binary digits of a positive integer. *)
Lemma Zdigits2_bounds (m : Z) : 0 < m → 2 ^ (Zdigits2 m - 1) ≤ m < 2 ^ Zdigits2 m.
Proof.
  destruct m as [|p|p]; try lia. intros _. simpl.
  split; [apply digits2_pos_ge|apply digits2_pos_gt].
Qed.

Lemma Zdigits2_unique (m d : Z) : 2 ^ (d - 1) ≤ m < 2 ^ d → 0 < m → Zdigits2 m = d.
Proof.
  intros [Hlo Hhi] Hm. pose proof (Zdigits2_bounds m Hm) as [Hlo' Hhi'].
  assert (0 < d).
  { destruct (Z.le_gt_cases d 0) as [Hd|]; [|done].
    assert (2 ^ d ≤ 2 ^ 0) by (apply Z.pow_le_mono_r; lia).
    change (2 ^ 0) with 1 in *. lia. }
  assert (0 < Zdigits2 m) by (destruct m; simpl; lia).
  destruct (Z.lt_trichotomy (Zdigits2 m) d) as [Hlt|[Heq|Hgt]]; [|done|].
  - assert (2 ^ Zdigits2 m ≤ 2 ^ (d - 1)) by (apply Z.pow_le_mono_r; lia). lia.
  - assert (2 ^ d ≤ 2 ^ (Zdigits2 m - 1)) by (apply Z.pow_le_mono_r; lia). lia.
Qed.

Lemma shr_1_exact (mrs : shr_record) (c : Z) :
  0 ≤ c → shr_m mrs = c * 2 → exact_rec mrs → exact_rec (shr_1 mrs).
Proof.
  destruct mrs as [m r s]. unfold exact_rec. cbn [shr_m shr_r shr_s].
  intros Hc Hm [-> ->]. destruct m as [|[p|p|]|p]; cbn; try done; lia.
Qed.

Lemma iter_shr_1_exact (p : positive) (mrs : shr_record) (c : Z) :
  0 ≤ c → shr_m mrs = c * 2 ^ Zpos p → exact_rec mrs →
  exact_rec (SpecFloat.iter_pos shr_1 p mrs).
Proof.
  revert mrs c.
  induction p as [p IH|p IH|]; intros mrs c Hc Hm Hex; cbn [SpecFloat.iter_pos].
  - assert (0 < 2 ^ Zpos p) as Hpow by (apply Z.pow_pos_nonneg; lia).
    assert (shr_m mrs = c * 2 ^ Zpos p * 2 ^ Zpos p * 2) as Hm'.
    { rewrite Hm. replace (Z.pos p~1) with (Z.pos p + Z.pos p + 1) by lia.
      rewrite !Z.pow_add_r by lia. change (2 ^ 1) with 2. ring. }
    assert (exact_rec (shr_1 mrs)) as H1
      by (apply (shr_1_exact _ (c * 2 ^ Zpos p * 2 ^ Zpos p)); [nia|done|done]).
    assert (shr_m (shr_1 mrs) = c * 2 ^ Zpos p * 2 ^ Zpos p) as Hm1.
    { rewrite shr_1_m by (rewrite Hm'; nia). rewrite Hm'.
      by rewrite Z.div_mul by lia. }
    assert (exact_rec (SpecFloat.iter_pos shr_1 p (shr_1 mrs))) as H2
      by (apply (IH _ (c * 2 ^ Zpos p)); [nia|done|done]).
    apply (IH _ c); [done| |done].
    rewrite iter_shr_1_m by (rewrite Hm1; nia).
    rewrite Hm1. by rewrite Z.div_mul by lia.
  - assert (0 < 2 ^ Zpos p) as Hpow by (apply Z.pow_pos_nonneg; lia).
    assert (shr_m mrs = c * 2 ^ Zpos p * 2 ^ Zpos p) as Hm'.
    { rewrite Hm. replace (Z.pos p~0) with (Z.pos p + Z.pos p) by lia.
      rewrite !Z.pow_add_r by lia. ring. }
    assert (exact_rec (SpecFloat.iter_pos shr_1 p mrs)) as H2
      by (apply (IH _ (c * 2 ^ Zpos p)); [nia|done|done]).
    apply (IH _ c); [done| |done].
    rewrite iter_shr_1_m by (rewrite Hm'; nia).
    rewrite Hm'. by rewrite Z.div_mul by lia.
  - apply (shr_1_exact _ c); [done| |done]. by rewrite Hm.
Qed.

Lemma shr_record_of_loc_m (m : Z) (l : location) :
  shr_m (shr_record_of_loc m l) = m.
Proof. by destruct l as [|[]]. Qed.

(** A shift to the exponent [fexp]: the mantissa is divided, and the
    location stays exact when the division is. *)
Lemma shr_fexp_spec (M E : Z) (l : location) :
  0 ≤ M → E ≤ fexp prec emax (Zdigits2 M + E) →
  ∃ mrs, shr_fexp prec emax M E l = (mrs, fexp prec emax (Zdigits2 M + E)) ∧
         shr_m mrs = M / 2 ^ (fexp prec emax (Zdigits2 M + E) - E) ∧
         (l = loc_Exact →
          (∃ c, 0 ≤ c ∧ M = c * 2 ^ (fexp prec emax (Zdigits2 M + E) - E)) →
          exact_rec mrs).
Proof.
  intros HM Hn. unfold shr_fexp, shr.
  set (f := fexp prec emax (Zdigits2 M + E)) in *.
  destruct (f - E) as [|p|p] eqn:Hp; try lia.
  - eexists. split; [f_equal; lia|]. split.
    + by rewrite shr_record_of_loc_m, Z.div_1_r.
    + by intros -> _.
  - eexists. split; [f_equal; lia|]. split.
    + by rewrite iter_shr_1_m, shr_record_of_loc_m
        by (by rewrite shr_record_of_loc_m).
    + intros -> (c & Hc & HMc). by apply (iter_shr_1_exact _ _ c).
Qed.

Lemma fexp_ge_emin (x : Z) : -1074 ≤ fexp prec emax x.
Proof. unfold fexp, emin, prec, emax. lia. Qed.

Lemma fexp_mono (x y : Z) : x ≤ y → fexp prec emax x ≤ fexp prec emax y.
Proof. unfold fexp. lia. Qed.

(** What [binary_round_aux] returns on a mantissa at or below its
    exponent [f]: the mantissa [m1] cut at [f], or the next one. *)
Lemma round_shape (s : bool) (M E : Z) (l : location) :
  0 < M → E ≤ fexp prec emax (Zdigits2 M + E) →
  let f := fexp prec emax (Zdigits2 M + E) in
  let m1 := M / 2 ^ (f - E) in
  ∃ m2, (m2 = m1 ∨ m2 = m1 + 1) ∧
        (l = loc_Exact → (∃ c, 0 ≤ c ∧ M = c * 2 ^ (f - E)) → m2 = m1) ∧
        0 ≤ m1 < 2 ^ 53 ∧ (-1074 < f → 2 ^ 52 ≤ m1) ∧
        (∀ m, 0 < m → m1 ≤ m < 2 ^ 53 →
              fexp prec emax (Zdigits2 m + f) = f) ∧
        binary_round_aux prec emax s M E l =
          if m2 =? 0 then S754_zero s
          else if m2 <? 2 ^ 53
               then if f <=? emax - prec
                    then S754_finite s (Z.to_pos m2) f else S754_infinity s
               else if f + 1 <=? emax - prec
                    then S754_finite s (Z.to_pos (2 ^ 52)) (f + 1)
                    else S754_infinity s.
Proof.
  intros HM Hn f m1.
  destruct (shr_fexp_spec M E l) as (mrs & Hshr & Hm & Hex); [lia|done|].
  fold f in Hshr, Hm, Hex. fold m1 in Hm.
  pose proof (shr_fexp_m M E l ltac:(lia)) as Hb. rewrite Hshr in Hb.
  cbn [fst] in Hb. rewrite Hm in Hb. change (2 ^ prec) with (2 ^ 53) in Hb.
  assert (-1074 < f → 2 ^ 52 ≤ m1) as Hnormal.
  { intros Hf. pose proof (Zdigits2_bounds M HM) as [HD1 HD2].
    assert (f = Zdigits2 M + E - 53) as Hfe
      by (unfold f, fexp, emin, prec, emax in *; lia).
    unfold m1. replace (f - E) with (Zdigits2 M - 53) by lia.
    assert (0 ≤ Zdigits2 M - 53) by lia.
    apply Z.div_le_lower_bound; [apply Z.pow_pos_nonneg; lia|].
    rewrite <- Z.pow_add_r by lia.
    by replace (Zdigits2 M - 53 + 52) with (Zdigits2 M - 1) by lia. }
  set (m2 := round_nearest_even (shr_m mrs) (loc_of_shr_record mrs)).
  assert (m2 = m1 ∨ m2 = m1 + 1) as Hm2.
  { unfold m2, round_nearest_even. rewrite Hm.
    destruct (loc_of_shr_record mrs) as [|[]]; try (by left); try (by right).
    destruct (Z.even m1); [by left|by right]. }
  exists m2. split; [done|]. split.
  { intros Hl Hc. destruct (Hex Hl Hc) as [Hr Hs].
    unfold m2. destruct mrs as [m r s']. cbn in Hr, Hs, Hm. by subst. }
  split; [done|]. split; [done|].
  assert (-1074 ≤ f) as Hfmin by apply fexp_ge_emin.
  assert (∀ m, 0 < m → m1 ≤ m < 2 ^ 53 →
            fexp prec emax (Zdigits2 m + f) = f) as Hcanon.
  { intros m Hpos [Hlo Hlt]. pose proof (Zdigits2_bounds m Hpos) as [HD1 HD2].
    assert (Zdigits2 m ≤ 53).
    { destruct (Z.le_gt_cases (Zdigits2 m) 53) as [|Hbig]; [done|].
      assert (2 ^ 53 ≤ 2 ^ (Zdigits2 m - 1))
        by (apply Z.pow_le_mono_r; lia). lia. }
    destruct (Z.eq_dec f (-1074)) as [Hsub|Hnorm].
    - unfold fexp, emin, prec, emax. lia.
    - assert (2 ^ 52 ≤ m1) by (apply Hnormal; lia).
      assert (53 ≤ Zdigits2 m).
      { destruct (Z.le_gt_cases 53 (Zdigits2 m)) as [|Hsmall]; [done|].
        assert (2 ^ Zdigits2 m ≤ 2 ^ 52)
          by (apply Z.pow_le_mono_r; lia). lia. }
      unfold fexp, emin, prec, emax. lia. }
  split; [done|].
  unfold binary_round_aux. rewrite Hshr. fold m2.
  destruct (Z.eqb_spec m2 0) as [Hz|Hnz].
  - rewrite Hz. unfold shr_fexp, shr. change (Zdigits2 0) with 0.
    destruct (fexp prec emax (0 + f) - f) as [|p|p] eqn:Hp; [done| |done].
    exfalso. unfold fexp, emin, prec, emax in Hp. lia.
  - assert (0 < m2) as Hpos by lia.
    pose proof (Zdigits2_bounds m2 Hpos) as [HD1 HD2].
    destruct (Z.ltb_spec m2 (2 ^ 53)) as [Hlt|Hge].
    + unfold shr_fexp. rewrite Hcanon, Z.sub_diag by lia. cbn [shr shr_record_of_loc shr_m].
      destruct m2 as [|q|q]; try lia. by cbn [Z.to_pos].
    + assert (m2 = 2 ^ 53) as -> by lia.
      unfold shr_fexp.
      replace (fexp prec emax (Zdigits2 (2 ^ 53) + f) - f) with 1
        by (change (Zdigits2 (2 ^ 53)) with 54;
            unfold fexp, emin, prec, emax; lia).
      cbn [shr shr_record_of_loc SpecFloat.iter_pos].
      change (shr_1 {| shr_m := 2 ^ 53; shr_r := false; shr_s := false |})
        with {| shr_m := 2 ^ 52; shr_r := false; shr_s := false |}.
      cbn [shr_m]. by change (2 ^ 52) with (Zpos (Z.to_pos (2 ^ 52))) at 1.
Qed.

(** *** Canonical mantissas and the order of rounded values *)

Lemma canonical_facts (m : positive) (e : Z) :
  canonical m e →
  -1074 ≤ e ≤ 971 ∧ Zpos m < 2 ^ 53 ∧ (-1074 < e → 2 ^ 52 ≤ Zpos m).
Proof.
  intros [Hf He]. pose proof (digits2_pos_ge m) as Hge.
  pose proof (digits2_pos_gt m) as Hgt.
  unfold fexp, emin, prec, emax in *.
  assert (Zpos (digits2_pos m) ≤ 53) as Hd by lia.
  split; [lia|]. split.
  - eapply Z.lt_le_trans; [done|]. apply Z.pow_le_mono_r; lia.
  - intros Hn. assert (Zpos (digits2_pos m) = 53) as Hd53 by lia.
    by rewrite Hd53 in Hge.
Qed.

Lemma pow2_pos (k : Z) : 0 ≤ k → 0 < 2 ^ k.
Proof. intros. apply Z.pow_pos_nonneg; lia. Qed.

Lemma pow2_split (a b c : Z) : 0 ≤ a → 0 ≤ c → b = c + a → 2 ^ b = 2 ^ c * 2 ^ a.
Proof. intros ? ? ->. by rewrite Z.pow_add_r. Qed.

(** The two facts about the cut mantissa [m1 = M / 2^n]. *)
Lemma cut_bounds (M n : Z) :
  0 ≤ n → (M / 2 ^ n) * 2 ^ n ≤ M < (M / 2 ^ n + 1) * 2 ^ n.
Proof.
  intros Hn. pose proof (pow2_pos n Hn) as Hp.
  pose proof (Z.mul_div_le M (2 ^ n) Hp).
  pose proof (Z.mul_succ_div_gt M (2 ^ n) Hp). lia.
Qed.

Lemma round_le (s : bool) (M E : Z) (l : location) (mB : positive) (eB : Z) :
  0 < M → -2148 ≤ E → E ≤ fexp prec emax (Zdigits2 M + E) →
  canonical mB eB →
  M * 2 ^ (E + 2148) ≤ Zpos mB * 2 ^ (eB + 2148) →
  (l ≠ loc_Exact → M * 2 ^ (E + 2148) < Zpos mB * 2 ^ (eB + 2148)) →
  binary_round_aux prec emax s M E l = S754_zero s ∨
  ∃ m e, binary_round_aux prec emax s M E l = S754_finite s m e ∧
         canonical m e ∧
         Zpos m * 2 ^ (e + 2148) ≤ Zpos mB * 2 ^ (eB + 2148).
Proof.
  intros HM HE Hn HB Hle Hstrict.
  destruct (round_shape s M E l HM Hn)
    as (m2 & Hm2 & Hexact & Hm1 & Hnormal & Hcanon & ->).
  set (f := fexp prec emax (Zdigits2 M + E)) in *.
  set (m1 := M / 2 ^ (f - E)) in *.
  destruct (canonical_facts _ _ HB) as (HeB & HmB & HnB).
  pose proof (cut_bounds M (f - E) ltac:(lia)) as [Hc1 Hc2]. fold m1 in Hc1, Hc2.
  pose proof (pow2_pos (E + 2148) ltac:(lia)) as HP.
  pose proof (pow2_pos (f - E) ltac:(lia)) as HQ.
  assert (2 ^ (f + 2148) = 2 ^ (f - E) * 2 ^ (E + 2148)) as Hg
    by (apply pow2_split; lia).
  assert (-1074 ≤ f) as Hfmin by apply fexp_ge_emin.
  (* the bound is not below the exponent of the result *)
  assert (f ≤ eB) as HfB.
  { destruct (Z.le_gt_cases f eB) as [|Hgt]; [done|]. exfalso.
    assert (2 ^ 52 ≤ m1) as H52 by (apply Hnormal; lia).
    assert (2 ^ (f + 2148) = 2 ^ (f - eB) * 2 ^ (eB + 2148)) as Hg'
      by (apply pow2_split; lia).
    assert (2 ≤ 2 ^ (f - eB)) by (apply (Z.pow_le_mono_r 2 1); lia).
    pose proof (pow2_pos (eB + 2148) ltac:(lia)).
    assert (Zpos mB * 2 ^ (eB + 2148) < 2 ^ 52 * 2 ^ (f + 2148)).
    { rewrite Hg'. change (2 ^ 53) with (2 ^ 52 * 2) in HmB. nia. }
    assert (m1 * 2 ^ (f + 2148) ≤ M * 2 ^ (E + 2148)) by (rewrite Hg; nia).
    nia. }
  assert (2 ^ (eB + 2148) = 2 ^ (eB - f) * 2 ^ (f + 2148)) as HgB
    by (apply pow2_split; lia).
  pose proof (pow2_pos (eB - f) ltac:(lia)) as HR.
  pose proof (pow2_pos (f + 2148) ltac:(lia)) as HG.
  assert (m2 * 2 ^ (f + 2148) ≤ Zpos mB * 2 ^ (eB + 2148)) as Hres.
  { rewrite HgB. rewrite HgB in Hle, Hstrict. rewrite Hg in Hle, Hstrict |- *.
    set (P := 2 ^ (E + 2148)) in *. set (Q := 2 ^ (f - E)) in *.
    set (R := 2 ^ (eB - f)) in *.
    assert (m1 ≤ Zpos mB * R) as Hk.
    { apply (Z.mul_le_mono_pos_r _ _ (Q * P)); [nia|]. nia. }
    destruct Hm2 as [->| ->]; [nia|].
    assert (m1 < Zpos mB * R); [|nia].
    destruct (Z.eq_dec m1 (Zpos mB * R)) as [Heq|]; [|lia]. exfalso.
    assert (M = m1 * Q) as HMx.
    { assert (M * P ≤ m1 * Q * P) by (rewrite Heq; nia).
      assert (M ≤ m1 * Q) by nia. lia. }
    assert (l = loc_Exact) as Hl.
    { destruct l as [|c]; [done|]. exfalso.
      specialize (Hstrict ltac:(done)). rewrite Heq in HMx. nia. }
    specialize (Hexact Hl ltac:(by exists m1; split; [lia|])). lia. }
  destruct (Z.eqb_spec m2 0) as [Hz|Hnz]; [by left|right].
  assert (0 < m2) as Hpos by lia.
  destruct (Z.ltb_spec m2 (2 ^ 53)) as [Hlt|Hge].
  - destruct (Z.leb_spec f (emax - prec)) as [_|Hbig];
      [|unfold emax, prec in Hbig; lia].
    exists (Z.to_pos m2), f. split; [done|]. split.
    + split; [|unfold emax, prec; lia].
      specialize (Hcanon m2 ltac:(lia) ltac:(lia)).
      by destruct m2.
    + by rewrite Z2Pos.id.
  - assert (m2 = 2 ^ 53) as Hm253 by lia. rewrite Hm253 in Hres.
    assert (f < eB) as Hlt.
    { destruct (Z.eq_dec f eB) as [->|]; [|lia]. exfalso.
      rewrite Z.sub_diag in HgB. change (2 ^ 0) with 1 in HgB. nia. }
    destruct (Z.leb_spec (f + 1) (emax - prec)) as [_|Hbig];
      [|unfold emax, prec in Hbig; lia].
    exists (Z.to_pos (2 ^ 52)), (f + 1). split; [done|]. split.
    + split; [|unfold emax, prec; lia].
      change (Zpos (digits2_pos (Z.to_pos (2 ^ 52)))) with 53.
      unfold fexp, emin, prec, emax. lia.
    + change (Zpos (Z.to_pos (2 ^ 52))) with (2 ^ 52).
      replace (f + 1 + 2148) with (1 + (f + 2148)) by lia.
      rewrite (Z.pow_add_r 2 1 (f + 2148)) by lia. change (2 ^ 1) with 2.
      change (2 ^ 53) with (2 ^ 52 * 2) in Hres. lia.
Qed.

Lemma round_ge (s : bool) (M E : Z) (l : location) (mB : positive) (eB : Z) :
  0 < M → -2148 ≤ E → E ≤ fexp prec emax (Zdigits2 M + E) →
  canonical mB eB →
  Zpos mB * 2 ^ (eB + 2148) ≤ M * 2 ^ (E + 2148) →
  binary_round_aux prec emax s M E l = S754_infinity s ∨
  ∃ m e, binary_round_aux prec emax s M E l = S754_finite s m e ∧
         canonical m e ∧
         Zpos mB * 2 ^ (eB + 2148) ≤ Zpos m * 2 ^ (e + 2148).
Proof.
  intros HM HE Hn HB Hle.
  destruct (round_shape s M E l HM Hn)
    as (m2 & Hm2 & _ & Hm1 & Hnormal & Hcanon & ->).
  set (f := fexp prec emax (Zdigits2 M + E)) in *.
  set (m1 := M / 2 ^ (f - E)) in *.
  destruct (canonical_facts _ _ HB) as (HeB & HmB & HnB).
  pose proof (cut_bounds M (f - E) ltac:(lia)) as [Hc1 Hc2]. fold m1 in Hc1, Hc2.
  pose proof (pow2_pos (E + 2148) ltac:(lia)) as HP.
  pose proof (pow2_pos (f - E) ltac:(lia)) as HQ.
  pose proof (pow2_pos (eB + 2148) ltac:(lia)) as HXB.
  assert (2 ^ (f + 2148) = 2 ^ (f - E) * 2 ^ (E + 2148)) as Hg
    by (apply pow2_split; lia).
  assert (-1074 ≤ f) as Hfmin by apply fexp_ge_emin.
  pose proof (pow2_pos (f + 2148) ltac:(lia)) as HG.
  assert (Zpos mB * 2 ^ (eB + 2148) ≤ m1 * 2 ^ (f + 2148)) as Hlow.
  { destruct (Z.le_gt_cases f eB) as [HfB|HfB].
    - assert (2 ^ (eB + 2148) = 2 ^ (eB - f) * 2 ^ (f + 2148)) as HgB
        by (apply pow2_split; lia).
      pose proof (pow2_pos (eB - f) ltac:(lia)) as HR.
      rewrite HgB in Hle |- *. rewrite Hg in Hle |- *.
      set (P := 2 ^ (E + 2148)) in *. set (Q := 2 ^ (f - E)) in *.
      set (R := 2 ^ (eB - f)) in *.
      assert (Zpos mB * R < m1 + 1); [|nia].
      apply (Z.mul_lt_mono_pos_r (Q * P)); [nia|]. nia.
    - assert (2 ^ 52 ≤ m1) as H52 by (apply Hnormal; lia).
      assert (2 ^ (f + 2148) = 2 ^ (f - eB) * 2 ^ (eB + 2148)) as Hg'
        by (apply pow2_split; lia).
      assert (2 ≤ 2 ^ (f - eB)) by (apply (Z.pow_le_mono_r 2 1); lia).
      rewrite Hg'. change (2 ^ 53) with (2 ^ 52 * 2) in HmB. nia. }
  assert (0 < m1) as Hm1pos by nia.
  assert (Zpos mB * 2 ^ (eB + 2148) ≤ m2 * 2 ^ (f + 2148)) as Hres
    by (destruct Hm2 as [->| ->]; nia).
  destruct (Z.eqb_spec m2 0) as [Hz|Hnz]; [lia|].
  assert (0 < m2) as Hpos by lia.
  destruct (Z.ltb_spec m2 (2 ^ 53)) as [Hlt|Hge].
  - destruct (Z.leb_spec f (emax - prec)) as [Hfit|Hbig]; [right|by left].
    exists (Z.to_pos m2), f. split; [done|]. split.
    + split; [|done]. specialize (Hcanon m2 ltac:(lia) ltac:(lia)).
      by destruct m2.
    + by rewrite Z2Pos.id by lia.
  - assert (m2 = 2 ^ 53) as Hm253 by lia. rewrite Hm253 in Hres.
    destruct (Z.leb_spec (f + 1) (emax - prec)) as [Hfit|Hbig]; [right|by left].
    exists (Z.to_pos (2 ^ 52)), (f + 1). split; [done|]. split.
    + split; [|done].
      change (Zpos (digits2_pos (Z.to_pos (2 ^ 52)))) with 53.
      unfold fexp, emin, prec, emax. lia.
    + change (Zpos (Z.to_pos (2 ^ 52))) with (2 ^ 52).
      replace (f + 1 + 2148) with (1 + (f + 2148)) by lia.
      rewrite (Z.pow_add_r 2 1 (f + 2148)) by lia. change (2 ^ 1) with 2.
      change (2 ^ 53) with (2 ^ 52 * 2) in Hres. lia.
Qed.

Lemma scaled_pos (m : positive) (e : Z) :
  -2148 ≤ e → 0 < Zpos m * 2 ^ (e + 2148).
Proof. intros. pose proof (pow2_pos (e + 2148) ltac:(lia)). nia. Qed.

(** Among canonical mantissas the larger exponent is the larger number. *)
Lemma canonical_lt (m1 m2 : positive) (e1 e2 : Z) :
  canonical m1 e1 → canonical m2 e2 → e1 < e2 →
  Zpos m1 * 2 ^ (e1 + 2148) < Zpos m2 * 2 ^ (e2 + 2148).
Proof.
  intros H1 H2 Hlt.
  destruct (canonical_facts _ _ H1) as (He1 & Hm1 & _).
  destruct (canonical_facts _ _ H2) as (He2 & _ & Hn2).
  specialize (Hn2 ltac:(lia)).
  assert (2 ^ (e2 + 2148) = 2 ^ (e2 - e1) * 2 ^ (e1 + 2148)) as Hg
    by (apply pow2_split; lia).
  assert (2 ≤ 2 ^ (e2 - e1)) by (apply (Z.pow_le_mono_r 2 1); lia).
  pose proof (pow2_pos (e1 + 2148) ltac:(lia)).
  rewrite Hg. change (2 ^ 53) with (2 ^ 52 * 2) in Hm1. nia.
Qed.

Lemma canonical_compare (m1 m2 : positive) (e1 e2 : Z) :
  canonical m1 e1 → canonical m2 e2 →
  (e1 < e2 ∨ (e1 = e2 ∧ Zpos m1 ≤ Zpos m2)) ↔
  Zpos m1 * 2 ^ (e1 + 2148) ≤ Zpos m2 * 2 ^ (e2 + 2148).
Proof.
  intros H1 H2.
  destruct (canonical_facts _ _ H1) as (He1 & _ & _).
  pose proof (pow2_pos (e1 + 2148) ltac:(lia)).
  split.
  - intros [Hlt|[-> Hm]].
    + pose proof (canonical_lt _ _ _ _ H1 H2 Hlt). lia.
    + nia.
  - intros Hle. destruct (Z.lt_trichotomy e1 e2) as [|[->|Hgt]]; [by left| |].
    + right. split; [done|]. nia.
    + pose proof (canonical_lt _ _ _ _ H2 H1 Hgt). lia.
Qed.

(** On binary64 numbers [<=] is the order of the values. *)
Lemma fle_scaled (x y : float) :
  binary64 x → binary64 y → (fle x y = true ↔ scaled x ≤ scaled y).
Proof.
  destruct x as [sx| | |sx mx ex], y as [sy| | |sy my ey]; try done;
    intros Hx Hy; cbn [binary64] in Hx, Hy; unfold fle, SFleb;
    cbn [SFcompare scaled].
  - destruct (canonical_facts _ _ Hy) as (He & _ & _).
    pose proof (scaled_pos my ey ltac:(lia)).
    destruct sy; cbn [cond_Zopp]; split; intros; (done || lia).
  - destruct (canonical_facts _ _ Hx) as (He & _ & _).
    pose proof (scaled_pos mx ex ltac:(lia)).
    destruct sx; cbn [cond_Zopp]; split; intros; (done || lia).
  - destruct (canonical_facts _ _ Hx) as (Hex & _ & _).
    destruct (canonical_facts _ _ Hy) as (Hey & _ & _).
    pose proof (scaled_pos mx ex ltac:(lia)).
    pose proof (scaled_pos my ey ltac:(lia)).
    pose proof (canonical_compare _ _ _ _ Hx Hy) as Hxy.
    pose proof (canonical_compare _ _ _ _ Hy Hx) as Hyx.
    change (Pos.compare_cont Eq mx my) with (mx ?= my)%positive.
    destruct sx, sy; cbn [cond_Zopp];
      destruct (Z.compare_spec ex ey) as [?|?|?];
      destruct (Pos.compare_spec mx my) as [?|?|?];
      cbn [CompOpp]; split; intros; subst; (done || lia).
Qed.

(** [binary_round] first moves the mantissa down to its exponent, where
    [binary_round_aux] takes over. *)
Lemma binary_round_aligned (s : bool) (p : positive) (e lb : Z) :
  -2148 ≤ lb ≤ -1074 → lb ≤ e →
  ∃ M E, 0 < M ∧ lb ≤ E ∧ E ≤ fexp prec emax (Zdigits2 M + E) ∧
         M * 2 ^ (E + 2148) = Zpos p * 2 ^ (e + 2148) ∧
         binary_round prec emax s p e
           = binary_round_aux prec emax s M E loc_Exact.
Proof.
  intros Hlb He. unfold binary_round, shl_align.
  set (f := fexp prec emax (Zpos (digits2_pos p) + e)).
  assert (-1074 ≤ f) as Hf by apply fexp_ge_emin.
  destruct (f - e) as [|k|k] eqn:Hk.
  - exists (Zpos p), e. repeat split; try lia. cbn [Zdigits2]. fold f. lia.
  - exists (Zpos p), e. repeat split; try lia. cbn [Zdigits2]. fold f. lia.
  - exists (Zpos (Pos.iter xO p k)), f. repeat split; try lia.
    + cbn [Zdigits2]. rewrite iter_xO_digits.
      replace (Zpos (digits2_pos p) + Zpos k + f)
        with (Zpos (digits2_pos p) + e) by lia.
      fold f. lia.
    + rewrite iter_xO_value.
      rewrite (pow2_split (f + 2148) (e + 2148) (Zpos k)) by lia. ring.
Qed.

Lemma binary64_scaled_pos (x : float) :
  binary64 x → 0 < scaled x → ∃ m e, x = S754_finite false m e ∧ canonical m e.
Proof.
  destruct x as [| | |[] m e]; try done; cbn [binary64 scaled cond_Zopp].
  - intros Hc Hs. destruct (canonical_facts _ _ Hc) as (He & _ & _).
    pose proof (scaled_pos m e ltac:(lia)). lia.
  - intros Hc _. by exists m, e.
Qed.

Lemma binary64_scaled_neg (x : float) :
  binary64 x → scaled x < 0 → ∃ m e, x = S754_finite true m e ∧ canonical m e.
Proof.
  destruct x as [| | |[] m e]; try done; cbn [binary64 scaled cond_Zopp].
  - intros Hc _. by exists m, e.
  - intros Hc Hs. destruct (canonical_facts _ _ Hc) as (He & _ & _).
    pose proof (scaled_pos m e ltac:(lia)). lia.
Qed.

(** Rounding keeps an exact value between two binary64 numbers it lies
    between. *)
Lemma normalize_between (S e : Z) (L U : float) :
  -2148 ≤ e → binary64 L → binary64 U →
  scaled L ≤ S * 2 ^ (e + 2148) ≤ scaled U →
  binary64 (binary_normalize prec emax S e false) ∧
  scaled L ≤ scaled (binary_normalize prec emax S e false) ≤ scaled U.
Proof.
  intros He HL HU [HLS HSU].
  pose proof (pow2_pos (e + 2148) ltac:(lia)) as HP.
  destruct S as [|p|p]; cbn [binary_normalize].
  - cbn [binary64 scaled]. split; [done|lia].
  - destruct (binary_round_aligned false p e (-2148) ltac:(lia) He)
      as (M & E & HM & HE & Hn & Hval & ->).
    destruct (binary64_scaled_pos U HU ltac:(nia)) as (mU & eU & -> & HcU).
    cbn [scaled cond_Zopp] in HSU.
    assert (scaled L ≤ 0 ∨ 0 < scaled L) as [HLneg|HLpos] by lia.
    + destruct (round_le false M E loc_Exact mU eU HM HE Hn HcU ltac:(lia) ltac:(done))
        as [->|(m & e' & -> & Hc & Hle)]; cbn [binary64 scaled cond_Zopp].
      * split; [done|]. nia.
      * destruct (canonical_facts _ _ Hc) as (He' & _ & _).
        pose proof (scaled_pos m e' ltac:(lia)). split; [done|lia].
    + destruct (binary64_scaled_pos L HL HLpos) as (mL & eL & -> & HcL).
      cbn [scaled cond_Zopp] in HLS.
      destruct (round_le false M E loc_Exact mU eU HM HE Hn HcU ltac:(lia) ltac:(done))
        as [Hr|(m & e' & Hr & Hc & Hle)];
        destruct (round_ge false M E loc_Exact mL eL HM HE Hn HcL ltac:(lia))
        as [Hr'|(m' & e'' & Hr' & Hc' & Hge)];
        rewrite Hr in Hr' |- *; try discriminate.
      injection Hr' as <- <-. cbn [binary64 scaled cond_Zopp].
      split; [done|lia].
  - destruct (binary_round_aligned true p e (-2148) ltac:(lia) He)
      as (M & E & HM & HE & Hn & Hval & ->).
    destruct (binary64_scaled_neg L HL ltac:(nia)) as (mL & eL & -> & HcL).
    cbn [scaled cond_Zopp] in HLS.
    assert (0 ≤ scaled U ∨ scaled U < 0) as [HUpos|HUneg] by lia.
    + destruct (round_le true M E loc_Exact mL eL HM HE Hn HcL ltac:(lia) ltac:(done))
        as [->|(m & e' & -> & Hc & Hle)]; cbn [binary64 scaled cond_Zopp].
      * split; [done|]. nia.
      * destruct (canonical_facts _ _ Hc) as (He' & _ & _).
        pose proof (scaled_pos m e' ltac:(lia)). split; [done|lia].
    + destruct (binary64_scaled_neg U HU HUneg) as (mU & eU & -> & HcU).
      cbn [scaled cond_Zopp] in HSU.
      destruct (round_le true M E loc_Exact mL eL HM HE Hn HcL ltac:(lia) ltac:(done))
        as [Hr|(m & e' & Hr & Hc & Hle)];
        destruct (round_ge true M E loc_Exact mU eU HM HE Hn HcU ltac:(lia))
        as [Hr'|(m' & e'' & Hr' & Hc' & Hge)];
        rewrite Hr in Hr' |- *; try discriminate.
      injection Hr' as <- <-. cbn [binary64 scaled cond_Zopp].
      split; [done|lia].
Qed.

(** *** Sums, products and quotients of binary64 numbers *)

Lemma shl_align_value (m : positive) (e e' : Z) :
  e' ≤ e → Zpos (shl_align m e e').1 = Zpos m * 2 ^ (e - e').
Proof.
  intros He. unfold shl_align. destruct (e' - e) as [|k|k] eqn:Hk; try lia.
  - replace (e - e') with 0 by lia. cbn. lia.
  - cbn [fst]. rewrite iter_xO_value. f_equal. f_equal. lia.
Qed.

Lemma cond_Zopp_mul (s : bool) (a b : Z) :
  cond_Zopp s a * b = cond_Zopp s (a * b).
Proof. destruct s; cbn; lia. Qed.

(** The integer that [fadd] and [fsub] normalise is the exact sum or
    difference, at the smaller exponent. *)
Lemma aligned_scaled (s : bool) (m : positive) (e ez : Z) :
  -2148 ≤ ez ≤ e →
  cond_Zopp s (Zpos (shl_align m e ez).1) * 2 ^ (ez + 2148)
    = scaled (S754_finite s m e).
Proof.
  intros He. rewrite shl_align_value by lia. cbn [scaled].
  rewrite cond_Zopp_mul. f_equal.
  rewrite (pow2_split (ez + 2148) (e + 2148) (e - ez)) by lia. ring.
Qed.

(** A sum whose exact value lies between two binary64 numbers is rounded
    to a number between them. *)
Lemma fadd_between (x y L U : float) :
  binary64 x → binary64 y → binary64 L → binary64 U →
  scaled L ≤ scaled x + scaled y ≤ scaled U →
  binary64 (fadd x y) ∧ scaled L ≤ scaled (fadd x y) ≤ scaled U.
Proof.
  intros Hx Hy HL HU Hsum. unfold fadd.
  destruct x as [sx| | |sx mx ex], y as [sy| | |sy my ey]; try done.
  - cbn [scaled] in Hsum.
    by destruct sx, sy; cbn [SFadd Bool.eqb binary64 scaled].
  - cbn [SFadd]. cbn [scaled] in Hsum |- *. split; [exact Hx|lia].
  - cbn [SFadd]. cbn [binary64] in Hx, Hy.
    destruct (canonical_facts _ _ Hx) as (Hex & _ & _).
    destruct (canonical_facts _ _ Hy) as (Hey & _ & _).
    apply normalize_between; [lia|done|done|].
    rewrite Z.mul_add_distr_r, !aligned_scaled by lia. done.
Qed.

Lemma digits2_pos_mul (m1 m2 : positive) :
  Zpos (digits2_pos m1) + Zpos (digits2_pos m2) - 1
    ≤ Zpos (digits2_pos (m1 * m2)).
Proof.
  pose proof (digits2_pos_ge m1) as H1. pose proof (digits2_pos_ge m2) as H2.
  pose proof (digits2_pos_gt (m1 * m2)) as H12.
  set (d1 := Zpos (digits2_pos m1)) in *. set (d2 := Zpos (digits2_pos m2)) in *.
  set (D := Zpos (digits2_pos (m1 * m2))) in *.
  assert (0 < d1 ∧ 0 < d2 ∧ 0 < D) as (? & ? & ?) by (unfold d1, d2, D; lia).
  assert (2 ^ (d1 + d2 - 2) < 2 ^ D) as Hlt.
  { rewrite (pow2_split (d1 - 1) (d1 + d2 - 2) (d2 - 1)) by lia.
    rewrite Pos2Z.inj_mul in H12.
    pose proof (pow2_pos (d1 - 1) ltac:(lia)).
    pose proof (pow2_pos (d2 - 1) ltac:(lia)). nia. }
  apply Z.pow_lt_mono_r_iff in Hlt; lia.
Qed.

(** A product of two non-negative binary64 numbers whose exact value is at
    most a binary64 number is rounded to at most that number. *)
Lemma fmul_le (t d U : float) :
  binary64 t → binary64 d → binary64 U → 0 ≤ scaled t → 0 ≤ scaled d →
  scaled t * scaled d ≤ scaled U * 2 ^ 2148 →
  binary64 (fmul t d) ∧ 0 ≤ scaled (fmul t d) ≤ scaled U.
Proof.
  intros Ht Hd HU Hst Hsd Hle.
  assert (0 < 2 ^ 2148) as HP by (by apply pow2_pos).
  assert (scaled t = 0 ∨ scaled d = 0 → 0 ≤ scaled U) as HU0.
  { intros [H0|H0]; rewrite H0 in Hle; nia. }
  unfold fmul.
  destruct t as [st| | |st mt et]; [|done|done|];
    (destruct d as [sd| | |sd md ed]; [|done|done|]); cbn [SFmul].
  - cbn [binary64 scaled]. split; [exact I|]. split; [lia|]. apply HU0. by left.
  - cbn [binary64 scaled]. split; [exact I|]. split; [lia|]. apply HU0. by left.
  - cbn [binary64 scaled]. split; [exact I|]. split; [lia|]. apply HU0. by right.
  - cbn [binary64] in Ht, Hd.
    destruct (canonical_facts _ _ Ht) as (Het & _ & _).
    destruct (canonical_facts _ _ Hd) as (Hed & _ & _).
    pose proof (scaled_pos mt et ltac:(lia)) as Hpt.
    pose proof (scaled_pos md ed ltac:(lia)) as Hpd.
    cbn [scaled] in Hst, Hsd, Hle.
    destruct st; cbn [cond_Zopp] in Hst, Hle; [lia|].
    destruct sd; cbn [cond_Zopp] in Hsd, Hle; [lia|].
    cbn [xorb].
    assert (Zpos mt * 2 ^ (et + 2148) * (Zpos md * 2 ^ (ed + 2148))
            = Zpos (mt * md) * 2 ^ (et + ed + 2148) * 2 ^ 2148) as Hprod.
    { rewrite Pos2Z.inj_mul.
      assert (2 ^ (et + ed + 2148) * 2 ^ 2148
              = 2 ^ (et + 2148) * 2 ^ (ed + 2148)) as Hpow
        by (rewrite <- !Z.pow_add_r by lia; f_equal; lia).
      rewrite <- (Z.mul_assoc _ (2 ^ (et + ed + 2148)) (2 ^ 2148)), Hpow.
      ring. }
    rewrite Hprod in Hle.
    pose proof (scaled_pos (mt * md) (et + ed) ltac:(lia)) as Hpp.
    destruct (binary64_scaled_pos U HU ltac:(nia)) as (mU & eU & -> & HcU).
    cbn [scaled cond_Zopp] in Hle |- *.
    assert (et + ed ≤ fexp prec emax (Zdigits2 (Zpos (mt * md)) + (et + ed)))
      as Hn.
    { cbn [Zdigits2]. pose proof (digits2_pos_mul mt md).
      destruct Ht as [Ht _], Hd as [Hd _].
      unfold fexp, emin, prec, emax in *. lia. }
    destruct (round_le false (Zpos (mt * md)) (et + ed) loc_Exact mU eU
                ltac:(lia) ltac:(lia) Hn HcU ltac:(nia) ltac:(done))
      as [->|(m & e & -> & Hc & Hm)]; cbn [binary64 scaled cond_Zopp].
    + split; [exact I|]. destruct (canonical_facts _ _ HcU) as (HeU & _ & _).
      pose proof (scaled_pos mU eU ltac:(lia)). lia.
    + split; [exact Hc|]. destruct (canonical_facts _ _ Hc) as (He & _ & _).
      pose proof (scaled_pos m e ltac:(lia)). lia.
Qed.

Lemma new_location_inexact (n r : Z) : new_location n r ≠ loc_Exact → r ≠ 0.
Proof.
  intros H ->. apply H.
  unfold new_location, new_location_even, new_location_odd.
  by destruct (Z.even n).
Qed.

(** The quotient of two positive integers [k < cnt <= 2^52], before it is
    rounded: 53 bits or more of [k / cnt], and the remainder. *)
Lemma div_core_unit (pk pc : positive) :
  Zpos pk < Zpos pc → Zpos pc ≤ 2 ^ 52 →
  ∃ q r e',
    SFdiv_core_binary prec emax (Zpos pk) 0 (Zpos pc) 0
      = (q, e', new_location (Zpos pc) r) ∧
    -105 ≤ e' ≤ -53 ∧ Zpos pk * 2 ^ (- e') = Zpos pc * q + r ∧
    0 ≤ r < Zpos pc ∧ 2 ^ 52 ≤ q.
Proof.
  intros Hlt Hc. unfold SFdiv_core_binary. cbn [Zdigits2].
  pose proof (digits2_pos_ge pk) as Hk1. pose proof (digits2_pos_gt pk) as Hk2.
  pose proof (digits2_pos_ge pc) as Hc1. pose proof (digits2_pos_gt pc) as Hc2.
  set (d1 := Zpos (digits2_pos pk)) in *.
  set (d2 := Zpos (digits2_pos pc)) in *.
  assert (0 < d1 ∧ 0 < d2) as [Hd1 Hd2] by (unfold d1, d2; lia).
  assert (d1 ≤ d2) as Hd12.
  { assert (2 ^ (d1 - 1) < 2 ^ d2) as H by lia.
    apply Z.pow_lt_mono_r_iff in H; lia. }
  assert (d2 ≤ 53) as Hd53.
  { assert (2 ^ (d2 - 1) ≤ 2 ^ 52) as H by lia.
    apply Z.pow_le_mono_r_iff in H; lia. }
  rewrite !Z.add_0_r. change (0 - 0) with 0.
  assert (Z.min (fexp prec emax (d1 - d2)) 0 = d1 - d2 - 53) as ->
    by (unfold fexp, emin, prec, emax; lia).
  destruct (0 - (d1 - d2 - 53)) as [|s|s] eqn:Hs; try lia.
  rewrite Z.shiftl_mul_pow2 by lia.
  pose proof (Z_div_mod (Zpos pk * 2 ^ Zpos s) (Zpos pc) ltac:(lia)) as Hdm.
  destruct (Z.div_eucl (Zpos pk * 2 ^ Zpos s) (Zpos pc)) as [q r].
  destruct Hdm as [Heq Hr].
  exists q, r, (d1 - d2 - 53). split; [reflexivity|]. split; [lia|].
  replace (- (d1 - d2 - 53)) with (Zpos s) by lia.
  split; [exact Heq|]. split; [exact Hr|].
  assert (2 ^ (d1 - 1) * 2 ^ Zpos s = 2 ^ 52 * 2 ^ d2) as Hpow
    by (rewrite <- !Z.pow_add_r by lia; f_equal; lia).
  pose proof (pow2_pos (Zpos s) ltac:(lia)) as Hps.
  assert (2 ^ 52 * Zpos pc < Zpos pc * (q + 1)) as Hq by nia.
  assert (0 < 2 ^ 52) by (by apply pow2_pos).
  nia.
Qed.

(** [k / cnt] for integers [0 <= k < cnt <= 2^52] is a binary64 number
    between 0 and [1 - 2^-52]. *)
Lemma fdiv_unit (k cnt : Z) :
  0 ≤ k < cnt → cnt ≤ 2 ^ 52 →
  binary64 (fdiv (exact_int k) (exact_int cnt)) ∧
  0 ≤ scaled (fdiv (exact_int k) (exact_int cnt)) ≤ 2 ^ 2148 - 2 ^ 2096.
Proof.
  intros Hk Hcnt.
  assert (0 < 2 ^ 2096) as HW by (by apply pow2_pos).
  assert (2 ^ 2148 = 2 ^ 52 * 2 ^ 2096) as HW2 by (by apply pow2_split).
  assert (1 < 2 ^ 52) as H52 by (by vm_compute).
  destruct cnt as [|pc|pc]; try lia. destruct k as [|pk|pk]; try lia.
  { cbn. split; [exact I|]. nia. }
  unfold fdiv. cbn [exact_int SFdiv xorb].
  destruct (div_core_unit pk pc ltac:(lia) Hcnt)
    as (q & r & e' & -> & He' & Heq & Hr & Hq).
  set (mB := Z.to_pos (2 ^ 53 - 2)).
  assert (canonical mB (-53)) as HcB by (split; [reflexivity|by vm_compute]).
  assert (Zpos mB * 2 ^ (-53 + 2148) = 2 ^ 2148 - 2 ^ 2096) as HB
    by (vm_compute; reflexivity).
  pose proof (pow2_pos (e' + 2148) ltac:(lia)) as HG.
  pose proof (pow2_pos (- e') ltac:(lia)) as HS.
  assert (2 ^ (- e') * 2 ^ (e' + 2148) = 2 ^ 52 * 2 ^ 2096) as Hpow
    by (rewrite <- !Z.pow_add_r by lia; f_equal; lia).
  assert (Zpos pc * (q * 2 ^ (e' + 2148))
          = Zpos pk * (2 ^ 52 * 2 ^ 2096) - r * 2 ^ (e' + 2148)) as Hval.
  { rewrite <- Hpow. nia. }
  assert (Zpos pk * (2 ^ 52 * 2 ^ 2096)
          ≤ Zpos pc * (2 ^ 52 * 2 ^ 2096 - 2 ^ 2096)) as Hup by nia.
  assert (e' ≤ fexp prec emax (Zdigits2 q + e')) as Hn.
  { pose proof (Zdigits2_bounds q ltac:(lia)) as [_ Hd].
    assert (2 ^ 52 < 2 ^ Zdigits2 q) as Hlt by lia.
    apply Z.pow_lt_mono_r_iff in Hlt; [|lia|].
    - unfold fexp, emin, prec, emax. lia.
    - destruct q; cbn [Zdigits2]; lia. }
  destruct (round_le false q e' (new_location (Zpos pc) r) mB (-53)
              ltac:(lia) ltac:(lia) Hn HcB) as [->|(m & e & -> & Hc & Hm)].
  - rewrite HB, HW2. nia.
  - intros Hl%new_location_inexact. rewrite HB, HW2. nia.
  - cbn [binary64 scaled]. split; [exact I|]. nia.
  - cbn [binary64 scaled cond_Zopp]. split; [exact Hc|].
    destruct (canonical_facts _ _ Hc) as (He & _ & _).
    pose proof (scaled_pos m e ltac:(lia)). rewrite HB in Hm. lia.
Qed.

(** Rounding an exact value either stays at or below it, or lands one unit
    in the last place above a binary64 number that is at or below it. *)
Lemma round_trunc (s : bool) (M E : Z) :
  0 < M → -1074 ≤ E → E ≤ fexp prec emax (Zdigits2 M + E) →
  binary_round_aux prec emax s M E loc_Exact = S754_infinity s ∨
  ∃ m e, binary_round_aux prec emax s M E loc_Exact = S754_finite s m e ∧
         canonical m e ∧
         (Zpos m * 2 ^ (e + 2148) ≤ M * 2 ^ (E + 2148) ∨
          ∃ mU eU, canonical mU eU ∧
                   Zpos mU * 2 ^ (eU + 2148) ≤ M * 2 ^ (E + 2148) ∧
                   2 ^ 52 * (Zpos m * 2 ^ (e + 2148)
                             - Zpos mU * 2 ^ (eU + 2148))
                     ≤ Zpos mU * 2 ^ (eU + 2148)).
Proof.
  intros HM HE Hn.
  destruct (round_shape s M E loc_Exact HM Hn)
    as (m2 & Hm2 & Hexact & Hm1 & Hnormal & Hcanon & ->).
  set (f := fexp prec emax (Zdigits2 M + E)) in *.
  set (m1 := M / 2 ^ (f - E)) in *.
  pose proof (cut_bounds M (f - E) ltac:(lia)) as [Hc1 _]. fold m1 in Hc1.
  pose proof (pow2_pos (E + 2148) ltac:(lia)) as HP.
  pose proof (pow2_pos (f - E) ltac:(lia)) as HQ.
  pose proof (pow2_pos (f + 2148) ltac:(lia)) as HG.
  assert (2 ^ (f + 2148) = 2 ^ (f - E) * 2 ^ (E + 2148)) as Hg
    by (apply pow2_split; lia).
  assert (m1 * 2 ^ (f + 2148) ≤ M * 2 ^ (E + 2148)) as Hlow
    by (rewrite Hg; nia).
  assert (0 < 2 ^ 52) as H52 by (by apply pow2_pos).
  assert (f = E → m1 = M) as Hsame.
  { intros Hf. unfold m1. rewrite Hf, Z.sub_diag. change (2 ^ 0) with 1.
    apply Z.div_1_r. }
  assert (0 < m1) as Hpos1.
  { destruct (Z.eq_dec f E) as [Hf|Hf]; [rewrite (Hsame Hf); lia|].
    specialize (Hnormal ltac:(lia)). lia. }
  assert (canonical (Z.to_pos m1) f ∨ emax - prec < f) as HcU.
  { destruct (Z.le_gt_cases f (emax - prec)) as [Hle|Hgt]; [left|by right].
    split; [|done]. specialize (Hcanon m1 Hpos1 ltac:(lia)).
    destruct m1; [lia|done|lia]. }
  destruct Hm2 as [->|Hup].
  - destruct (Z.eqb_spec m1 0) as [?|_]; [lia|].
    destruct (Z.ltb_spec m1 (2 ^ 53)) as [_|?]; [|lia].
    destruct (Z.leb_spec f (emax - prec)) as [Hle|Hgt]; [right|by left].
    destruct HcU as [HcU|?]; [|lia].
    exists (Z.to_pos m1), f. split; [done|]. split; [done|]. left.
    by rewrite Z2Pos.id.
  - assert (f ≠ E) as Hf.
    { intros Hf. specialize (Hsame Hf).
      assert (m2 = m1); [|lia]. apply Hexact; [done|].
      exists M. split; [lia|]. rewrite Hf, Z.sub_diag. change (2 ^ 0) with 1.
      lia. }
    specialize (Hnormal ltac:(lia)).
    destruct (Z.eqb_spec m2 0) as [?|_]; [lia|].
    destruct (Z.ltb_spec m2 (2 ^ 53)) as [Hlt|Hge].
    + destruct (Z.leb_spec f (emax - prec)) as [Hle|Hgt]; [right|by left].
      destruct HcU as [HcU|?]; [|lia].
      exists (Z.to_pos m2), f. split; [done|]. split.
      { split; [|done]. specialize (Hcanon m2 ltac:(lia) ltac:(lia)).
        destruct m2; [lia|done|lia]. }
      right. exists (Z.to_pos m1), f. split; [done|].
      rewrite !Z2Pos.id by lia. split; [done|]. nia.
    + assert (m2 = 2 ^ 53) as Hm253 by lia.
      destruct (Z.leb_spec (f + 1) (emax - prec)) as [Hle|Hgt];
        [right|by left].
      destruct HcU as [HcU|?]; [|lia].
      exists (Z.to_pos (2 ^ 52)), (f + 1). split; [done|]. split.
      { split; [|done].
        change (Zpos (digits2_pos (Z.to_pos (2 ^ 52)))) with 53.
        unfold fexp, emin, prec, emax in *. lia. }
      right. exists (Z.to_pos m1), f. split; [done|].
      rewrite Z2Pos.id by lia. split; [done|].
      change (Zpos (Z.to_pos (2 ^ 52))) with (2 ^ 52).
      replace (f + 1 + 2148) with (1 + (f + 2148)) by lia.
      rewrite (Z.pow_add_r 2 1 (f + 2148)) by lia. change (2 ^ 1) with 2.
      change (2 ^ 53) with (2 ^ 52 * 2) in Hm253. nia.
Qed.

(** A difference [hi - lo] of binary64 numbers [lo <= hi] that does not
    overflow is at most one unit in the last place above a binary64 number
    that is at most the exact difference. *)
Lemma fsub_trunc (hi lo : float) :
  binary64 hi → binary64 lo → scaled lo ≤ scaled hi →
  (∃ s, fsub hi lo = S754_infinity s) ∨
  (binary64 (fsub hi lo) ∧ 0 ≤ scaled (fsub hi lo) ∧
   ∃ U, binary64 U ∧ 0 ≤ scaled U ≤ scaled hi - scaled lo ∧
        2 ^ 52 * (scaled (fsub hi lo) - scaled U) ≤ scaled U).
Proof.
  intros Hhi Hlo Hle. unfold fsub.
  assert (0 < 2 ^ 52) as H52 by (by apply pow2_pos).
  destruct hi as [sx| | |sx mx ex]; [|done|done|];
    (destruct lo as [sy| | |sy my ey]; [|done|done|]).
  - right. cbn [scaled].
    assert (binary64 (SFsub prec emax (S754_zero sx) (S754_zero sy))
            ∧ scaled (SFsub prec emax (S754_zero sx) (S754_zero sy)) = 0) as [Hb ->]
      by (by destruct sx, sy).
    split; [exact Hb|]. split; [lia|].
    exists (S754_zero false). cbn [binary64 scaled]. split; [exact I|]. lia.
  - right. cbn [SFsub]. cbn [binary64] in Hlo.
    destruct (canonical_facts _ _ Hlo) as (He & _ & _).
    pose proof (scaled_pos my ey ltac:(lia)) as Hp.
    cbn [scaled] in Hle. destruct sy; cbn [cond_Zopp] in Hle; [|lia].
    cbn [negb binary64 scaled cond_Zopp]. split; [exact Hlo|]. split; [lia|].
    exists (S754_finite false my ey). cbn [binary64 scaled cond_Zopp].
    split; [exact Hlo|]. lia.
  - right. cbn [SFsub]. cbn [binary64] in Hhi.
    destruct (canonical_facts _ _ Hhi) as (He & _ & _).
    pose proof (scaled_pos mx ex ltac:(lia)) as Hp.
    cbn [scaled] in Hle. destruct sx; cbn [cond_Zopp] in Hle; [lia|].
    cbn [binary64 scaled cond_Zopp]. split; [exact Hhi|]. split; [lia|].
    exists (S754_finite false mx ex). cbn [binary64 scaled cond_Zopp].
    split; [exact Hhi|]. lia.
  - cbn [SFsub]. cbn [binary64] in Hhi, Hlo.
    destruct (canonical_facts _ _ Hhi) as (Hex & _ & _).
    destruct (canonical_facts _ _ Hlo) as (Hey & _ & _).
    set (ez := Z.min ex ey).
    set (S := cond_Zopp sx (Zpos (shl_align mx ex ez).1)
              - cond_Zopp sy (Zpos (shl_align my ey ez).1)).
    assert (S * 2 ^ (ez + 2148)
            = scaled (S754_finite sx mx ex) - scaled (S754_finite sy my ey))
      as HS.
    { unfold S. rewrite Z.mul_sub_distr_r, !aligned_scaled by (unfold ez; lia).
      done. }
    pose proof (pow2_pos (ez + 2148) ltac:(unfold ez; lia)) as HP.
    rewrite <- HS. clearbody S.
    destruct S as [|p|p]; [| |nia]; cbn [binary_normalize].
    + right. cbn [binary64 scaled]. split; [exact I|]. split; [lia|].
      exists (S754_zero false). cbn [binary64 scaled]. split; [exact I|]. lia.
    + destruct (binary_round_aligned false p ez (-1074) ltac:(lia)
                  ltac:(unfold ez; lia))
        as (M & E & HM & HE & Hn & Hval & ->).
      rewrite <- Hval.
      destruct (round_trunc false M E HM HE Hn)
        as [->|(m & e & -> & Hc & Hcase)]; [left; by eexists|right].
      destruct (canonical_facts _ _ Hc) as (He & _ & _).
      pose proof (scaled_pos m e ltac:(lia)) as Hp.
      cbn [binary64 scaled cond_Zopp]. split; [exact Hc|]. split; [lia|].
      destruct Hcase as [Hdown|(mU & eU & HcU & HU & Hulp)].
      * exists (S754_finite false m e). cbn [binary64 scaled cond_Zopp].
        split; [exact Hc|]. lia.
      * exists (S754_finite false mU eU). cbn [binary64 scaled cond_Zopp].
        destruct (canonical_facts _ _ HcU) as (HeU & _ & _).
        pose proof (scaled_pos mU eU ltac:(lia)).
        split; [exact HcU|]. lia.
Qed.

(** The interpolated coordinate stays between the two ends: with
    [lo <= hi] binary64 numbers whose difference does not overflow and an
    index [0 <= k < cnt <= 2^52],
    [lo <= lo + (k / cnt) * (hi - lo) <= hi] in binary64 arithmetic. *)
Lemma lerp_inside (lo hi : float) (k cnt : Z) :
  binary64 lo → binary64 hi → fle lo hi = true →
  finite (fsub hi lo) = true → 0 ≤ k < cnt → cnt ≤ 2 ^ 52 →
  within lo hi (lerp lo hi k cnt).
Proof.
  intros Hlo Hhi Hle Hfin Hk Hcnt.
  apply (fle_scaled lo hi Hlo Hhi) in Hle.
  destruct (fsub_trunc hi lo Hhi Hlo Hle)
    as [[s Hinf]|(Hd & Hd0 & U & HU & HUx & Hulp)];
    [rewrite Hinf in Hfin; discriminate|].
  destruct (fdiv_unit k cnt Hk Hcnt) as (Ht & Ht0).
  unfold lerp.
  set (t := fdiv (exact_int k) (exact_int cnt)) in *.
  set (d := fsub hi lo) in *.
  assert (scaled t * scaled d ≤ scaled U * 2 ^ 2148) as Hprod.
  { assert (2 ^ 2148 = 2 ^ 52 * 2 ^ 2096) as HW2 by (by apply pow2_split).
    assert (0 < 2 ^ 2096) as HW by (by apply pow2_pos).
    assert (1 < 2 ^ 52) as H52 by (by vm_compute).
    rewrite HW2 in Ht0 |- *.
    set (C := 2 ^ 52) in *. set (W := 2 ^ 2096) in *.
    assert ((C - 1) * scaled d ≤ C * scaled U) as Hcut.
    { assert (C * ((C - 1) * scaled d) ≤ C * (C * scaled U)) by nia. nia. }
    assert (scaled t * scaled d ≤ (C - 1) * W * scaled d) by nia. nia. }
  destruct (fmul_le t d U Ht Hd HU ltac:(lia) Hd0 Hprod) as (Hp & Hp0).
  destruct (fadd_between lo (fmul t d) lo hi Hlo Hp Hlo Hhi ltac:(lia))
    as (Hr & Hr0).
  unfold within. split; apply fle_scaled; (done || lia).
Qed.

(** ** Loops over ranges *)

Lemma elem_of_range (n x : Z) : x ∈ range n ↔ 0 ≤ x < n.
Proof.
  unfold range. rewrite list_elem_of_fmap. setoid_rewrite elem_of_seq. split.
  - intros (k & -> & Hk). lia.
  - intros Hx. exists (Z.to_nat x). lia.
Qed.

Lemma length_range (n : Z) : length (range n) = Z.to_nat n.
Proof. unfold range. by rewrite length_fmap, length_seq. Qed.

Lemma lookup_range (n k : Z) : 0 ≤ k < n → range n !! Z.to_nat k = Some k.
Proof.
  intros Hk. unfold range. rewrite list_lookup_fmap, lookup_seq_lt by lia.
  simpl. f_equal. lia.
Qed.

(** A loop whose every turn appends the items [g x] appends them all, in
    the order of the turns. *)
Lemma for_each_extend {A : Type} (xs : list A) (g : A → list Point)
    (body : A → Coords → result Coords) (acc : Coords) :
  (∀ x acc, x ∈ xs → body x acc = Ok (mkCoords (coords acc ++ g x))) →
  for_each xs body acc = Ok (mkCoords (coords acc ++ (xs ≫= g))).
Proof.
  revert acc. induction xs as [|x xs IH]; intros acc Hbody; simpl.
  - rewrite app_nil_r. by destruct acc.
  - rewrite Hbody by set_solver. cbn [mbind result_bind bind].
    rewrite IH by (intros; apply Hbody; set_solver).
    cbn [coords]. by rewrite <- app_assoc.
Qed.

Lemma for_each_append {A : Type} (xs : list A) (g : A → Point)
    (body : A → Coords → result Coords) (acc : Coords) :
  (∀ x acc, x ∈ xs → body x acc = Ok (Coords_append acc (g x))) →
  for_each xs body acc = Ok (mkCoords (coords acc ++ (g <$> xs))).
Proof.
  intros Hbody.
  rewrite (for_each_extend xs (λ x, [g x])) by done.
  assert (xs ≫= (λ x, [g x]) = g <$> xs) as ->; [|done]. clear Hbody.
  induction xs as [|x xs IH]; [done|]. cbn. by f_equal.
Qed.

(** Rows of equal length, one after the other: the item [j] of row [k]
    is at position [k * w + j]. *)
Lemma lookup_rows {A : Type} (rows : list (list A)) (w k j : nat) (row : list A) :
  Forall (λ r, length r = w) rows → rows !! k = Some row → (j < w)%nat →
  concat rows !! (k * w + j)%nat = row !! j.
Proof.
  intros Hall. revert k. induction Hall as [|r rows Hr _ IH]; intros k Hk Hj.
  - by rewrite lookup_nil in Hk.
  - destruct k as [|k]; simpl in *.
    + injection Hk as ->. by rewrite lookup_app_l by lia.
    + rewrite lookup_app_r by lia.
      replace (w + k * w + j - length r)%nat with (k * w + j)%nat by lia.
      by apply IH.
Qed.

Lemma length_rows {A : Type} (rows : list (list A)) (w : nat) :
  Forall (λ r, length r = w) rows →
  length (concat rows) = (length rows * w)%nat.
Proof.
  induction 1 as [|r rows Hr _ IH]; simpl; [done|].
  rewrite length_app. lia.
Qed.

(** ** The synthetic grid *)

Lemma grid_rows_concat (self : Bounds) (wcnt hcnt : Z) :
  grid_rows self wcnt hcnt =
  concat ((λ i, (λ j, grid_point self wcnt hcnt i j) <$> range wcnt)
            <$> range hcnt).
Proof.
  unfold grid_rows. induction (range hcnt) as [|i is_ IH]; [done|].
  rewrite bind_cons, fmap_cons. simpl. by f_equal.
Qed.

Lemma grid_rows_length (self : Bounds) (wcnt hcnt : Z) :
  0 ≤ wcnt → 0 ≤ hcnt →
  Z.of_nat (length (grid_rows self wcnt hcnt)) = wcnt * hcnt.
Proof.
  intros Hw Hh. rewrite grid_rows_concat.
  rewrite (length_rows _ (Z.to_nat wcnt)).
  - rewrite length_fmap, length_range. lia.
  - apply Forall_fmap, Forall_forall. intros i _. simpl.
    by rewrite length_fmap, length_range.
Qed.

Lemma grid_rows_lookup (self : Bounds) (wcnt hcnt i j : Z) :
  0 ≤ i < hcnt → 0 ≤ j < wcnt →
  grid_rows self wcnt hcnt !! Z.to_nat (i * wcnt + j) =
  Some (grid_point self wcnt hcnt i j).
Proof.
  intros Hi Hj. rewrite grid_rows_concat.
  replace (Z.to_nat (i * wcnt + j))
    with (Z.to_nat i * Z.to_nat wcnt + Z.to_nat j)%nat by lia.
  rewrite (lookup_rows _ (Z.to_nat wcnt) _ _
             ((λ j, grid_point self wcnt hcnt i j) <$> range wcnt)).
  - by rewrite list_lookup_fmap, lookup_range.
  - apply Forall_fmap, Forall_forall. intros k _. simpl.
    by rewrite length_fmap, length_range.
  - by rewrite list_lookup_fmap, lookup_range.
  - lia.
Qed.

Lemma grid_rows_Forall (P : Point → Prop) (self : Bounds) (wcnt hcnt : Z) :
  (∀ i j, 0 ≤ i < hcnt → 0 ≤ j < wcnt → P (grid_point self wcnt hcnt i j)) →
  Forall P (grid_rows self wcnt hcnt).
Proof.
  intros HP. apply Forall_forall. intros p Hp. unfold grid_rows in Hp.
  apply list_elem_of_bind in Hp as (i & Hp & Hi).
  apply list_elem_of_fmap in Hp as (j & -> & Hj).
  apply elem_of_range in Hi, Hj. by apply HP.
Qed.

Lemma int_truediv_in_range (k cnt : Z) :
  0 ≤ k < cnt → int_truediv k cnt = Ok (fdiv (exact_int k) (exact_int cnt)).
Proof.
  intros Hk. unfold int_truediv, overflows.
  destruct (Z.eqb_spec cnt 0) as [?|_]; [lia|].
  destruct (Z.leb_spec ((2 ^ 1025 - 2 ^ 971) * Z.abs cnt) (2 * Z.abs k))
    as [Hle|_]; [|done].
  exfalso. assert (2 ≤ 2 ^ 1025 - 2 ^ 971) by (by vm_compute). nia.
Qed.

Lemma interpolate_in_range (lo hi : float) (k cnt : Z) :
  0 ≤ k < cnt → interpolate lo hi k cnt = Ok (lerp lo hi k cnt).
Proof.
  intros Hk. unfold interpolate. by rewrite int_truediv_in_range.
Qed.

(** ** The two [sample] methods *)

Lemma cell_count_fits (extent interval : Distance) (n : Z) :
  cell_count extent interval = Ok n →
  int_to_float n = Ok (binary_normalize prec emax n 0 false).
Proof.
  unfold cell_count. rewrite bind_Ok. intros (q & Hq & Hn).
  apply int_to_float_fits. eapply float_to_int_bound; [|done].
  by eapply float_floordiv_bounded.
Qed.

Lemma float_truediv_int_Ok (x : float) (n : Z) (d : float) :
  n ≠ 0 → int_to_float n = Ok d → float_truediv_int x n = Ok (fdiv x d).
Proof.
  intros Hn Hd. unfold float_truediv_int.
  destruct (Z.eqb_spec n 0) as [?|_]; [done|]. by rewrite Hd.
Qed.

Lemma grid_rows_empty (self : Bounds) (wcnt hcnt : Z) :
  wcnt ≤ 0 ∨ hcnt ≤ 0 → grid_rows self wcnt hcnt = [].
Proof.
  intros [Hw|Hh]; unfold grid_rows, range.
  - replace (Z.to_nat wcnt) with 0%nat by lia. simpl.
    by induction (Z.of_nat <$> seq 0 (Z.to_nat hcnt)).
  - by replace (Z.to_nat hcnt) with 0%nat by lia.
Qed.

Section SampleTheorems.

Variable geodesic : float * float → float * float → result Distance.

Lemma grid_counts_fit (self : Bounds) (interval : Distance) (wcnt hcnt : Z) :
  grid_counts geodesic self interval = Ok (wcnt, hcnt) →
  int_to_float wcnt = Ok (binary_normalize prec emax wcnt 0 false) ∧
  int_to_float hcnt = Ok (binary_normalize prec emax hcnt 0 false).
Proof.
  unfold grid_counts. rewrite bind_Ok. intros ([width height] & _ & H).
  apply bind_Ok in H as (w & Hw & H). apply bind_Ok in H as (h & Hh & H).
  injection H as -> ->. split; by eapply cell_count_fits.
Qed.

(** [Bounds.sample] returns whenever the counts are computed, and what it
    returns is the grid in row-major order. *)
Lemma Bounds_sample_rows (self : Bounds) (interval : Distance) (wcnt hcnt : Z) :
  grid_counts geodesic self interval = Ok (wcnt, hcnt) →
  Bounds_sample geodesic self interval = Ok (mkCoords (grid_rows self wcnt hcnt)).
Proof.
  intros Hgrid. unfold Bounds_sample. rewrite Hgrid.
  cbn [mbind result_bind bind].
  rewrite (for_each_extend _
             (λ i, (λ j, grid_point self wcnt hcnt i j) <$> range wcnt)); [done|].
  intros i acc Hi. apply elem_of_range in Hi.
  rewrite interpolate_in_range by done. cbn [mbind result_bind bind].
  apply for_each_append. intros j acc' Hj. apply elem_of_range in Hj.
  by rewrite interpolate_in_range.
Qed.

(** C3, as the code has it: with both counts at least 1, [Bounds.sample]
    returns exactly [wcnt * hcnt] points in row-major order, the point of
    row [i] and column [j] at position [i * wcnt + j] with
    [lat = lo.lat + (i / hcnt) * (hi.lat - lo.lat)] and
    [lon = lo.lon + (j / wcnt) * (hi.lon - lo.lon)] in binary64
    arithmetic.  On an axis whose ends are in order ([lo <= hi], finite,
    with a finite difference) and whose count is at most [2^52], every
    point lies between the ends, rounding included. *)
Theorem Bounds_sample_grid (self : Bounds) (interval : Distance)
    (wcnt hcnt : Z) :
  grid_counts geodesic self interval = Ok (wcnt, hcnt) →
  1 ≤ wcnt → 1 ≤ hcnt →
  ∃ out, Bounds_sample geodesic self interval = Ok out ∧
         Coords_len out = wcnt * hcnt ∧
         coords out = grid_rows self wcnt hcnt ∧
         (∀ i j, 0 ≤ i < hcnt → 0 ≤ j < wcnt →
           coords out !! Z.to_nat (i * wcnt + j) =
           Some (mkPoint
                   (fadd (lon (lo self))
                      (fmul (fdiv (exact_int j) (exact_int wcnt))
                         (fsub (lon (hi self)) (lon (lo self)))))
                   (fadd (lat (lo self))
                      (fmul (fdiv (exact_int i) (exact_int hcnt))
                         (fsub (lat (hi self)) (lat (lo self))))) ∅)) ∧
         (ordered (lat (lo self)) (lat (hi self)) → hcnt ≤ 2 ^ 52 →
          Forall (λ p, within (lat (lo self)) (lat (hi self)) (lat p))
            (coords out)) ∧
         (ordered (lon (lo self)) (lon (hi self)) → wcnt ≤ 2 ^ 52 →
          Forall (λ p, within (lon (lo self)) (lon (hi self)) (lon p))
            (coords out)).
Proof.
  intros Hgrid Hw Hh. eexists. split; [by apply Bounds_sample_rows|].
  unfold Coords_len. cbn [coords].
  split; [|split; [done|split; [|split]]].
  - apply grid_rows_length; lia.
  - intros i j Hi Hj. by rewrite grid_rows_lookup.
  - intros (Hlo & Hhi & Hle & Hfin) Hcnt. apply grid_rows_Forall.
    intros i j Hi Hj. cbn [grid_point lat]. by apply lerp_inside.
  - intros (Hlo & Hhi & Hle & Hfin) Hcnt. apply grid_rows_Forall.
    intros i j Hi Hj. cbn [grid_point lon]. by apply lerp_inside.
Qed.

(** C2, as the code has it: when [wcnt == 0] or [hcnt == 0],
    [Bounds.sample] returns the empty point set, and [Coords.sample]
    raises [ZeroDivisionError] whatever the point set is. *)
Theorem sample_degenerate_grid (self : Bounds) (interval : Distance)
    (wcnt hcnt : Z) :
  grid_counts geodesic self interval = Ok (wcnt, hcnt) →
  wcnt = 0 ∨ hcnt = 0 →
  Bounds_sample geodesic self interval = Ok (mkCoords []) ∧
  ∀ points : Coords,
    Coords_sample geodesic points self interval = Raise ZeroDivisionError.
Proof.
  intros Hgrid Hzero. split.
  - rewrite (Bounds_sample_rows _ _ _ _ Hgrid).
    rewrite grid_rows_empty; [done|lia].
  - intros points. unfold Coords_sample, sample_grid. rewrite Hgrid.
    cbn [mbind result_bind bind].
    destruct (Z.eq_dec hcnt 0) as [->|Hh]; [done|].
    destruct Hzero as [->|?]; [|done].
    destruct (grid_counts_fit _ _ _ _ Hgrid) as [_ Hfit].
    by rewrite (float_truediv_int_Ok _ _ _ Hh Hfit).
Qed.

(** C1, as the code has it: [Coords.sample] is a range filter.  Its output
    is the sequence of the input points whose cell index lies in the grid,
    every one of them, however many share a cell. *)
Theorem Coords_sample_range_filter (self : Coords) (bounds : Bounds)
    (interval : Distance) (out : Coords) :
  Coords_sample geodesic self bounds interval = Ok out →
  ∃ w_len h_len lat_iv lon_iv,
    sample_grid geodesic bounds interval = Ok (w_len, h_len, lat_iv, lon_iv) ∧
    coords out =
      List.filter (keeps bounds w_len h_len lat_iv lon_iv) (coords self) ∧
    ∀ p i j, p ∈ coords self →
      point_cell bounds lat_iv lon_iv p = Ok (i, j) →
      0 ≤ i < h_len → 0 ≤ j < w_len → p ∈ coords out.
Proof.
  intros Hs. apply Coords_sample_spec in Hs
    as (w & h & lat_iv & lon_iv & Hgrid & _ & Hout).
  exists w, h, lat_iv, lon_iv. split; [done|]. split; [done|].
  intros p i j Hp Hcell Hi Hj. rewrite Hout.
  apply list_elem_of_In, filter_In. split; [by apply list_elem_of_In|].
  unfold keeps, in_grid. rewrite Hcell.
  repeat (apply andb_true_intro; split); lia.
Qed.

(** C8, as the code has it: a point is dropped exactly when its computed
    cell index [(i, j)], the floor divisions of lines 63-64 in binary64
    arithmetic, lies outside [[0, h_len) x [0, w_len)]. *)
Theorem Coords_sample_drops_outside (self : Coords) (bounds : Bounds)
    (interval : Distance) (out : Coords) :
  Coords_sample geodesic self bounds interval = Ok out →
  ∃ w_len h_len lat_iv lon_iv,
    sample_grid geodesic bounds interval = Ok (w_len, h_len, lat_iv, lon_iv) ∧
    ∀ p, p ∈ coords self →
      ∃ i j, point_cell bounds lat_iv lon_iv p = Ok (i, j) ∧
             (p ∈ coords out ↔ 0 ≤ i < h_len ∧ 0 ≤ j < w_len).
Proof.
  intros Hs. apply Coords_sample_spec in Hs
    as (w & h & lat_iv & lon_iv & Hgrid & Hall & Hout).
  exists w, h, lat_iv, lon_iv. split; [done|].
  intros p Hp. rewrite Forall_forall in Hall.
  destruct (Hall p Hp) as [[i j] Hcell]. exists i, j. split; [done|].
  rewrite Hout, list_elem_of_In, filter_In, <- list_elem_of_In.
  unfold keeps, in_grid. rewrite Hcell.
  rewrite !andb_true_iff, !Z.leb_le, !Z.ltb_lt. naive_solver.
Qed.

(** C9: the output of [Coords.sample] is a subsequence of the input: its
    points are input points, in their input order. *)
Theorem Coords_sample_sublist (self : Coords) (bounds : Bounds)
    (interval : Distance) (out : Coords) :
  Coords_sample geodesic self bounds interval = Ok out →
  sublist (coords out) (coords self).
Proof.
  intros Hs. apply Coords_sample_spec in Hs as (? & ? & ? & ? & _ & _ & ->).
  apply filter_sublist.
Qed.

End SampleTheorems.

(** ** Floor division by 0.05 *)

(** A mantissa already at its exponent is not rounded. *)
Lemma binary_round_aux_canonical (s : bool) (m : positive) (e : Z) :
  fexp prec emax (Zpos (digits2_pos m) + e) = e → e ≤ emax - prec →
  binary_round_aux prec emax s (Zpos m) e loc_Exact = S754_finite s m e.
Proof.
  intros Hcanon He. unfold binary_round_aux, shr_fexp. simpl Zdigits2.
  rewrite Hcanon, Z.sub_diag. simpl.
  rewrite Hcanon, Z.sub_diag. simpl.
  destruct (Z.leb_spec e (emax - prec)); [done|lia].
Qed.

(** An integer of at most 53 bits at an exponent within range is a
    binary64 number: normalising it shifts the mantissa and rounds
    nothing. *)
Lemma binary_round_exact (s : bool) (p : positive) (e : Z) :
  Zpos (digits2_pos p) ≤ prec → 3 - emax - prec ≤ e →
  Zpos (digits2_pos p) + e ≤ emax →
  ∃ mz k, 0 ≤ k ∧ k = e - fexp prec emax (Zpos (digits2_pos p) + e) ∧
          Zpos mz = Zpos p * 2 ^ k ∧
          binary_round prec emax s p e = S754_finite s mz (e - k).
Proof.
  intros Hd He Hmax. unfold binary_round, shl_align.
  set (f := fexp prec emax (Zpos (digits2_pos p) + e)).
  assert (f ≤ e) as Hf by (unfold f, fexp, emin, prec, emax in *; lia).
  destruct (f - e) as [|k|k] eqn:Hk; try lia.
  - exists p, 0. assert (f = e) as Hfe by lia.
    repeat split; [lia|lia|lia|].
    rewrite Z.sub_0_r. apply binary_round_aux_canonical; [exact Hfe|].
    unfold f, fexp, emin, prec, emax in *. lia.
  - exists (Pos.iter xO p k), (Zpos k).
    repeat split; [lia|lia|apply iter_xO_value|].
    replace (e - Zpos k) with f by lia.
    apply binary_round_aux_canonical.
    + rewrite iter_xO_digits. replace (_ + _ + f) with (Zpos (digits2_pos p) + e) by lia.
      done.
    + unfold f, fexp, emin, prec, emax in *. lia.
Qed.

Lemma dec_005 : dec 5 (-2) = S754_finite false 7205759403792794 (-57).
Proof. by vm_compute. Qed.

Lemma fmod_005 (m : positive) (q : Z) :
  0 ≤ q →
  q * 7205759403792794 < 16 * Zpos m < (q + 1) * 7205759403792794 →
  ∃ mz k, 0 ≤ k ≤ 52 ∧
          Zpos mz = (16 * Zpos m - q * 7205759403792794) * 2 ^ k ∧
          fmod (S754_finite false m (-53)) (dec 5 (-2))
            = S754_finite false mz (-57 - k).
Proof.
  intros Hq Hm. rewrite dec_005. unfold fmod.
  change (Z.min (-53) (-57)) with (-57).
  change (-53 - -57) with 4. change (-57 - -57) with 0.
  rewrite Z.shiftl_0_r, Z.shiftl_mul_pow2 by lia. change (2 ^ 4) with 16.
  rewrite Z.rem_mod_nonneg by lia.
  rewrite <- (Z.mod_unique (Zpos m * 16) 7205759403792794 q
                (16 * Zpos m - q * 7205759403792794)) by lia.
  destruct (16 * Zpos m - q * 7205759403792794) as [|r|r] eqn:Hr; try lia.
  simpl cond_Zopp. cbn [binary_normalize].
  pose proof (digits2_pos_ge r) as Hge. pose proof (digits2_pos_gt r) as Hgt.
  assert (Zpos (digits2_pos r) ≤ 53) as Hd.
  { destruct (Z.le_gt_cases (Zpos (digits2_pos r)) 53) as [|Hbig]; [done|].
    assert (2 ^ 53 ≤ 2 ^ (Zpos (digits2_pos r) - 1))
      by (apply Z.pow_le_mono_r; lia).
    change (2 ^ 53) with 9007199254740992 in *. lia. }
  destruct (binary_round_exact false r (-57)) as (mz & k & Hk0 & Hk & Hmz & ->);
    [done|unfold prec, emax; lia|unfold emax; lia|].
  exists mz, k. split; [|split; [by rewrite Hmz|done]].
  unfold fexp, emin, prec, emax in Hk. lia.
Qed.

Lemma fsub_shifted (m mz : positive) (k : Z) :
  0 ≤ k →
  fsub (S754_finite false m (-53)) (S754_finite false mz (-57 - k))
    = binary_normalize prec emax (Zpos m * 2 ^ (4 + k) - Zpos mz) (-57 - k)
        false.
Proof.
  intros Hk. unfold fsub, SFsub.
  replace (Z.min (-53) (-57 - k)) with (-57 - k) by lia.
  unfold shl_align. rewrite Z.sub_diag.
  destruct (-57 - k - -53) as [|j|j] eqn:Hj; try lia.
  cbn [fst cond_Zopp]. rewrite iter_xO_value.
  by replace (Zpos j) with (4 + k) by lia.
Qed.

Lemma normalize_shifted (q k : Z) :
  q = 11 ∨ q = 13 → 0 ≤ k ≤ 52 →
  binary_normalize prec emax (q * 7205759403792794 * 2 ^ k) (-57 - k) false
    = binary_normalize prec emax (q * 7205759403792794) (-57) false.
Proof.
  intros Hq Hk.
  assert (Forall (λ k, ∀ q, q = 11 ∨ q = 13 →
            binary_normalize prec emax (q * 7205759403792794 * 2 ^ k)
              (-57 - k) false
            = binary_normalize prec emax (q * 7205759403792794) (-57) false)
            (range 53)) as Hall.
  { change (range 53) with (Z.of_nat <$> seq 0 53). cbn [seq fmap list_fmap].
    repeat (constructor; [by intros ? [-> | ->]; vm_compute|]).
    constructor. }
  rewrite Forall_forall in Hall. apply Hall; [|done].
  apply elem_of_range. lia.
Qed.

(** For [x] in the binade [[0.5, 1)] with [q * 0.05 < x < (q + 1) * 0.05],
    [x // 0.05] is [q], for [q] 11 or 13. *)
Lemma floordiv_005 (m : positive) (q : Z) :
  q = 11 ∨ q = 13 →
  q * 7205759403792794 < 16 * Zpos m < (q + 1) * 7205759403792794 →
  cell_count (mkDistance (S754_finite false m (-53))) (mkDistance (dec 5 (-2)))
    = Ok q.
Proof.
  intros Hq Hm.
  destruct (fmod_005 m q) as (mz & k & Hk & Hmz & Hmod); [lia|done|].
  unfold cell_count, float_floordiv. cbn [km]. rewrite Hmod.
  rewrite fsub_shifted by lia.
  replace (Zpos m * 2 ^ (4 + k) - Zpos mz) with (q * 7205759403792794 * 2 ^ k).
  - rewrite normalize_shifted by done. by destruct Hq as [-> | ->]; vm_compute.
  - rewrite Hmz, Z.pow_add_r by lia. change (2 ^ 4) with 16. ring.
Qed.

(** A number between two positive numbers of one exponent has that
    exponent, and its mantissa lies between theirs. *)
Lemma between_same_exponent (mlo mhi : positive) (e : Z) (x : float) :
  fle (S754_finite false mlo e) x = true →
  fle x (S754_finite false mhi e) = true →
  ∃ m, x = S754_finite false m e ∧ Zpos mlo ≤ Zpos m ≤ Zpos mhi.
Proof.
  destruct x as [[]|[]| |[] m ex]; try done; unfold fle, SFleb; simpl.
  intros Hlo Hhi.
  assert (ex = e) as -> by order_cases.
  exists m. split; [done|].
  rewrite Z.compare_refl in Hlo, Hhi. order_cases.
Qed.

(** A box that measures between 0.651 and 0.699 km in width and between
    0.551 and 0.599 km in height has 13 columns and 11 rows of 0.05 km. *)
Lemma grid_counts_13_by_11
    (geodesic : float * float → float * float → result Distance)
    (self : Bounds) (width height : Distance) :
  get_wh geodesic self = Ok (width, height) →
  fle (dec 651 (-3)) (km width) = true →
  fle (km width) (dec 699 (-3)) = true →
  fle (dec 551 (-3)) (km height) = true →
  fle (km height) (dec 599 (-3)) = true →
  grid_counts geodesic self km005 = Ok (13, 11).
Proof.
  intros Hwh Hw1 Hw2 Hh1 Hh2.
  destruct width as [w], height as [h]. cbn [km] in *.
  replace (dec 651 (-3)) with (S754_finite false 5863686714836386 (-53))
    in Hw1 by (by vm_compute).
  replace (dec 699 (-3)) with (S754_finite false 6296032279063953 (-53))
    in Hw2 by (by vm_compute).
  replace (dec 551 (-3)) with (S754_finite false 4962966789362287 (-53))
    in Hh1 by (by vm_compute).
  replace (dec 599 (-3)) with (S754_finite false 5395312353589854 (-53))
    in Hh2 by (by vm_compute).
  destruct (between_same_exponent _ _ _ _ Hw1 Hw2) as (mw & -> & Hmw).
  destruct (between_same_exponent _ _ _ _ Hh1 Hh2) as (mh & -> & Hmh).
  unfold grid_counts, km005. rewrite Hwh. cbn [mbind result_bind bind].
  rewrite (floordiv_005 mw 13), (floordiv_005 mh 11) by lia. done.
Qed.

(** ** The theorems at work, and where the claims part from the code *)

(** [get_bounds_tight] on three points. *)
Lemma get_bounds_tight_witness :
  get_bounds triangle = Ok (Some triangle_box) ∧
  Forall (λ p, below (lo triangle_box) p ∧ below p (hi triangle_box))
    (coords triangle).
Proof.
  assert (get_bounds triangle = Ok (Some triangle_box)) as Hc
    by (vm_compute; reflexivity).
  destruct (proj2 (get_bounds_tight triangle)) as (b & Hb & Hall & _).
  - discriminate.
  - repeat constructor.
  - rewrite Hc in Hb. injection Hb as <-. split; [exact Hc|exact Hall].
Defined.

(** C7, as the claim states it, fails: with a NaN longitude first, the
    [lo] corner keeps the NaN, which is not below the longitude 1 of the
    second point. *)
Lemma get_bounds_nan :
  ∃ b, get_bounds nan_points = Ok (Some b) ∧
       is_nan (lon (lo b)) = true ∧
       Exists (λ p, fle (lon (lo b)) (lon p) = false) (coords nan_points).
Proof.
  eexists. split; [vm_compute; reflexivity|]. split; [reflexivity|].
  apply Exists_cons_tl, Exists_cons_hd. reflexivity.
Qed.

(** [Bounds_sample_grid] on the one-degree box at 50 km: 2 x 2 points, the
    last one at a half degree on both axes, all of them in the box. *)
Lemma Bounds_sample_grid_witness :
  grid_counts flat_geodesic unit_box km50 = Ok (2, 2) ∧
  ∃ out, Bounds_sample flat_geodesic unit_box km50 = Ok out ∧
         Coords_len out = 4 ∧
         coords out !! 3%nat = Some (pt (dec 5 (-1)) (dec 5 (-1))) ∧
         Forall (λ p, within (dec 0 0) (dec 1 0) (lat p)
                      ∧ within (dec 0 0) (dec 1 0) (lon p)) (coords out).
Proof.
  assert (grid_counts flat_geodesic unit_box km50 = Ok (2, 2)) as Hgrid
    by (vm_compute; reflexivity).
  assert (ordered (dec 0 0) (dec 1 0)) as Hord.
  { split; [exact I|]. split; [split; [reflexivity|by vm_compute]|].
    split; reflexivity. }
  split; [exact Hgrid|].
  destruct (Bounds_sample_grid flat_geodesic unit_box km50 2 2 Hgrid)
    as (out & Hout & Hlen & _ & Hat & Hlat & Hlon); [lia|lia|].
  exists out. split; [exact Hout|]. split; [exact Hlen|]. split.
  - pose proof (Hat 1 1 ltac:(lia) ltac:(lia)) as H11.
    change (Z.to_nat (1 * 2 + 1)) with 3%nat in H11.
    rewrite H11. vm_compute. reflexivity.
  - apply Forall_and. split; [apply Hlat|apply Hlon]; (exact Hord || lia).
Defined.

(** C3, as the claim states it, fails: [Bounds(lo=..., hi=...)] does not
    order its corners.  On a box with [lo.lat = 1 > hi.lat = 0] both counts
    are 2 and no point of the grid has [lo.lat <= lat <= hi.lat]. *)
Lemma Bounds_sample_flipped_box :
  grid_counts flat_geodesic flipped_box km50 = Ok (2, 2) ∧
  ∃ out, Bounds_sample flat_geodesic flipped_box km50 = Ok out ∧
         Coords_len out = 4 ∧
         Forall (λ p, fle (lat (lo flipped_box)) (lat p)
                      && fle (lat p) (lat (hi flipped_box)) = false)
           (coords out).
Proof.
  split; [vm_compute; reflexivity|].
  eexists. split; [vm_compute; reflexivity|]. split; [reflexivity|].
  repeat constructor.
Qed.

(** [sample_degenerate_grid] on the box of no area. *)
Lemma sample_degenerate_grid_witness :
  grid_counts flat_geodesic point_box km1 = Ok (0, 0) ∧
  Bounds_sample flat_geodesic point_box km1 = Ok (mkCoords []) ∧
  Coords_sample flat_geodesic crowd point_box km1 = Raise ZeroDivisionError.
Proof.
  assert (grid_counts flat_geodesic point_box km1 = Ok (0, 0)) as Hgrid
    by (vm_compute; reflexivity).
  split; [exact Hgrid|].
  destruct (sample_degenerate_grid flat_geodesic point_box km1 0 0 Hgrid)
    as [Hb Hc]; [by left|].
  split; [exact Hb|exact (Hc crowd)].
Defined.

(** C2, as the claim states it, fails: on a box of no area both counts are
    0; [Bounds.sample] returns an empty point set and raises nothing, and
    what [Coords.sample] raises is [ZeroDivisionError]. *)
Lemma sample_point_box :
  grid_counts flat_geodesic point_box km1 = Ok (0, 0) ∧
  Bounds_sample flat_geodesic point_box km1 = Ok (mkCoords []) ∧
  Coords_sample flat_geodesic crowd point_box km1 = Raise ZeroDivisionError.
Proof. repeat split; vm_compute; reflexivity. Qed.

(** [Coords_sample_range_filter] on the four points of [crowd]. *)
Lemma Coords_sample_range_filter_witness :
  Coords_sample flat_geodesic crowd unit_box km50 = Ok crowd_kept ∧
  ∃ w_len h_len lat_iv lon_iv,
    sample_grid flat_geodesic unit_box km50 = Ok (w_len, h_len, lat_iv, lon_iv) ∧
    coords crowd_kept =
      List.filter (keeps unit_box w_len h_len lat_iv lon_iv) (coords crowd).
Proof.
  assert (Coords_sample flat_geodesic crowd unit_box km50 = Ok crowd_kept)
    as Hs by (vm_compute; reflexivity).
  split; [exact Hs|].
  destruct (Coords_sample_range_filter flat_geodesic _ _ _ _ Hs)
    as (w & h & lat_iv & lon_iv & Hgrid & Hout & _).
  exists w, h, lat_iv, lon_iv. split; [exact Hgrid|exact Hout].
Defined.

(** C1, as the claim states it, fails: on the 2 x 2 grid of [unit_box],
    the first two points of [crowd] both have cell [(0, 0)], and both are
    in the output. *)
Lemma Coords_sample_keeps_cell_mates :
  sample_grid flat_geodesic unit_box km50
    = Ok (2, 2, dec 5 (-1), dec 5 (-1)) ∧
  point_cell unit_box (dec 5 (-1)) (dec 5 (-1)) (pt (dec 1 (-1)) (dec 1 (-1)))
    = Ok (0, 0) ∧
  point_cell unit_box (dec 5 (-1)) (dec 5 (-1)) (pt (dec 2 (-1)) (dec 2 (-1)))
    = Ok (0, 0) ∧
  Coords_sample flat_geodesic crowd unit_box km50
    = Ok (mkCoords [pt (dec 1 (-1)) (dec 1 (-1)); pt (dec 2 (-1)) (dec 2 (-1));
                    pt (dec 7 (-1)) (dec 2 (-1))]).
Proof. repeat split; vm_compute; reflexivity. Qed.

(** [Coords_sample_drops_outside] on the point of [crowd] east of the
    box. *)
Lemma Coords_sample_drops_outside_witness :
  Coords_sample flat_geodesic crowd unit_box km50 = Ok crowd_kept ∧
  ∃ i j, point_cell unit_box (dec 5 (-1)) (dec 5 (-1))
           (pt (dec 15 (-1)) (dec 5 (-1))) = Ok (i, j) ∧
         (pt (dec 15 (-1)) (dec 5 (-1)) ∈ coords crowd_kept
          ↔ 0 ≤ i < 2 ∧ 0 ≤ j < 2).
Proof.
  assert (Coords_sample flat_geodesic crowd unit_box km50 = Ok crowd_kept)
    as Hs by (vm_compute; reflexivity).
  split; [exact Hs|].
  destruct (Coords_sample_drops_outside flat_geodesic _ _ _ _ Hs)
    as (w & h & lat_iv & lon_iv & Hgrid & Hall).
  assert (w = 2 ∧ h = 2 ∧ lat_iv = dec 5 (-1) ∧ lon_iv = dec 5 (-1))
    as (-> & -> & -> & ->)
    by (vm_compute in Hgrid; injection Hgrid as <- <- <- <-;
        repeat split; vm_compute; reflexivity).
  apply Hall. unfold crowd. cbn [coords].
  do 3 apply list_elem_of_further. apply list_elem_of_here.
Defined.

(** C8, as the claim states it, fails: on the 10 x 10 grid of [unit_box]
    the cell size is the binary64 number [1.0 / 10], just above one tenth,
    so the point at [lat = hi.lat = 1] gets the row [1.0 // 0.1 = 9] and is
    kept. *)
Lemma Coords_sample_keeps_edge_point :
  lat edge_point = lat (hi unit_box) ∧
  sample_grid flat_geodesic unit_box km11
    = Ok (10, 10, dec 1 (-1), dec 1 (-1)) ∧
  point_cell unit_box (dec 1 (-1)) (dec 1 (-1)) edge_point = Ok (9, 4) ∧
  Coords_sample flat_geodesic (mkCoords [edge_point]) unit_box km11
    = Ok (mkCoords [edge_point]).
Proof. repeat split; vm_compute; reflexivity. Qed.

(** On the 4 x 4 grid the cell size [1.0 / 4] is exact, the same point
    gets the row 4 and is dropped. *)
Example Coords_sample_drops_edge_point :
  sample_grid flat_geodesic unit_box km25
    = Ok (4, 4, dec 25 (-2), dec 25 (-2)) ∧
  point_cell unit_box (dec 25 (-2)) (dec 25 (-2)) edge_point = Ok (4, 2) ∧
  Coords_sample flat_geodesic (mkCoords [edge_point]) unit_box km25
    = Ok (mkCoords []).
Proof. repeat split; vm_compute; reflexivity. Qed.

(** [Coords_sample_sublist] on the four points of [crowd]. *)
Lemma Coords_sample_sublist_witness :
  Coords_sample flat_geodesic crowd unit_box km50 = Ok crowd_kept ∧
  sublist (coords crowd_kept) (coords crowd).
Proof.
  assert (Coords_sample flat_geodesic crowd unit_box km50 = Ok crowd_kept)
    as Hs by (vm_compute; reflexivity).
  split; [exact Hs|].
  exact (Coords_sample_sublist flat_geodesic _ _ _ _ Hs).
Defined.

(** C4: on the box of the golden scenario, at an interval of 0.05 km,
    [Bounds.sample] returns exactly 143 points.  The geodesic distance is
    [geopy]'s; the count holds for every distance that measures the box
    between 0.651 and 0.699 km wide and between 0.551 and 0.599 km high,
    as the WGS-84 geodesic does (0.673 km by 0.591 km). *)
Theorem golden_scenario
    (geodesic : float * float → float * float → result Distance)
    (width height : Distance) :
  get_wh geodesic golden_box = Ok (width, height) →
  fle (dec 651 (-3)) (km width) = true →
  fle (km width) (dec 699 (-3)) = true →
  fle (dec 551 (-3)) (km height) = true →
  fle (km height) (dec 599 (-3)) = true →
  ∃ out, Bounds_sample geodesic golden_box km005 = Ok out ∧
         Coords_len out = 143.
Proof.
  intros Hwh Hw1 Hw2 Hh1 Hh2.
  pose proof (grid_counts_13_by_11 _ _ _ _ Hwh Hw1 Hw2 Hh1 Hh2) as Hgrid.
  eexists. split; [by apply Bounds_sample_rows|].
  unfold Coords_len. cbn [coords]. by rewrite grid_rows_length.
Qed.

(** [golden_scenario] with the rates of 37.78 degrees north, which measure
    the box 0.673 km wide and 0.591 km high. *)
Lemma golden_scenario_witness :
  ∃ out, Bounds_sample flat_geodesic_sf golden_box km005 = Ok out ∧
         Coords_len out = 143.
Proof.
  destruct (get_wh flat_geodesic_sf golden_box) as [[width height]|e] eqn:Hwh;
    [|vm_compute in Hwh; discriminate].
  assert (km width = S754_finite false 6061844738148738 (-53) ∧
          km height = S754_finite false 5322546865749758 (-53)) as [Hw Hh]
    by (vm_compute in Hwh; injection Hwh as <- <-; split; reflexivity).
  apply (golden_scenario flat_geodesic_sf width height Hwh);
    rewrite ?Hw, ?Hh; vm_compute; reflexivity.
Defined.

(** The assertion of the module's [__main__] (line 152), run with the
    same rates: 143 points, every one of them north of [hi.lat]. *)
Example main_assertion :
  ∃ out, Bounds_sample flat_geodesic_sf main_box km005 = Ok out ∧
         Coords_len out = 143 ∧
         Forall (λ p, fle (lat p) (lat (hi main_box)) = false) (coords out).
Proof.
  eexists. split; [vm_compute; reflexivity|]. split; [reflexivity|].
  repeat constructor.
Qed.

(** On the box of the golden scenario the corners are ordered, and each of
    the 13 x 11 points lies between them on both axes. *)
Example golden_grid_inside :
  Forall (λ p, below (lo golden_box) p ∧ below p (hi golden_box))
    (grid_rows golden_box 13 11).
Proof.
  assert (forallb (λ p, fle (lon (lo golden_box)) (lon p)
                        && fle (lat (lo golden_box)) (lat p)
                        && fle (lon p) (lon (hi golden_box))
                        && fle (lat p) (lat (hi golden_box)))
            (grid_rows golden_box 13 11) = true) as Hall
    by (vm_compute; reflexivity).
  rewrite forallb_forall in Hall. apply Forall_forall. intros p Hp.
  apply list_elem_of_In, Hall in Hp.
  rewrite !andb_true_iff in Hp. unfold below. tauto.
Qed.

(** The point [Bounds.sample] emits for row 3 of the 10 x 10 grid of
    [unit_box] has the latitude [0.3 * 1.0], and [Coords.sample] puts it
    in row [0.3 // 0.1 = 2]. *)
Example grid_point_changes_row :
  grid_counts flat_geodesic unit_box km11 = Ok (10, 10) ∧
  sample_grid flat_geodesic unit_box km11
    = Ok (10, 10, dec 1 (-1), dec 1 (-1)) ∧
  point_cell unit_box (dec 1 (-1)) (dec 1 (-1)) (grid_point unit_box 10 10 3 3)
    = Ok (2, 2).
Proof. repeat split; vm_compute; reflexivity. Qed.

(** * Further properties *)

(** ** Slices *)

Lemma slice_indices_step (start stop step : option Z) (len : Z) :
  0 ≤ len → default 1 step ≠ 0 →
  ∃ a b, slice_indices start stop step len = Ok (a, b, default 1 step) ∧
         (0 < default 1 step → 0 ≤ a ≤ len ∧ 0 ≤ b ≤ len) ∧
         (default 1 step < 0 → -1 ≤ a < len ∧ -1 ≤ b < len).
Proof.
  intros Hlen Hstep. unfold slice_indices.
  destruct (Z.eqb_spec (default 1 step) 0) as [?|_]; [done|].
  destruct (Z.ltb_spec 0 (default 1 step)) as [Hpos|Hneg].
  - destruct (Z.ltb_spec (default 1 step) 0) as [?|_]; [lia|].
    eexists _, _. split; [reflexivity|]. split; [|lia]. intros _.
    destruct start as [v|], stop as [v'|]; repeat case_match; lia.
  - destruct (Z.ltb_spec (default 1 step) 0) as [_|?]; [|lia].
    eexists _, _. split; [reflexivity|]. split; [lia|]. intros _.
    destruct start as [v|], stop as [v'|]; repeat case_match; lia.
Qed.

Lemma omap_fmap {A B C : Type} (f : B → option C) (g : A → B) (l : list A) :
  omap f (g <$> l) = omap (f ∘ g) l.
Proof.
  induction l as [|x l IH]; [done|]. csimpl. unfold compose at 1.
  destruct (f (g x)); by rewrite IH.
Qed.

Lemma omap_ext_in {A B : Type} (f g : A → option B) (l : list A) :
  (∀ x, x ∈ l → f x = g x) → omap f l = omap g l.
Proof.
  induction l as [|x l IH]; intros Hfg; [done|]. csimpl.
  rewrite (Hfg x) by apply list_elem_of_here.
  rewrite IH; [done|]. intros y Hy. apply Hfg. by apply list_elem_of_further.
Qed.

(** The items of [l] at the positions [a, a + d, a + 2 d, ...] are a
    sublist of [l]. *)
Lemma progression_sublist {A : Type} (l : list A) (a d s n : nat) :
  (0 < d)%nat →
  sublist (omap (λ k, l !! (a + k * d)%nat) (seq s n)) (drop (a + s * d) l).
Proof.
  intros Hd. revert s. induction n as [|n IH]; intros s; [apply sublist_nil_l|].
  cbn [seq omap list_omap]. specialize (IH (S s)).
  assert (drop (a + S s * d) l = drop (d - 1) (drop (S (a + s * d)) l)) as Hdrop
    by (rewrite drop_drop; f_equal; lia).
  destruct (l !! (a + s * d)%nat) as [x|] eqn:Hx.
  - rewrite (drop_S _ _ _ Hx). apply sublist_skip.
    etrans; [exact IH|]. rewrite Hdrop. apply sublist_drop.
  - etrans; [exact IH|].
    replace (a + S s * d)%nat with (a + s * d + d)%nat by lia.
    rewrite <- drop_drop. apply sublist_drop.
Qed.

(** The items at [n] consecutive positions from [a] on. *)
Lemma consecutive_lookup {A : Type} (l : list A) (a s n : nat) :
  (a + s + n ≤ length l)%nat →
  omap (λ k, l !! (a + k)%nat) (seq s n) = take n (drop (a + s) l).
Proof.
  revert s. induction n as [|n IH]; intros s Hlen; [done|].
  cbn [seq omap list_omap].
  destruct (lookup_lt_is_Some_2 l (a + s)) as [x Hx]; [lia|].
  rewrite Hx, (drop_S _ _ _ Hx). cbn [take]. f_equal.
  rewrite IH by lia. do 2 f_equal. lia.
Qed.

(** The indices of a slice, as natural numbers. *)
Lemma range3_lookups {A : Type} (l : list A) (a b step : Z) :
  omap (λ k, l !! Z.to_nat k) (range3 a b step) =
  omap (λ k : nat, l !! Z.to_nat (a + Z.of_nat k * step))
    (seq 0 (Z.to_nat (if 0 <? step then (b - a + step - 1) / step
                      else (a - b - step - 1) / (- step)))).
Proof. unfold range3, range. by rewrite !omap_fmap. Qed.

(** A slice with a positive step selects a sublist. *)
Lemma list_getslice_forward {A : Type} (l : list A) (start stop step : option Z) :
  0 < default 1 step →
  ∃ l', list_getslice l start stop step = Ok l' ∧ sublist l' l.
Proof.
  intros Hstep.
  destruct (slice_indices_step start stop step (Z.of_nat (length l)))
    as (a & b & Hidx & Hpos & _); [lia|lia|].
  destruct (Hpos Hstep) as [Ha Hb].
  unfold list_getslice. rewrite Hidx. cbn [mbind result_bind bind].
  eexists. split; [reflexivity|].
  rewrite range3_lookups.
  destruct (Z.ltb_spec 0 (default 1 step)) as [_|?]; [|lia].
  set (d := Z.to_nat (default 1 step)).
  rewrite (omap_ext_in _ (λ k, l !! (Z.to_nat a + k * d)%nat)).
  - etrans; [apply (progression_sublist _ _ _ 0); lia|]. apply sublist_drop.
  - intros k _. f_equal. nia.
Qed.

(** A slice with a negative step selects a sublist of the reversed list. *)
Lemma list_getslice_backward {A : Type} (l : list A) (start stop step : option Z) :
  default 1 step < 0 →
  ∃ l', list_getslice l start stop step = Ok l' ∧ sublist l' (reverse l).
Proof.
  intros Hstep.
  destruct (slice_indices_step start stop step (Z.of_nat (length l)))
    as (a & b & Hidx & _ & Hneg); [lia|lia|].
  destruct (Hneg Hstep) as [Ha Hb].
  unfold list_getslice. rewrite Hidx. cbn [mbind result_bind bind].
  eexists. split; [reflexivity|].
  rewrite range3_lookups.
  destruct (Z.ltb_spec 0 (default 1 step)) as [?|_]; [lia|].
  set (d := - default 1 step) in *.
  set (N := (a - b - default 1 step - 1) / d).
  set (a' := Z.to_nat (Z.of_nat (length l) - 1 - a)).
  set (d' := Z.to_nat d).
  rewrite (omap_ext_in _ (λ k, reverse l !! (a' + k * d')%nat)).
  - etrans; [apply (progression_sublist _ _ _ 0); lia|]. apply sublist_drop.
  - intros k Hk. apply elem_of_seq in Hk.
    assert (0 < N) as HN by lia.
    assert (d * N ≤ a - b - default 1 step - 1) as Hdiv
      by (apply Z.mul_div_le; lia).
    assert (0 ≤ a + Z.of_nat k * default 1 step) as Hlo by nia.
    assert (a + Z.of_nat k * default 1 step ≤ a) as Hhi by nia.
    rewrite reverse_lookup by nia. f_equal. nia.
Qed.

Lemma clip_index_range (len v : Z) : 0 ≤ len → 0 ≤ clip_index len v ≤ len.
Proof. unfold clip_index. case_match; lia. Qed.

Lemma clip_index_id (len v : Z) : 0 ≤ v ≤ len → clip_index len v = v.
Proof. unfold clip_index. case_match; lia. Qed.

(** A slice with no step is a run of consecutive items: [l[a:b]] drops
    the items before [a] and takes the ones up to [b], the two bounds
    clipped. *)
Lemma list_getslice_unit {A : Type} (l : list A) (start stop : option Z) :
  let len := Z.of_nat (length l) in
  let a := from_option (clip_index len) 0 start in
  let b := from_option (clip_index len) len stop in
  list_getslice l start stop None
    = Ok (take (Z.to_nat (b - a)) (drop (Z.to_nat a) l)).
Proof.
  intros len a b.
  assert (0 ≤ a ≤ len) as Ha
    by (unfold a, len; destruct start; simpl; [apply clip_index_range|]; lia).
  assert (0 ≤ b ≤ len) as Hb
    by (unfold b, len; destruct stop; simpl; [apply clip_index_range|]; lia).
  assert (slice_indices start stop None len = Ok (a, b, 1)) as Hidx
    by (unfold a, b, clip_index, slice_indices; by destruct start, stop).
  unfold list_getslice. fold len. rewrite Hidx.
  cbn [mbind result_bind bind]. f_equal. rewrite range3_lookups.
  change (0 <? 1) with true. cbv iota.
  replace ((b - a + 1 - 1) / 1) with (b - a) by (rewrite Z.div_1_r; lia).
  rewrite (omap_ext_in _ (λ k, l !! (Z.to_nat a + k)%nat))
    by (intros k _; f_equal; lia).
  rewrite (consecutive_lookup _ _ 0) by lia. do 2 f_equal. lia.
Qed.

Lemma list_getslice_reverse {A : Type} (l : list A) :
  list_getslice l None None (Some (-1)) = Ok (reverse l).
Proof.
  set (len := Z.of_nat (length l)).
  assert (slice_indices None None (Some (-1)) len = Ok (len - 1, -1, -1))
    as Hidx by done.
  unfold list_getslice. fold len. rewrite Hidx.
  cbn [mbind result_bind bind]. f_equal. rewrite range3_lookups.
  change (0 <? -1) with false. cbv iota.
  change (- -1) with 1. rewrite Z.div_1_r.
  rewrite (omap_ext_in _ (λ k, reverse l !! (0 + k)%nat)).
  - rewrite (consecutive_lookup _ _ 0) by (rewrite length_reverse; lia).
    rewrite take_ge; [done|]. rewrite length_drop, length_reverse. lia.
  - intros k Hk%elem_of_seq. rewrite reverse_lookup by lia. f_equal. lia.
Qed.

(** X1: A slice [s[start:stop:step]] of a point set raises [ValueError] when
    the step is 0 and for no other subscript, whatever the two bounds are;
    what it returns is a selection of the points of [s], in their order
    when the step is positive and in the opposite order when it is
    negative. *)
Theorem Coords_getitem_slice (s : Coords) (start stop step : option Z) :
  (step = Some 0 →
   Coords_getitem s (PySlice start stop step) = Raise ValueError) ∧
  (step ≠ Some 0 →
   ∃ c, Coords_getitem s (PySlice start stop step) = Ok (ItemCoords c) ∧
        (0 < default 1 step → sublist (coords c) (coords s)) ∧
        (default 1 step < 0 → sublist (coords c) (reverse (coords s)))).
Proof.
  unfold Coords_getitem. cbn [as_int]. split.
  - intros ->. by destruct start, stop.
  - intros Hstep.
    assert (default 1 step ≠ 0) as Hd by (destruct step; naive_solver).
    destruct (Z.lt_trichotomy (default 1 step) 0) as [Hneg|[?|Hpos]]; [|done|].
    + destruct (list_getslice_backward (coords s) start stop step Hneg)
        as (l' & -> & Hsub).
      exists (mkCoords l'). split; [done|]. split; [lia|done].
    + destruct (list_getslice_forward (coords s) start stop step Hpos)
        as (l' & -> & Hsub).
      exists (mkCoords l'). split; [done|]. split; [done|lia].
Qed.

(** X2: [s[:]] is a point set of the same points and [s[::-1]] the point set
    of the same points in the opposite order. *)
Theorem Coords_getitem_whole (s : Coords) :
  Coords_getitem s (PySlice None None None) = Ok (ItemCoords s) ∧
  Coords_getitem s (PySlice None None (Some (-1)))
    = Ok (ItemCoords (mkCoords (reverse (coords s)))).
Proof.
  unfold Coords_getitem. cbn [as_int]. split.
  - rewrite list_getslice_unit. cbn [from_option mbind result_bind bind].
    rewrite Z.sub_0_r, Nat2Z.id, drop_0, firstn_all. by destruct s.
  - by rewrite list_getslice_reverse.
Qed.

(** X3: Splitting at any index loses nothing: for every integer [k], negative
    or beyond the end, [s[:k]] followed by [s[k:]] is [s]. *)
Theorem Coords_getitem_split (s : Coords) (k : Z) :
  ∃ c1 c2,
    Coords_getitem s (PySlice None (Some k) None) = Ok (ItemCoords c1) ∧
    Coords_getitem s (PySlice (Some k) None None) = Ok (ItemCoords c2) ∧
    coords c1 ++ coords c2 = coords s ∧
    Coords_len c1 = clip_index (Coords_len s) k.
Proof.
  unfold Coords_getitem, Coords_len. cbn [as_int].
  rewrite !list_getslice_unit. cbn [from_option mbind result_bind bind].
  set (len := Z.of_nat (length (coords s))).
  pose proof (clip_index_range len k ltac:(lia)) as Hk.
  eexists _, _. split; [reflexivity|]. split; [reflexivity|]. cbn [coords].
  rewrite Z.sub_0_r, drop_0.
  rewrite (take_ge (drop _ _))
    by (rewrite length_drop; lia).
  split; [apply take_drop|]. rewrite length_take. lia.
Qed.

(** X4: The slice [s[a:b]] and the subscripts agree: with the two bounds
    clipped to [a'] and [b'], the slice has [max(0, b' - a')] points and
    its point [i] is [s[a' + i]]. *)
Theorem Coords_getitem_slice_index (s : Coords) (a b : Z) :
  let a' := clip_index (Coords_len s) a in
  let b' := clip_index (Coords_len s) b in
  ∃ c, Coords_getitem s (PySlice (Some a) (Some b) None) = Ok (ItemCoords c) ∧
       Coords_len c = Z.max 0 (b' - a') ∧
       ∀ i, 0 ≤ i < b' - a' →
         Coords_getitem c (PyInt i) = Coords_getitem s (PyInt (a' + i)).
Proof.
  intros a' b'. unfold Coords_getitem, Coords_len in *. cbn [as_int].
  rewrite list_getslice_unit. cbn [from_option mbind result_bind bind].
  set (len := Z.of_nat (length (coords s))) in *.
  pose proof (clip_index_range len a ltac:(lia)) as Ha.
  pose proof (clip_index_range len b ltac:(lia)) as Hb.
  fold a' b' in Ha, Hb |- *.
  eexists. split; [reflexivity|]. cbn [coords]. split.
  - rewrite length_take, length_drop. lia.
  - intros i Hi.
    destruct (lookup_lt_is_Some_2 (coords s) (Z.to_nat (a' + i))) as [p Hp];
      [lia|].
    rewrite (list_getitem_nonneg (coords s) _ p) by (done || lia).
    rewrite (list_getitem_nonneg _ _ p); [done|lia|].
    rewrite lookup_take_lt by lia. rewrite lookup_drop. rewrite <- Hp.
    f_equal. lia.
Qed.

(** ** Appending *)

(** X5: [s.append(p)] and the subscripts: the point set is one longer, [p] is
    its last point, at the index [len(s)] had and at [-1], and the points
    [s] had keep their indices from the start; from the end they are one
    further away. *)
Theorem Coords_append_getitem (s : Coords) (p : Point) :
  let s' := Coords_append s p in
  Coords_len s' = Coords_len s + 1 ∧
  Coords_getitem s' (PyInt (Coords_len s)) = Ok (ItemPoint p) ∧
  Coords_getitem s' (PyInt (-1)) = Ok (ItemPoint p) ∧
  (∀ i, 0 ≤ i < Coords_len s →
     Coords_getitem s' (PyInt i) = Coords_getitem s (PyInt i)) ∧
  (∀ i, - Coords_len s ≤ i < 0 →
     Coords_getitem s' (PyInt (i - 1)) = Coords_getitem s (PyInt i)).
Proof.
  intros s'. unfold Coords_len, Coords_getitem, s', Coords_append.
  cbn [as_int coords]. rewrite length_app. cbn [length].
  set (n := length (coords s)).
  assert ((coords s ++ [p]) !! n = Some p) as Hlast
    by (rewrite lookup_app_r by done; by rewrite Nat.sub_diag).
  split; [lia|]. split; [|split; [|split]].
  - rewrite (list_getitem_nonneg _ _ p); [done|lia|]. by rewrite Nat2Z.id.
  - rewrite (list_getitem_neg _ _ p); [done|rewrite length_app; simpl; lia|].
    rewrite length_app. cbn [length]. fold n. rewrite <- Hlast. f_equal. lia.
  - intros i Hi.
    destruct (lookup_lt_is_Some_2 (coords s) (Z.to_nat i)) as [q Hq]; [lia|].
    rewrite (list_getitem_nonneg (coords s) _ q) by (done || lia).
    rewrite (list_getitem_nonneg _ _ q); [done|lia|].
    by rewrite lookup_app_l by lia.
  - intros i Hi.
    destruct (lookup_lt_is_Some_2 (coords s) (Z.to_nat (i + Z.of_nat n)))
      as [q Hq]; [lia|].
    rewrite (list_getitem_neg (coords s) _ q) by (done || lia).
    rewrite (list_getitem_neg _ _ q); [done|rewrite length_app; simpl; lia|].
    rewrite length_app. cbn [length]. fold n.
    rewrite lookup_app_l by lia. rewrite <- Hq. f_equal. lia.
Qed.

(** ** Bounding boxes *)

Lemma py_min_same (a : float) : py_min a a = a.
Proof. unfold py_min. by destruct (flt a a). Qed.

Lemma py_max_same (a : float) : py_max a a = a.
Proof. unfold py_max. by destruct (flt a a). Qed.

Lemma flt_asym (a b : float) : flt a b = true → flt b a = false.
Proof.
  destruct a as [[]|[]| |[] ma ea], b as [[]|[]| |[] mb eb]; try done;
    unfold flt, SFltb; simpl; intros H; order_cases.
Qed.

(** The loop of [get_bounds] leaves the [aux] of its two corners alone. *)
Lemma widen_loop_aux (ps : list Point) (lo0 hi0 : Point) :
  let b := foldl (λ b p, widen p b) (lo0, hi0) ps in
  aux b.1 = aux lo0 ∧ aux b.2 = aux hi0.
Proof.
  revert lo0 hi0. induction ps as [|p ps IH]; intros lo0 hi0; [done|].
  simpl. apply (IH (mkPoint _ _ _) (mkPoint _ _ _)).
Qed.

(** X6: The box of a point set with one more point is the box of the point
    set widened to the point: [min] on the two coordinates of [lo], [max]
    on those of [hi]; the box of a single point is the point twice. *)
Theorem get_bounds_append (s : Coords) (p : Point) :
  (coords s = [] →
   get_bounds (Coords_append s p)
     = Ok (Some (mkBounds (pt (lon p) (lat p)) (pt (lon p) (lat p))))) ∧
  (∀ b, get_bounds s = Ok (Some b) →
   get_bounds (Coords_append s p)
     = Ok (Some (mkBounds
                   (pt (py_min (lon (lo b)) (lon p))
                       (py_min (lat (lo b)) (lat p)))
                   (pt (py_max (lon (hi b)) (lon p))
                       (py_max (lat (hi b)) (lat p)))))).
Proof.
  destruct s as [ps]. unfold Coords_append. cbn [coords]. split.
  - intros ->. rewrite app_nil_l, get_bounds_unfold. cbn.
    by rewrite !py_min_same, !py_max_same.
  - intros b Hb. destruct ps as [|p0 ps]; [done|].
    rewrite get_bounds_unfold in Hb.
    rewrite <- app_comm_cons, get_bounds_unfold.
    rewrite app_comm_cons, foldl_snoc. cbv zeta in Hb |- *.
    pose proof (widen_loop_aux (p0 :: ps) (mkPoint (lon p0) (lat p0) ∅)
                  (mkPoint (lon p0) (lat p0) ∅)) as [A1 A2].
    cbv zeta in A1, A2. cbn [aux] in A1, A2.
    set (f := foldl (λ b p, widen p b) _ (p0 :: ps)) in *.
    injection Hb as <-. destruct f as [l h]. cbn [fst snd] in *.
    unfold widen, pt. cbn [lo hi lon lat aux fst snd]. by rewrite A1, A2.
Qed.

(** X7: The box of two points is [Bounds.from_points] of them, NaN or not. *)
Theorem get_bounds_pair (a b : Point) :
  ∃ box, from_points a b = Ok box ∧
         get_bounds (mkCoords [a; b]) = Ok (Some box).
Proof.
  eexists. split; [reflexivity|]. rewrite get_bounds_unfold. cbn.
  by rewrite !py_min_same, !py_max_same.
Qed.

(** X8: [Bounds.from_points] changes nothing on its own result. *)
Theorem from_points_idempotent (ul lr : Point) :
  ∃ b, from_points ul lr = Ok b ∧ from_points (lo b) (hi b) = Ok b.
Proof.
  eexists. split; [reflexivity|]. unfold from_points, Point_init.
  cbn [mbind result_bind bind lo hi lon lat].
  assert (∀ x y, py_min (py_min x y) (py_max x y) = py_min x y ∧
                 py_max (py_min x y) (py_max x y) = py_max x y) as Hfix.
  { intros x y. unfold py_min, py_max.
    destruct (flt y x) eqn:Hyx.
    - rewrite (flt_asym _ _ Hyx). by rewrite (flt_asym _ _ Hyx), Hyx.
    - destruct (flt x y) eqn:Hxy; [by rewrite Hyx, Hxy|].
      by destruct (flt x x). }
  destruct (Hfix (lon ul) (lon lr)) as [-> ->].
  by destruct (Hfix (lat ul) (lat lr)) as [-> ->].
Qed.

Lemma binary64_not_nan (x : float) : binary64 x → is_nan x = false.
Proof. by destruct x. Qed.

(** [min] and [max] of two numbers that are not NaN. *)
Lemma py_min_max_spec (a b : float) :
  is_nan a = false → is_nan b = false →
  fle (py_min a b) a = true ∧ fle (py_min a b) b = true ∧
  fle a (py_max a b) = true ∧ fle b (py_max a b) = true ∧
  fle (py_min a b) (py_max a b) = true ∧
  py_min a b ∈ [a; b] ∧ py_max a b ∈ [a; b].
Proof.
  intros Ha Hb.
  assert (Forall (λ x, is_nan x = false) [b]) as Hall by (by constructor).
  pose proof (running_min [b] a Ha Hall) as (_ & L1 & L2 & L3).
  pose proof (running_max [b] a Ha Hall) as (_ & U1 & U2 & U3).
  cbn [foldl] in *. rewrite Forall_singleton in L2, U2.
  repeat split; try done. by eapply fle_trans.
Qed.

(** X9: [Bounds.from_points] orders the corners: when no coordinate is a NaN
    its box has [lo <= hi] on both axes and holds both points, every
    coordinate of the box is a coordinate of one of the two points, and
    the two corners are new points with an empty [aux]. *)
Theorem from_points_ordered (ul lr : Point) :
  is_nan (lon ul) = false → is_nan (lat ul) = false →
  is_nan (lon lr) = false → is_nan (lat lr) = false →
  ∃ b, from_points ul lr = Ok b ∧
       below (lo b) (hi b) ∧
       below (lo b) ul ∧ below ul (hi b) ∧
       below (lo b) lr ∧ below lr (hi b) ∧
       lon (lo b) ∈ [lon ul; lon lr] ∧ lat (lo b) ∈ [lat ul; lat lr] ∧
       lon (hi b) ∈ [lon ul; lon lr] ∧ lat (hi b) ∈ [lat ul; lat lr] ∧
       aux (lo b) = ∅ ∧ aux (hi b) = ∅.
Proof.
  intros N1 N2 N3 N4. eexists. split; [reflexivity|].
  cbn [lo hi lon lat aux]. unfold below. cbn [lon lat].
  destruct (py_min_max_spec _ _ N1 N3) as (? & ? & ? & ? & ? & ? & ?).
  destruct (py_min_max_spec _ _ N2 N4) as (? & ? & ? & ? & ? & ? & ?).
  repeat split; done.
Qed.

(** The extrema that [get_bounds] returns on a point set without NaN. *)
Lemma get_bounds_extrema (s : Coords) (b : Bounds) :
  Forall (λ p, is_nan (lon p) = false ∧ is_nan (lat p) = false) (coords s) →
  get_bounds s = Ok (Some b) →
  Forall (λ p, below (lo b) p ∧ below p (hi b)) (coords s) ∧
  lon (lo b) ∈ lon <$> coords s ∧ lat (lo b) ∈ lat <$> coords s ∧
  lon (hi b) ∈ lon <$> coords s ∧ lat (hi b) ∈ lat <$> coords s.
Proof.
  destruct s as [ps]; cbn [coords]. intros Hnan Hb.
  destruct ps as [|p0 ps]; [done|].
  rewrite get_bounds_unfold in Hb. injection Hb as <-.
  pose proof (widen_loop (p0 :: ps) (mkPoint (lon p0) (lat p0) ∅)
                (mkPoint (lon p0) (lat p0) ∅)) as (E1 & E2 & E3 & E4).
  cbn zeta in *. cbn [lo hi].
  assert (Forall (λ x, is_nan x = false) (lon <$> p0 :: ps)) as Hlon
    by (apply Forall_fmap; eapply Forall_impl; [done|]; by intros ? []).
  assert (Forall (λ x, is_nan x = false) (lat <$> p0 :: ps)) as Hlat
    by (apply Forall_fmap; eapply Forall_impl; [done|]; by intros ? []).
  assert (is_nan (lon p0) = false ∧ is_nan (lat p0) = false) as [N1 N2]
    by (by inversion Hnan).
  destruct (running_min _ _ N1 Hlon) as (_ & _ & A1 & I1).
  destruct (running_min _ _ N2 Hlat) as (_ & _ & A2 & I2).
  destruct (running_max _ _ N1 Hlon) as (_ & _ & A3 & I3).
  destruct (running_max _ _ N2 Hlat) as (_ & _ & A4 & I4).
  cbn zeta in *. cbn [lon lat] in E1, E2, E3, E4.
  rewrite <- E1 in A1, I1. rewrite <- E2 in A2, I2.
  rewrite <- E3 in A3, I3. rewrite <- E4 in A4, I4.
  rewrite Forall_fmap in A1, A2, A3, A4.
  split; [|set_solver].
  rewrite Forall_forall in A1, A2, A3, A4. apply Forall_forall.
  intros p Hp. unfold below. naive_solver.
Qed.

Section SampleInside.

Variable geodesic : float * float → float * float → result Distance.

(** On a box with both axes in order the synthetic grid lies in the
    box. *)
Lemma Bounds_sample_inside (self : Bounds) (interval : Distance)
    (wcnt hcnt : Z) :
  grid_counts geodesic self interval = Ok (wcnt, hcnt) →
  ordered (lon (lo self)) (lon (hi self)) →
  ordered (lat (lo self)) (lat (hi self)) →
  wcnt ≤ 2 ^ 52 → hcnt ≤ 2 ^ 52 →
  ∃ out, Bounds_sample geodesic self interval = Ok out ∧
         Forall (λ p, below (lo self) p ∧ below p (hi self)) (coords out).
Proof.
  intros Hgrid (L1 & L2 & L3 & L4) (A1 & A2 & A3 & A4) Hw Hh.
  eexists. split; [by apply Bounds_sample_rows|]. cbn [coords].
  apply grid_rows_Forall. intros i j Hi Hj.
  destruct (lerp_inside (lon (lo self)) (lon (hi self)) j wcnt) as [? ?];
    try done.
  destruct (lerp_inside (lat (lo self)) (lat (hi self)) i hcnt) as [? ?];
    try done.
Qed.

(** X10: The grid over a box that [Bounds.from_points] built lies in the box:
    for two points of finite coordinates, in either order, every point
    that [sample] generates has its longitude and its latitude between
    those of the two corners, provided the two extents are finite and
    neither count exceeds [2^52]. *)
Theorem from_points_sample_inside (ul lr : Point) (b : Bounds)
    (interval : Distance) (wcnt hcnt : Z) :
  binary64 (lon ul) → binary64 (lat ul) →
  binary64 (lon lr) → binary64 (lat lr) →
  from_points ul lr = Ok b →
  finite (fsub (lon (hi b)) (lon (lo b))) = true →
  finite (fsub (lat (hi b)) (lat (lo b))) = true →
  grid_counts geodesic b interval = Ok (wcnt, hcnt) →
  wcnt ≤ 2 ^ 52 → hcnt ≤ 2 ^ 52 →
  ∃ out, Bounds_sample geodesic b interval = Ok out ∧
         Forall (λ p, below (lo b) p ∧ below p (hi b)) (coords out).
Proof.
  intros B1 B2 B3 B4 Hb F1 F2 Hgrid Hw Hh.
  injection Hb as <-. cbn [lo hi lon lat] in F1, F2.
  destruct (py_min_max_spec (lon ul) (lon lr))
    as (_ & _ & _ & _ & O1 & I1 & J1); try by apply binary64_not_nan.
  destruct (py_min_max_spec (lat ul) (lat lr))
    as (_ & _ & _ & _ & O2 & I2 & J2); try by apply binary64_not_nan.
  assert (∀ x a c, x ∈ [a; c] → binary64 a → binary64 c → binary64 x) as Hin.
  { intros x a c Hx Ha Hc. apply elem_of_cons in Hx as [->|Hx]; [done|].
    by apply list_elem_of_singleton in Hx as ->. }
  eapply Bounds_sample_inside; [exact Hgrid| | |done|done];
    cbn [lo hi lon lat]; repeat split; try done; by eapply Hin.
Qed.

(** X11: The grid over the box of a point set lies in the box, as the points
    of the set themselves do: for a point set of finite coordinates whose
    box has finite extents, with neither count above [2^52]. *)
Theorem get_bounds_sample_inside (s : Coords) (b : Bounds)
    (interval : Distance) (wcnt hcnt : Z) :
  Forall (λ p, binary64 (lon p) ∧ binary64 (lat p)) (coords s) →
  get_bounds s = Ok (Some b) →
  finite (fsub (lon (hi b)) (lon (lo b))) = true →
  finite (fsub (lat (hi b)) (lat (lo b))) = true →
  grid_counts geodesic b interval = Ok (wcnt, hcnt) →
  wcnt ≤ 2 ^ 52 → hcnt ≤ 2 ^ 52 →
  Forall (λ p, below (lo b) p ∧ below p (hi b)) (coords s) ∧
  ∃ out, Bounds_sample geodesic b interval = Ok out ∧
         Forall (λ p, below (lo b) p ∧ below p (hi b)) (coords out).
Proof.
  intros Hfin Hb F1 F2 Hgrid Hw Hh.
  assert (Forall (λ p, is_nan (lon p) = false ∧ is_nan (lat p) = false)
            (coords s)) as Hnan.
  { eapply Forall_impl; [exact Hfin|]. intros p [? ?].
    split; by apply binary64_not_nan. }
  destruct (get_bounds_extrema s b Hnan Hb) as (Hall & I1 & I2 & I3 & I4).
  split; [exact Hall|].
  assert (∀ (f : Point → float) x,
            (∀ p, p ∈ coords s → binary64 (f p)) → x ∈ f <$> coords s →
            binary64 x) as Hin.
  { intros f x Hf (p & -> & Hp)%list_elem_of_fmap. by apply Hf. }
  rewrite Forall_forall in Hfin.
  assert (coords s ≠ []) as Hne by (intros E; by rewrite E in I1; inversion I1).
  destruct (coords s) as [|p0 ps] eqn:Hps; [done|].
  apply Forall_cons in Hall as [[[L1 L2] [U1 U2]] _].
  eapply Bounds_sample_inside; [exact Hgrid| | |done|done].
  - repeat split; try done.
    + apply (Hin lon); [|done]. intros p Hp. by apply Hfin.
    + apply (Hin lon); [|done]. intros p Hp. by apply Hfin.
    + by eapply fle_trans.
  - repeat split; try done.
    + apply (Hin lat); [|done]. intros p Hp. by apply Hfin.
    + apply (Hin lat); [|done]. intros p Hp. by apply Hfin.
    + by eapply fle_trans.
Qed.

End SampleInside.

(** ** Auxiliary attributes *)



(** ** [inject_idx] *)

Lemma enumerate_snoc {A : Type} (l : list A) (x : A) :
  enumerate (l ++ [x]) = enumerate l ++ [(Z.of_nat (length l), x)].
Proof.
  unfold enumerate. rewrite imap_app. cbn [imap]. by rewrite Nat.add_0_r.
Qed.

Lemma inject_idx_snoc (self : list ref) (r : ref) (σ : objects) :
  snd (inject_idx (self ++ [r]) σ)
    = update_aux_at r {[ "idx" := PyInt (Z.of_nat (length self)) ]}
        (snd (inject_idx self σ)).
Proof. unfold inject_idx. cbn [snd]. by rewrite enumerate_snoc, foldl_snoc. Qed.

Lemma retag (p : Point) (i j : Z) :
  Point_update_aux (Point_update_aux p {[ "idx" := PyInt i ]})
    {[ "idx" := PyInt j ]}
  = Point_update_aux p {[ "idx" := PyInt j ]}.
Proof.
  unfold Point_update_aux. cbn [lon lat aux].
  apply (f_equal (mkPoint (lon p) (lat p))).
  rewrite (assoc_L (∪)). apply (f_equal (λ m, m ∪ aux p)). apply map_eq. intros k.
  destruct (decide (k = "idx")) as [->|Hk].
  - rewrite (lookup_union_Some_l _ _ _ (PyInt j));
      by rewrite lookup_singleton_eq.
  - assert ("idx" ≠ k) as Hk' by congruence.
    rewrite lookup_union_r; by rewrite !lookup_singleton_ne.
Qed.

(** What [inject_idx] leaves at a reference: the object as it was when
    the point set does not hold it, and else the object tagged with the
    last position at which the point set holds it. *)
Lemma inject_idx_lookup (self : list ref) (σ : objects) (r : ref) :
  ((r ∉ self) ∧ snd (inject_idx self σ) !! r = σ !! r) ∨
  (∃ i : nat, self !! i = Some r ∧
        (∀ j : nat, self !! j = Some r → (j ≤ i)%nat) ∧
        snd (inject_idx self σ) !! r
          = (λ p, Point_update_aux p {[ "idx" := PyInt (Z.of_nat i) ]})
              <$> σ !! r).
Proof.
  induction self as [|r0 self IH] using rev_ind.
  - left. split; [apply not_elem_of_nil|done].
  - rewrite inject_idx_snoc. unfold update_aux_at, objects, ref in *.
    destruct (decide (r = r0)) as [<-|Hne].
    + right. exists (length self). split; [apply list_lookup_middle; done|].
      split.
      { intros j Hj%lookup_lt_Some. rewrite length_app in Hj. simpl in Hj.
        lia. }
      rewrite lookup_alter_eq.
      destruct IH as [[_ ->]|(i & _ & _ & ->)]; [done|].
      destruct (σ !! r) as [p|]; [|done]. cbn. by rewrite retag.
    + rewrite lookup_alter_ne by done.
      destruct IH as [[Hnot ->]|(i & Hi & Hlast & ->)].
      * left. split; [|done]. rewrite elem_of_app, list_elem_of_singleton.
        tauto.
      * right. exists i. split; [by apply lookup_app_l_Some|]. split; [|done].
        intros j Hj. apply lookup_app_Some in Hj as [Hj|[_ Hj]].
        -- by apply Hlast.
        -- apply list_lookup_singleton_Some in Hj as [_ ->]. done.
Qed.

(** X14: [inject_idx] returns the point set it was called on and writes
    [aux["idx"]] of the objects the point set holds, and of no other: an
    object ends tagged with the last position at which the point set holds
    it, its coordinates and its other attributes as they were. *)
Theorem inject_idx_last_wins (self : list ref) (σ : objects) :
  fst (inject_idx self σ) = self ∧
  (∀ r, r ∉ self → snd (inject_idx self σ) !! r = σ !! r) ∧
  (∀ r (i : nat) p,
     self !! i = Some r → (∀ j : nat, self !! j = Some r → (j ≤ i)%nat) →
     σ !! r = Some p →
     snd (inject_idx self σ) !! r
       = Some (Point_update_aux p {[ "idx" := PyInt (Z.of_nat i) ]})).
Proof.
  split; [done|]. split.
  - intros r Hr. by destruct (inject_idx_lookup self σ r) as [[_ ?]|(i & Hi & _)];
      [|apply list_elem_of_lookup_2 in Hi].
  - intros r i p Hi Hlast Hp.
    destruct (inject_idx_lookup self σ r) as [[Hr _]|(i' & Hi' & Hlast' & ->)].
    + by apply list_elem_of_lookup_2 in Hi.
    + assert (i' = i) as -> by (apply Nat.le_antisymm; auto).
      by rewrite Hp.
Qed.

(** X15: On a point set of distinct objects [inject_idx] tags the point at
    position [i] with [idx = i]. *)
Theorem inject_idx_distinct (self : list ref) (σ : objects) (s : Coords) :
  NoDup self → deref σ self = Some s →
  deref (snd (inject_idx self σ)) self = Some (mkCoords (indexed (coords s))).
Proof.
  intros Hnd Hs. unfold deref in *.
  destruct (mapM (σ !!.) self) as [ps|] eqn:Hps; [|done].
  injection Hs as <-. cbn [coords]. apply mapM_Some in Hps.
  assert (mapM (snd (inject_idx self σ) !!.) self = Some (indexed ps)) as ->;
    [|done].
  apply mapM_Some, Forall2_same_length_lookup. split.
  - unfold indexed. rewrite length_imap. by eapply Forall2_length.
  - intros i r q Hr Hq. unfold indexed in Hq.
    rewrite list_lookup_imap in Hq.
    destruct (Forall2_lookup_l _ _ _ _ _ Hps Hr) as (p & Hp & Hσ).
    rewrite Hp in Hq. injection Hq as <-.
    destruct (inject_idx_lookup self σ r) as [[Hnot _]|(i' & Hi' & _ & ->)].
    + by apply list_elem_of_lookup_2 in Hr.
    + rewrite (NoDup_lookup _ _ _ _ Hnd Hi' Hr). by rewrite Hσ.
Qed.

(** ** Sampling a tagged point set *)



Section SampleIndexed.

Variable geodesic : float * float → float * float → result Distance.


End SampleIndexed.

(** ** More on [Coords.sample] *)

(** A coordinate that is a NaN or an infinity has no cell: the floor
    division yields a NaN, which [int] refuses, unless the cell size is 0,
    which the division refuses first. *)
Lemma cell_index_nonfinite (x origin iv : float) :
  finite x = false →
  cell_index x origin iv
    = Raise (if feq iv fzero then ZeroDivisionError else ValueError).
Proof.
  intros Hx. unfold cell_index, float_floordiv.
  destruct (feq iv fzero); [done|].
  assert (fmod (fsub x origin) iv = S754_nan) as ->
    by (destruct x as [sx|sx| |sx mx ex]; try done;
        destruct origin as [so|so| |so mo eo]; try destruct sx, so;
        by destruct iv).
  assert (∀ y, fsub y S754_nan = S754_nan) as Hnan by (by intros []).
  rewrite Hnan. by destruct iv as [| | |], (flt _ fzero).
Qed.

(** The cell of the origin is cell 0, whenever it has a cell. *)
Lemma cell_index_origin (x iv : float) (i : Z) :
  cell_index x x iv = Ok i → i = 0.
Proof.
  destruct (finite x) eqn:Hfin;
    [|by rewrite cell_index_nonfinite by done].
  assert (∃ s, fsub x x = S754_zero s) as [s Hs].
  { destruct x as [s| | |s m e]; try done.
    - exists (if s then false else false). by destruct s.
    - exists false. unfold fsub. cbn [SFsub]. by rewrite Z.sub_diag. }
  unfold cell_index, float_floordiv. rewrite Hs.
  destruct (feq iv fzero); [done|].
  destruct iv as [s'|s'| |s' m' e']; cbn; try done;
    destruct s, s'; cbn; congruence.
Qed.

Lemma filter_filter_same {A : Type} (f : A → bool) (l : list A) :
  List.filter f (List.filter f l) = List.filter f l.
Proof.
  induction l as [|x l IH]; [done|]. cbn [List.filter].
  destruct (f x) eqn:Hx; [|done]. cbn [List.filter]. by rewrite Hx, IH.
Qed.

Section SampleMore.

Variable geodesic : float * float → float * float → result Distance.

(** X17: Sampling a sample again, on the same box at the same interval,
    returns it unchanged. *)
Theorem Coords_sample_idempotent (s out : Coords) (bounds : Bounds)
    (interval : Distance) :
  Coords_sample geodesic s bounds interval = Ok out →
  Coords_sample geodesic out bounds interval = Ok out.
Proof.
  intros Hs. apply Coords_sample_spec in Hs
    as (w & h & lat_iv & lon_iv & Hgrid & Hall & Hout).
  apply Coords_sample_spec. exists w, h, lat_iv, lon_iv.
  split; [done|]. rewrite Hout. split; [|by rewrite filter_filter_same].
  apply Forall_forall. intros p Hp%list_elem_of_In%filter_In.
  destruct Hp as [Hp%list_elem_of_In _].
  rewrite Forall_forall in Hall. by apply Hall.
Qed.

(** X18: Whether a point is kept does not depend on the other points: the
    sample of two point sets one after the other is the sample of the
    first followed by the sample of the second, and it is returned
    exactly when both are. *)
Theorem Coords_sample_app (l1 l2 : list Point) (out : Coords)
    (bounds : Bounds) (interval : Distance) :
  Coords_sample geodesic (mkCoords (l1 ++ l2)) bounds interval = Ok out ↔
  ∃ o1 o2,
    Coords_sample geodesic (mkCoords l1) bounds interval = Ok o1 ∧
    Coords_sample geodesic (mkCoords l2) bounds interval = Ok o2 ∧
    coords out = coords o1 ++ coords o2.
Proof.
  rewrite Coords_sample_spec. cbn [coords]. split.
  - intros (w & h & lat_iv & lon_iv & Hgrid & Hall & Hout).
    apply Forall_app in Hall as [H1 H2].
    exists (mkCoords (List.filter (keeps bounds w h lat_iv lon_iv) l1)),
           (mkCoords (List.filter (keeps bounds w h lat_iv lon_iv) l2)).
    split; [|split].
    + apply Coords_sample_spec. by exists w, h, lat_iv, lon_iv.
    + apply Coords_sample_spec. by exists w, h, lat_iv, lon_iv.
    + cbn [coords]. by rewrite Hout, List.filter_app.
  - intros (o1 & o2 & H1 & H2 & Hout).
    apply Coords_sample_spec in H1
      as (w & h & lat_iv & lon_iv & Hgrid & Hall1 & Hout1).
    apply Coords_sample_spec in H2
      as (w' & h' & lat_iv' & lon_iv' & Hgrid' & Hall2 & Hout2).
    rewrite Hgrid in Hgrid'. injection Hgrid' as <- <- <- <-.
    exists w, h, lat_iv, lon_iv. split; [done|]. cbn [coords] in *.
    split; [by apply Forall_app|].
    by rewrite Hout, Hout1, Hout2, List.filter_app.
Qed.

(** X19: One point with a NaN or infinite coordinate makes [Coords.sample]
    raise, wherever it stands in the point set. *)
Theorem Coords_sample_rejects_nonfinite (s : Coords) (bounds : Bounds)
    (interval : Distance) (p : Point) :
  p ∈ coords s → finite (lat p) = false ∨ finite (lon p) = false →
  ∃ e, Coords_sample geodesic s bounds interval = Raise e.
Proof.
  intros Hp Hbad.
  destruct (Coords_sample geodesic s bounds interval) as [out|e] eqn:Hs;
    [exfalso|by exists e].
  apply Coords_sample_spec in Hs
    as (w & h & lat_iv & lon_iv & _ & Hall & _).
  rewrite Forall_forall in Hall. destruct (Hall p Hp) as [[i j] Hcell].
  unfold point_cell in Hcell.
  destruct Hbad as [Hbad|Hbad].
  - by rewrite (cell_index_nonfinite _ _ _ Hbad) in Hcell.
  - rewrite (cell_index_nonfinite (lon p) _ _ Hbad) in Hcell.
    by destruct (cell_index (lat p) _ _).
Qed.

(** X20: A point at the low corner of the box is in the sample whenever there
    is one and both counts are positive: its cell is [(0, 0)]. *)
Theorem Coords_sample_keeps_lo (s out : Coords) (bounds : Bounds)
    (interval : Distance) (wcnt hcnt : Z) (p : Point) :
  Coords_sample geodesic s bounds interval = Ok out →
  grid_counts geodesic bounds interval = Ok (wcnt, hcnt) →
  1 ≤ wcnt → 1 ≤ hcnt →
  p ∈ coords s → lat p = lat (lo bounds) → lon p = lon (lo bounds) →
  p ∈ coords out.
Proof.
  intros Hs Hcnt Hw Hh Hp Hlat Hlon. apply Coords_sample_spec in Hs
    as (w & h & lat_iv & lon_iv & Hgrid & Hall & Hout).
  assert (w = wcnt ∧ h = hcnt) as [-> ->].
  { unfold sample_grid in Hgrid. rewrite Hcnt in Hgrid.
    cbn [mbind result_bind bind] in Hgrid.
    destruct (float_truediv_int _ hcnt) as [a|]; [|done].
    cbn [bind] in Hgrid.
    destruct (float_truediv_int _ wcnt) as [c|]; [|done].
    by injection Hgrid as <- <- _ _. }
  rewrite Forall_forall in Hall. destruct (Hall p Hp) as [[i j] Hcell].
  rewrite Hout. apply list_elem_of_In, filter_In.
  split; [by apply list_elem_of_In|].
  unfold keeps. rewrite Hcell. unfold point_cell in Hcell.
  rewrite Hlat, Hlon in Hcell.
  destruct (cell_index (lat (lo bounds)) _ lat_iv) as [i'|] eqn:Hi; [|done].
  cbn [mbind result_bind bind] in Hcell.
  destruct (cell_index (lon (lo bounds)) _ lon_iv) as [j'|] eqn:Hj; [|done].
  injection Hcell as <- <-.
  apply cell_index_origin in Hi as ->. apply cell_index_origin in Hj as ->.
  unfold in_grid. repeat (apply andb_true_intro; split); lia.
Qed.

End SampleMore.

(** ** A box with its corners the other way round *)

Lemma mirror_sym (x y : float) : mirror x y → mirror y x.
Proof.
  destruct x as [sx|sx| |sx mx ex], y as [sy|sy| |sy my ey]; try done; cbn.
  - intros ->. by destruct sx.
  - intros (-> & -> & ->). by destruct sx.
Qed.

Lemma mirror_scaled (x y : float) : mirror x y → scaled y = - scaled x.
Proof.
  destruct x as [sx|sx| |sx mx ex], y as [sy|sy| |sy my ey]; try done; cbn.
  intros (-> & -> & ->). destruct sx; cbn; lia.
Qed.

Lemma mirror_binary64 (x y : float) : mirror x y → binary64 x → binary64 y.
Proof.
  destruct x as [sx|sx| |sx mx ex], y as [sy|sy| |sy my ey]; try done; cbn.
  by intros (-> & -> & ->).
Qed.

Lemma mirror_finite (x y : float) : mirror x y → finite y = finite x.
Proof.
  by destruct x as [sx|sx| |sx mx ex], y as [sy|sy| |sy my ey].
Qed.

(** Rounding does not look at the sign. *)
Lemma binary_round_aux_mirror (s : bool) (m e : Z) (l : location) :
  mirror (binary_round_aux prec emax s m e l)
         (binary_round_aux prec emax (negb s) m e l).
Proof.
  unfold binary_round_aux. destruct (shr_fexp prec emax m e l) as [mrs e'].
  destruct (shr_fexp prec emax _ e' loc_Exact) as [mrs' e''].
  destruct (shr_m mrs') as [|p|p]; [done| |done].
  by destruct (e'' <=? emax - prec).
Qed.

Lemma binary_normalize_mirror (S e : Z) :
  mirror (binary_normalize prec emax S e false)
         (binary_normalize prec emax (- S) e false).
Proof.
  destruct S as [|p|p]; [done| |].
  - change (- Zpos p) with (Zneg p). cbn [binary_normalize].
    unfold binary_round. destruct (shl_align _ _ _) as [mz ez].
    apply (binary_round_aux_mirror false).
  - change (- Zneg p) with (Zpos p). cbn [binary_normalize].
    unfold binary_round. destruct (shl_align _ _ _) as [mz ez].
    apply (binary_round_aux_mirror true).
Qed.

Lemma fsub_mirror (a b : float) :
  binary64 a → binary64 b → mirror (fsub a b) (fsub b a).
Proof.
  destruct a as [sa| | |sa ma ea], b as [sb| | |sb mb eb]; try done;
    intros _ _; unfold fsub; cbn [SFsub];
    try (by destruct sa); try (by destruct sb); try (by destruct sa, sb).
  rewrite (Z.min_comm eb ea).
  set (A := cond_Zopp sa _). set (B := cond_Zopp sb _).
  replace (B - A) with (- (A - B)) by lia. apply binary_normalize_mirror.
Qed.

Lemma fmul_mirror (t d d' : float) :
  mirror d d' → mirror (fmul t d) (fmul t d').
Proof.
  intros Hm. unfold fmul.
  destruct d as [sd|sd| |sd md ed], d' as [sd'|sd'| |sd' md' ed']; try done;
    cbn [mirror] in Hm; destruct t as [st|st| |st mt et];
    cbn [SFmul mirror]; try done;
    try destruct Hm as (-> & -> & ->); try subst sd';
    try (by destruct st, sd).
  replace (xorb st (negb sd)) with (negb (xorb st sd)) by (by destruct st, sd).
  apply binary_round_aux_mirror.
Qed.

(** A factor of at most [1 - 2^-52] takes a rounded difference back to at
    most the exact one. *)
Lemma unit_product (t d U : float) (x : Z) :
  binary64 t → 0 ≤ scaled t ≤ 2 ^ 2148 - 2 ^ 2096 →
  binary64 d → 0 ≤ scaled d →
  binary64 U → 0 ≤ scaled U ≤ x →
  2 ^ 52 * (scaled d - scaled U) ≤ scaled U →
  binary64 (fmul t d) ∧ 0 ≤ scaled (fmul t d) ≤ x.
Proof.
  intros Ht Ht0 Hd Hd0 HU HUx Hulp.
  assert (scaled t * scaled d ≤ scaled U * 2 ^ 2148) as Hprod.
  { assert (2 ^ 2148 = 2 ^ 52 * 2 ^ 2096) as HW2 by (by apply pow2_split).
    assert (0 < 2 ^ 2096) as HW by (by apply pow2_pos).
    assert (1 < 2 ^ 52) as H52 by (by vm_compute).
    rewrite HW2 in Ht0 |- *.
    set (C := 2 ^ 52) in *. set (W := 2 ^ 2096) in *.
    assert ((C - 1) * scaled d ≤ C * scaled U) as Hcut.
    { assert (C * ((C - 1) * scaled d) ≤ C * (C * scaled U)) by nia. nia. }
    assert (scaled t * scaled d ≤ (C - 1) * W * scaled d) by nia. nia. }
  destruct (fmul_le t d U Ht Hd HU ltac:(lia) Hd0 Hprod) as (Hp & Hp0).
  split; [done|lia].
Qed.

(** The interpolation on an axis whose ends are the other way round:
    with [hi <= lo], [hi <= lo + (k / cnt) * (hi - lo) <= lo]. *)
Lemma lerp_flipped (lo hi : float) (k cnt : Z) :
  binary64 lo → binary64 hi → fle hi lo = true →
  finite (fsub hi lo) = true → 0 ≤ k < cnt → cnt ≤ 2 ^ 52 →
  within hi lo (lerp lo hi k cnt).
Proof.
  intros Hlo Hhi Hle Hfin Hk Hcnt.
  apply (fle_scaled hi lo Hhi Hlo) in Hle.
  pose proof (fsub_mirror lo hi Hlo Hhi) as Hm.
  rewrite (mirror_finite _ _ Hm) in Hfin.
  destruct (fsub_trunc lo hi Hlo Hhi Hle)
    as [[s Hinf]|(Hd & Hd0 & U & HU & HUx & Hulp)];
    [rewrite Hinf in Hfin; discriminate|].
  destruct (fdiv_unit k cnt Hk Hcnt) as (Ht & Ht0).
  destruct (unit_product _ _ U (scaled lo - scaled hi) Ht Ht0 Hd Hd0 HU HUx Hulp)
    as (Hp & Hp0).
  pose proof (fmul_mirror (fdiv (exact_int k) (exact_int cnt)) _ _ Hm) as Hpm.
  pose proof (mirror_binary64 _ _ Hpm Hp) as Hp'.
  pose proof (mirror_scaled _ _ Hpm) as Hs.
  unfold lerp.
  destruct (fadd_between lo _ hi lo Hlo Hp' Hhi Hlo ltac:(lia)) as (Hr & Hr0).
  unfold within. split; apply fle_scaled; (done || lia).
Qed.

(** Between the two ends, whichever is the larger. *)
Lemma lerp_spanned (lo hi : float) (k cnt : Z) :
  binary64 lo → binary64 hi → finite (fsub hi lo) = true →
  0 ≤ k < cnt → cnt ≤ 2 ^ 52 →
  within lo hi (lerp lo hi k cnt) ∨ within hi lo (lerp lo hi k cnt).
Proof.
  intros Hlo Hhi Hfin Hk Hcnt.
  destruct (Z.le_gt_cases (scaled lo) (scaled hi)) as [Hle|Hgt].
  - left. apply lerp_inside; try done. by apply fle_scaled.
  - right. apply lerp_flipped; try done. apply fle_scaled; [done|done|lia].
Qed.

Section SampleSpanned.

Variable geodesic : float * float → float * float → result Distance.

(** X21: [Bounds.sample] does not leave the rectangle that the two corners
    span, whichever way round they are: on a box of finite coordinates
    with finite extents, and with neither count above [2^52], the
    latitude of every point lies between [lo.lat] and [hi.lat] and its
    longitude between [lo.lon] and [hi.lon]. *)
Theorem Bounds_sample_spanned (self : Bounds) (interval : Distance)
    (wcnt hcnt : Z) :
  grid_counts geodesic self interval = Ok (wcnt, hcnt) →
  binary64 (lat (lo self)) → binary64 (lat (hi self)) →
  binary64 (lon (lo self)) → binary64 (lon (hi self)) →
  finite (fsub (lat (hi self)) (lat (lo self))) = true →
  finite (fsub (lon (hi self)) (lon (lo self))) = true →
  wcnt ≤ 2 ^ 52 → hcnt ≤ 2 ^ 52 →
  ∃ out, Bounds_sample geodesic self interval = Ok out ∧
    Forall (λ p,
      (within (lat (lo self)) (lat (hi self)) (lat p)
       ∨ within (lat (hi self)) (lat (lo self)) (lat p)) ∧
      (within (lon (lo self)) (lon (hi self)) (lon p)
       ∨ within (lon (hi self)) (lon (lo self)) (lon p))) (coords out).
Proof.
  intros Hgrid A1 A2 L1 L2 FA FL Hw Hh.
  eexists. split; [by apply Bounds_sample_rows|]. cbn [coords].
  apply grid_rows_Forall. intros i j Hi Hj. cbn [grid_point lat lon].
  split; by apply lerp_spanned.
Qed.

End SampleSpanned.

(** ** Intervals that give no grid *)

Lemma flt_not_fle (a b : float) : flt a b = true → fle b a = false.
Proof.
  destruct a as [[]|[]| |[] ma ea], b as [[]|[]| |[] mb eb]; try done;
    unfold flt, fle, SFltb, SFleb; simpl; intros H; order_cases.
Qed.

Lemma flt_scaled (x y : float) :
  binary64 x → binary64 y → flt x y = true → scaled x < scaled y.
Proof.
  intros Hx Hy Hlt. apply flt_not_fle in Hlt.
  destruct (Z.lt_ge_cases (scaled x) (scaled y)) as [|Hge]; [done|].
  apply (fle_scaled y x Hy Hx) in Hge. congruence.
Qed.




Lemma float_floordiv_by_nan (x : float) :
  float_floordiv x S754_nan = Ok S754_nan.
Proof. by destruct x as [[]|[]| |[] m e]. Qed.

Section SampleDegenerate.

Variable geodesic : float * float → float * float → result Distance.

(** X22: An interval of 0 km makes both [sample] methods raise
    [ZeroDivisionError], and an interval that is a NaN makes them raise
    [ValueError], whatever the box measures and whatever the point set
    holds. *)
Theorem sample_bad_interval (self : Bounds) (interval : Distance)
    (width height : Distance) :
  get_wh geodesic self = Ok (width, height) →
  (feq (km interval) fzero = true →
   Bounds_sample geodesic self interval = Raise ZeroDivisionError ∧
   ∀ s, Coords_sample geodesic s self interval = Raise ZeroDivisionError) ∧
  (is_nan (km interval) = true →
   Bounds_sample geodesic self interval = Raise ValueError ∧
   ∀ s, Coords_sample geodesic s self interval = Raise ValueError).
Proof.
  intros Hwh. split.
  - intros Hz.
    assert (grid_counts geodesic self interval = Raise ZeroDivisionError)
      as Hg.
    { unfold grid_counts. rewrite Hwh. cbn [mbind result_bind bind].
      unfold cell_count, float_floordiv. by rewrite Hz. }
    unfold Bounds_sample, Coords_sample, sample_grid. by rewrite Hg.
  - intros Hn.
    assert (grid_counts geodesic self interval = Raise ValueError) as Hg.
    { unfold grid_counts. rewrite Hwh. cbn [mbind result_bind bind].
      unfold cell_count. destruct (km interval); try done.
      rewrite !float_floordiv_by_nan. reflexivity. }
    unfold Bounds_sample, Coords_sample, sample_grid. by rewrite Hg.
Qed.


End SampleDegenerate.

(** ** Cell indices on the low side *)

Lemma shift_round_nonneg (m : Z) (l : location) :
  0 ≤ m → 0 ≤ round_nearest_even m l.
Proof.
  intros Hm. unfold round_nearest_even.
  destruct l as [|[]]; try lia. destruct (Z.even m); lia.
Qed.

Lemma shr_fexp_exponent (m e : Z) (l : location) :
  -1074 ≤ (shr_fexp prec emax m e l).2.
Proof.
  unfold shr_fexp, shr.
  pose proof (fexp_ge_emin (Zdigits2 m + e)) as Hf.
  destruct (fexp prec emax (Zdigits2 m + e) - e) as [|p|p] eqn:Hp;
    cbn [snd]; lia.
Qed.

(** What rounding returns for a mantissa that is not negative: a zero, a
    number or an infinity of the sign it was given, at an exponent of at
    least -1074. *)
Lemma binary_round_aux_cases (s : bool) (m e : Z) (l : location) :
  0 ≤ m →
  binary_round_aux prec emax s m e l = S754_zero s ∨
  binary_round_aux prec emax s m e l = S754_infinity s ∨
  ∃ q e', binary_round_aux prec emax s m e l = S754_finite s q e' ∧
          -1074 ≤ e'.
Proof.
  intros Hm. unfold binary_round_aux.
  pose proof (shr_fexp_m m e l Hm) as H1.
  destruct (shr_fexp prec emax m e l) as [mrs' e']. cbn [fst] in H1.
  pose proof (shift_round_nonneg (shr_m mrs') (loc_of_shr_record mrs')
                ltac:(lia)) as Hm1.
  pose proof (shr_fexp_m _ e' loc_Exact Hm1) as H2.
  pose proof (shr_fexp_exponent
                (round_nearest_even (shr_m mrs') (loc_of_shr_record mrs'))
                e' loc_Exact) as H3.
  destruct (shr_fexp prec emax _ e' loc_Exact) as [mrs'' e''].
  cbn [fst snd] in H2, H3.
  destruct (shr_m mrs'') as [|q|q]; [by left| |lia].
  destruct (e'' <=? emax - prec); [|by right; left].
  right. right. by exists q, e''.
Qed.

Lemma binary_round_aux_nonneg (m e : Z) (l : location) :
  0 ≤ m → nonneg (binary_round_aux prec emax false m e l).
Proof.
  intros Hm.
  by destruct (binary_round_aux_cases false m e l Hm)
    as [->|[->|(q & e' & -> & _)]].
Qed.

Lemma binary_normalize_nonneg (S e : Z) (szero : bool) :
  0 ≤ S → nonneg (binary_normalize prec emax S e szero).
Proof.
  intros HS. destruct S as [|p|p]; [done| |lia]. cbn [binary_normalize].
  unfold binary_round. destruct (shl_align _ _ _) as [mz ez].
  by apply binary_round_aux_nonneg.
Qed.

Lemma binary64_nonneg (x : float) : binary64 x → 0 ≤ scaled x → nonneg x.
Proof.
  destruct x as [s| | |[] m e]; try done. cbn [binary64 scaled cond_Zopp].
  intros Hc Hs. destruct (canonical_facts _ _ Hc) as (He & _ & _).
  pose proof (scaled_pos m e ltac:(lia)). lia.
Qed.

(** The quotient of a number that is not negative by a positive one. *)
Lemma fdiv_nonneg (x : float) (my : positive) (ey : Z) :
  nonneg x → nonneg (fdiv x (S754_finite false my ey)).
Proof.
  destruct x as [sx|[]| |[] mx ex]; try done; intros _; unfold fdiv;
    cbn [SFdiv xorb].
  unfold SFdiv_core_binary.
  match goal with
  | |- context [Z.div_eucl ?a ?b] =>
      pose proof (Z.div_pos a b) as Hq; unfold Z.div in Hq;
      destruct (Z.div_eucl a b) as [q r]
  end.
  apply binary_round_aux_nonneg, Hq; [|lia].
  match goal with
  | |- 0 ≤ match ?s with _ => _ end =>
      destruct s; try lia; apply Z.shiftl_nonneg; lia
  end.
Qed.

Lemma ffloor_nonneg (x : float) : nonneg x → nonneg (ffloor x).
Proof.
  destruct x as [sx|[]| |[] m e]; try done. intros _. unfold ffloor.
  destruct (0 <=? e); [done|]. apply binary_normalize_nonneg.
  unfold floor_Z. cbn [cond_Zopp]. apply Z.shiftl_nonneg. lia.
Qed.

Lemma fadd_nonneg (x y : float) : nonneg x → nonneg y → nonneg (fadd x y).
Proof.
  destruct x as [sx|[]| |[] mx ex], y as [sy|[]| |[] my ey]; try done;
    intros _ _; unfold fadd; cbn [SFadd]; try (by destruct sx, sy).
  apply binary_normalize_nonneg. cbn [cond_Zopp]. lia.
Qed.

Lemma float_to_int_nonneg (x : float) (i : Z) :
  nonneg x → float_to_int x = Ok i → 0 ≤ i.
Proof.
  destruct x as [sx|[]| |[] m e]; try done; cbn [float_to_int].
  - intros _ [= <-]. lia.
  - intros _ [= <-]. unfold trunc_Z. cbn [cond_Zopp].
    apply Z.shiftl_nonneg. lia.
Qed.

(** A difference whose exact value lies between two binary64 numbers is
    rounded to a number between them. *)
Lemma fsub_between (x y L U : float) :
  binary64 x → binary64 y → binary64 L → binary64 U →
  scaled L ≤ scaled x - scaled y ≤ scaled U →
  binary64 (fsub x y) ∧ scaled L ≤ scaled (fsub x y) ≤ scaled U.
Proof.
  intros Hx Hy HL HU Hsum. unfold fsub.
  destruct x as [sx| | |sx mx ex]; [|done|done|];
    (destruct y as [sy| | |sy my ey]; [|done|done|]).
  - cbn [scaled] in Hsum.
    assert (binary64 (SFsub prec emax (S754_zero sx) (S754_zero sy))
            ∧ scaled (SFsub prec emax (S754_zero sx) (S754_zero sy)) = 0)
      as [Hb ->] by (by destruct sx, sy).
    split; [exact Hb|lia].
  - cbn [SFsub]. cbn [scaled binary64] in Hsum, Hy |- *.
    split; [exact Hy|]. destruct sy; cbn [cond_Zopp negb] in *; lia.
  - cbn [SFsub]. cbn [scaled] in Hsum |- *. split; [exact Hx|lia].
  - cbn [SFsub]. cbn [binary64] in Hx, Hy.
    destruct (canonical_facts _ _ Hx) as (Hex & _ & _).
    destruct (canonical_facts _ _ Hy) as (Hey & _ & _).
    apply normalize_between; [lia|done|done|].
    rewrite Z.mul_sub_distr_r, !aligned_scaled by lia. done.
Qed.

(** The remainder of a positive number by a positive number lies between
    0 and the number. *)
Lemma fmod_nonneg_le (mv mi : positive) (ev ei : Z) :
  canonical mv ev → -1074 ≤ ei →
  binary64 (fmod (S754_finite false mv ev) (S754_finite false mi ei)) ∧
  0 ≤ scaled (fmod (S754_finite false mv ev) (S754_finite false mi ei))
    ≤ scaled (S754_finite false mv ev).
Proof.
  intros Hc Hei. destruct (canonical_facts _ _ Hc) as (Hev & _ & _).
  cbn [fmod]. set (e := Z.min ev ei).
  rewrite !Z.shiftl_mul_pow2 by (unfold e; lia).
  pose proof (pow2_pos (ev - e) ltac:(unfold e; lia)) as HPv.
  pose proof (pow2_pos (ei - e) ltac:(unfold e; lia)) as HPi.
  pose proof (pow2_pos (e + 2148) ltac:(unfold e; lia)) as HPe.
  set (V := Zpos mv * 2 ^ (ev - e)). set (I := Zpos mi * 2 ^ (ei - e)).
  assert (0 ≤ Z.rem V I ≤ V) as Hr.
  { split; [apply Z.rem_nonneg; unfold V, I; nia|].
    apply Z.rem_le; unfold V, I; nia. }
  cbn [cond_Zopp].
  assert (scaled (S754_finite false mv ev) = V * 2 ^ (e + 2148)) as Hv.
  { cbn [scaled cond_Zopp]. unfold V.
    rewrite (pow2_split (ev - e) (ev + 2148) (e + 2148)) by (unfold e; lia).
    ring. }
  rewrite Hv.
  destruct (normalize_between (Z.rem V I) e (S754_zero false)
              (S754_finite false mv ev)) as (Hb & Hs);
    [unfold e; lia|done|done| |].
  - rewrite Hv. cbn [scaled]. nia.
  - rewrite Hv in Hs. cbn [scaled] in Hs. done.
Qed.

Lemma flt_nonneg_zero (x : float) : nonneg x → flt x fzero = false.
Proof. by destruct x as [[]|[]| |[] m e]. Qed.

(** A floor division of a NaN or an infinity has no integer. *)
Lemma floordiv_int_nonfinite (v iv : float) :
  finite v = false →
  float_floordiv v iv ≫= float_to_int
    = Raise (if feq iv fzero then ZeroDivisionError else ValueError).
Proof.
  intros Hv. unfold float_floordiv. destruct (feq iv fzero); [done|].
  assert (fmod v iv = S754_nan) as ->
    by (destruct v as [sv|sv| |sv mv ev]; try done; by destruct iv).
  assert (∀ y, fsub y S754_nan = S754_nan) as Hnan by (by intros []).
  rewrite Hnan. by destruct iv as [| | |], (flt _ fzero).
Qed.

(** The cell index of a coordinate at or above the origin is not negative,
    when the cell size is positive. *)
Lemma cell_index_nonneg (x origin iv : float) (i : Z) :
  binary64 x → binary64 origin → fle origin x = true →
  flt fzero iv = true → above_emin iv →
  cell_index x origin iv = Ok i → 0 ≤ i.
Proof.
  intros Hx Ho Hle Hiv Hemin. apply (fle_scaled origin x Ho Hx) in Hle.
  unfold cell_index.
  destruct (fsub_trunc x origin Hx Ho Hle)
    as [[s Hinf]|(Hv & Hv0 & _)].
  { rewrite floordiv_int_nonfinite by (by rewrite Hinf). done. }
  set (v := fsub x origin) in *. clearbody v.
  destruct iv as [[]|[]| |[] mi ei]; try done.
  - (* the cell size is infinite *)
    destruct v as [sv| | |sv mv ev]; try done.
    + destruct sv; cbn; intros [= <-]; lia.
    + cbn [binary64] in Hv.
      destruct (canonical_facts _ _ Hv) as (Hev & _ & _).
      pose proof (scaled_pos mv ev ltac:(lia)) as Hpos.
      destruct sv; [cbn [scaled cond_Zopp] in Hv0; lia|].
      unfold float_floordiv. cbn [feq SFeqb SFcompare fzero fmod].
      cbv iota.
      assert (fsub (S754_finite false mv ev) (S754_finite false mv ev)
              = S754_zero false) as ->
        by (unfold fsub; cbn [SFsub]; by rewrite Z.sub_diag).
      cbn. intros [= <-]. lia.
  - (* the cell size is a positive number *)
    cbn [above_emin] in Hemin.
    destruct v as [sv| | |sv mv ev]; try done.
    + destruct sv; cbn; intros [= <-]; lia.
    + cbn [binary64] in Hv.
      destruct (canonical_facts _ _ Hv) as (Hev & _ & _).
      pose proof (scaled_pos mv ev ltac:(lia)) as Hpos.
      destruct sv; [cbn [scaled cond_Zopp] in Hv0; lia|].
      destruct (fmod_nonneg_le mv mi ev ei Hv Hemin) as (Hm & Hm0).
      unfold float_floordiv.
      change (feq (S754_finite false mi ei) fzero) with false. cbv iota.
      set (mod_ := fmod (S754_finite false mv ev) (S754_finite false mi ei))
        in *.
      destruct (fsub_between (S754_finite false mv ev) mod_ (S754_zero false)
                  (S754_finite false mv ev)) as (Hw & Hw0); try done.
      { cbn [scaled] in *. lia. }
      pose proof (binary64_nonneg _ Hm ltac:(lia)) as Hmn.
      pose proof (binary64_nonneg _ Hw ltac:(cbn [scaled] in Hw0; lia)) as Hwn.
      pose proof (fdiv_nonneg _ mi ei Hwn) as Hdn.
      rewrite (flt_nonneg_zero mod_ Hmn).
      change (flt (S754_finite false mi ei) fzero) with false.
      cbn [Bool.eqb negb]. rewrite andb_false_r.
      set (div := fdiv _ (S754_finite false mi ei)) in *.
      destruct (truthy div).
      * cbn [mbind result_bind bind].
        pose proof (ffloor_nonneg div Hdn) as Hfn.
        destruct (flt fhalf _); apply float_to_int_nonneg; [|done].
        by apply fadd_nonneg.
      * cbn. intros [= <-]. lia.
Qed.

Lemma fdiv_above_emin (x y : float) : above_emin (fdiv x y).
Proof.
  unfold fdiv.
  destruct x as [[]|[]| |sx mx ex], y as [[]|[]| |sy my ey]; try done.
  unfold SFdiv, SFdiv_core_binary.
  match goal with
  | |- context [Z.div_eucl ?a ?b] =>
      pose proof (Z.div_pos a b) as Hq; unfold Z.div in Hq;
      destruct (Z.div_eucl a b) as [q r]
  end.
  assert (0 ≤ q) as Hq0.
  { apply Hq; [|lia].
    match goal with
    | |- 0 ≤ match ?s with _ => _ end =>
        destruct s; try lia; apply Z.shiftl_nonneg; lia
    end. }
  by destruct (binary_round_aux_cases (xorb sx sy) q
                 (Z.min (fexp prec emax (Zdigits2 (Zpos mx) + ex
                                         - (Zdigits2 (Zpos my) + ey)))
                    (ex - ey))
                 (new_location (Zpos my) r) Hq0)
    as [->|[->|(q' & e' & -> & ?)]].
Qed.

Section SampleLowSide.

Variable geodesic : float * float → float * float → result Distance.

Lemma sample_grid_above_emin (bounds : Bounds) (interval : Distance)
    (w h : Z) (lat_iv lon_iv : float) :
  sample_grid geodesic bounds interval = Ok (w, h, lat_iv, lon_iv) →
  above_emin lat_iv ∧ above_emin lon_iv.
Proof.
  unfold sample_grid. rewrite bind_Ok. intros ([w' h'] & _ & H).
  apply bind_Ok in H as (a & Ha & H). apply bind_Ok in H as (c & Hc & H).
  injection H as _ _ <- <-.
  unfold float_truediv_int in Ha, Hc.
  destruct (h' =? 0); [done|]. destruct (w' =? 0); [done|].
  apply bind_Ok in Ha as (d & _ & [= <-]).
  apply bind_Ok in Hc as (d' & _ & [= <-]).
  split; apply fdiv_above_emin.
Qed.

(** X24: On the low side the two index tests of [Coords.sample] never
    fail for a point of the box: with positive cell sizes, a point at or
    above [bounds.lo] on both axes has cell indices that are not
    negative, so that it is kept exactly when [i < h_len] and
    [j < w_len]. *)
Theorem Coords_sample_low_side (s out : Coords) (bounds : Bounds)
    (interval : Distance) (w_len h_len : Z) (lat_iv lon_iv : float)
    (p : Point) :
  Coords_sample geodesic s bounds interval = Ok out →
  sample_grid geodesic bounds interval = Ok (w_len, h_len, lat_iv, lon_iv) →
  flt fzero lat_iv = true → flt fzero lon_iv = true →
  binary64 (lon (lo bounds)) → binary64 (lat (lo bounds)) →
  binary64 (lon p) → binary64 (lat p) →
  p ∈ coords s → below (lo bounds) p →
  ∃ i j, point_cell bounds lat_iv lon_iv p = Ok (i, j) ∧ 0 ≤ i ∧ 0 ≤ j ∧
         (p ∈ coords out ↔ i < h_len ∧ j < w_len).
Proof.
  intros Hs Hgrid Hlat Hlon B1 B2 B3 B4 Hp [Hb1 Hb2].
  destruct (sample_grid_above_emin _ _ _ _ _ _ Hgrid) as [E1 E2].
  apply Coords_sample_spec in Hs
    as (w & h & lat_iv' & lon_iv' & Hgrid' & Hall & Hout).
  rewrite Hgrid in Hgrid'. injection Hgrid' as <- <- <- <-.
  rewrite Forall_forall in Hall. destruct (Hall p Hp) as [[i j] Hcell].
  exists i, j. split; [done|].
  assert (0 ≤ i ∧ 0 ≤ j) as [Hi Hj].
  { unfold point_cell in Hcell.
    destruct (cell_index (lat p) _ lat_iv) as [i'|] eqn:Hi; [|done].
    cbn [mbind result_bind bind] in Hcell.
    destruct (cell_index (lon p) _ lon_iv) as [j'|] eqn:Hj; [|done].
    injection Hcell as <- <-. split.
    - by apply (cell_index_nonneg (lat p) (lat (lo bounds)) lat_iv).
    - by apply (cell_index_nonneg (lon p) (lon (lo bounds)) lon_iv). }
  split; [done|]. split; [done|].
  rewrite Hout, list_elem_of_In, filter_In, <- list_elem_of_In.
  unfold keeps, in_grid. rewrite Hcell.
  rewrite !andb_true_iff, !Z.leb_le, !Z.ltb_lt. naive_solver.
Qed.

End SampleLowSide.

(** ** Cell indices below the origin *)

(** One-sided bounds on a rounded value: an exact value at or below a
    negative binary64 number is rounded to at most that number, or
    overflows. *)
Lemma normalize_le_neg (S e : Z) (U : float) :
  -2148 ≤ e → binary64 U → scaled U < 0 →
  S * 2 ^ (e + 2148) ≤ scaled U →
  binary_normalize prec emax S e false = S754_infinity true ∨
  (binary64 (binary_normalize prec emax S e false) ∧
   scaled (binary_normalize prec emax S e false) ≤ scaled U).
Proof.
  intros He HU HUneg HS.
  pose proof (pow2_pos (e + 2148) ltac:(lia)) as HP.
  destruct (binary64_scaled_neg U HU HUneg) as (mU & eU & -> & HcU).
  cbn [scaled cond_Zopp] in HS, HUneg |- *.
  destruct S as [|p|p]; [nia|nia|]. cbn [binary_normalize].
  destruct (binary_round_aligned true p e (-2148) ltac:(lia) He)
    as (M & E & HM & HE & Hn & Hval & ->).
  destruct (round_ge true M E loc_Exact mU eU HM HE Hn HcU ltac:(lia))
    as [->|(m & e' & -> & Hc & Hge)]; [by left|right].
  cbn [binary64 scaled cond_Zopp]. split; [done|lia].
Qed.

(** The same on the positive side. *)
Lemma normalize_ge_pos (S e : Z) (L : float) :
  -2148 ≤ e → binary64 L → 0 < scaled L →
  scaled L ≤ S * 2 ^ (e + 2148) →
  binary_normalize prec emax S e false = S754_infinity false ∨
  (binary64 (binary_normalize prec emax S e false) ∧
   scaled L ≤ scaled (binary_normalize prec emax S e false)).
Proof.
  intros He HL HLpos HS.
  pose proof (pow2_pos (e + 2148) ltac:(lia)) as HP.
  destruct (binary64_scaled_pos L HL HLpos) as (mL & eL & -> & HcL).
  cbn [scaled cond_Zopp] in HS, HLpos |- *.
  destruct S as [|p|p]; [nia| |nia]. cbn [binary_normalize].
  destruct (binary_round_aligned false p e (-2148) ltac:(lia) He)
    as (M & E & HM & HE & Hn & Hval & ->).
  destruct (round_ge false M E loc_Exact mL eL HM HE Hn HcL ltac:(lia))
    as [->|(m & e' & -> & Hc & Hge)]; [by left|right].
  cbn [binary64 scaled cond_Zopp]. split; [done|lia].
Qed.

Lemma fmin_pos_binary64 : binary64 fmin_pos.
Proof. split; [reflexivity|by vm_compute]. Qed.

Lemma fone_neg_binary64 : binary64 fone_neg.
Proof. split; [reflexivity|by vm_compute]. Qed.

Lemma fone_neg_scaled : scaled fone_neg = - 2 ^ 2148.
Proof. by vm_compute. Qed.

(** The difference of a binary64 number and a smaller one is positive: a
    subtraction does not underflow. *)
Lemma fsub_pos (a b : float) :
  binary64 a → binary64 b → scaled b < scaled a →
  fsub a b = S754_infinity false ∨
  (binary64 (fsub a b) ∧ 0 < scaled (fsub a b)).
Proof.
  intros Ha Hb Hlt. unfold fsub.
  destruct a as [sa| | |sa ma ea]; [|done|done|];
    (destruct b as [sb| | |sb mb eb]; [|done|done|]).
  - cbn [scaled] in Hlt. lia.
  - right. cbn [SFsub]. cbn [scaled binary64] in Hlt, Hb |- *.
    split; [exact Hb|]. destruct sb; cbn [cond_Zopp negb] in *; lia.
  - right. cbn [SFsub]. cbn [scaled] in Hlt. by split.
  - cbn [SFsub]. cbn [binary64] in Ha, Hb.
    destruct (canonical_facts _ _ Ha) as (Hea & _ & _).
    destruct (canonical_facts _ _ Hb) as (Heb & _ & _).
    set (ez := Z.min ea eb).
    set (S := cond_Zopp sa _ - cond_Zopp sb _).
    assert (S * 2 ^ (ez + 2148)
            = scaled (S754_finite sa ma ea) - scaled (S754_finite sb mb eb))
      as HS.
    { unfold S. rewrite Z.mul_sub_distr_r, !aligned_scaled by (unfold ez; lia).
      done. }
    pose proof (pow2_pos (ez + 2148) ltac:(unfold ez; lia)) as HP.
    assert (1 ≤ S) as HS1 by nia.
    destruct (normalize_ge_pos S ez fmin_pos ltac:(unfold ez; lia)
                fmin_pos_binary64 ltac:(by vm_compute)) as [->|[Hr Hr0]];
      [|by left|right].
    + change (scaled fmin_pos) with (1 * 2 ^ (-1074 + 2148)).
      assert (2 ^ (-1074 + 2148) ≤ 2 ^ (ez + 2148))
        by (apply Z.pow_le_mono_r; unfold ez; lia).
      nia.
    + split; [done|].
      assert (0 < scaled fmin_pos) by (by vm_compute). lia.
Qed.

(** The difference of a binary64 number and a larger one is negative. *)
Lemma fsub_neg (a b : float) :
  binary64 a → binary64 b → scaled a < scaled b →
  fsub a b = S754_infinity true ∨
  (binary64 (fsub a b) ∧ scaled (fsub a b) < 0).
Proof.
  intros Ha Hb Hlt.
  pose proof (fsub_mirror b a Hb Ha) as Hm.
  destruct (fsub_pos b a Hb Ha Hlt) as [Hinf|[Hr Hr0]].
  - left. rewrite Hinf in Hm. by destruct (fsub a b) as [| [] | |].
  - right. split; [by eapply mirror_binary64|].
    rewrite (mirror_scaled _ _ Hm). lia.
Qed.

(** What a division of two numbers returns: a zero, a number or an
    infinity whose sign is the product of the signs. *)
Lemma fdiv_cases (sx sy : bool) (mx my : positive) (ex ey : Z) :
  let x := S754_finite sx mx ex in
  let y := S754_finite sy my ey in
  fdiv x y = S754_zero (xorb sx sy) ∨
  fdiv x y = S754_infinity (xorb sx sy) ∨
  ∃ q e', fdiv x y = S754_finite (xorb sx sy) q e' ∧ -1074 ≤ e'.
Proof.
  intros x y. unfold x, y, fdiv. cbn [SFdiv]. unfold SFdiv_core_binary.
  match goal with
  | |- context [Z.div_eucl ?a ?b] =>
      pose proof (Z.div_pos a b) as Hq; unfold Z.div in Hq;
      destruct (Z.div_eucl a b) as [q r]
  end.
  apply binary_round_aux_cases, Hq; [|lia].
  match goal with
  | |- 0 ≤ match ?s with _ => _ end =>
      destruct s; try lia; apply Z.shiftl_nonneg; lia
  end.
Qed.

(** The quotient of a number by one that is not larger, before it is
    rounded: at least 1, with a mantissa long enough not to be shifted
    to the left. *)
Lemma div_core_ge_one (m1 m2 : positive) (e1 e2 : Z) :
  -1074 ≤ e1 → -1074 ≤ e2 ≤ 971 →
  Zpos m2 * 2 ^ (e2 + 2148) ≤ Zpos m1 * 2 ^ (e1 + 2148) →
  ∃ q e' l,
    SFdiv_core_binary prec emax (Zpos m1) e1 (Zpos m2) e2 = (q, e', l) ∧
    0 < q ∧ -2148 ≤ e' ∧ e' ≤ fexp prec emax (Zdigits2 q + e') ∧
    2 ^ 2148 ≤ q * 2 ^ (e' + 2148).
Proof.
  intros He1 He2 Hle. unfold SFdiv_core_binary. cbn [Zdigits2].
  pose proof (digits2_pos_ge m1) as Hk1. pose proof (digits2_pos_gt m1) as Hk2.
  pose proof (digits2_pos_ge m2) as Hc1. pose proof (digits2_pos_gt m2) as Hc2.
  set (d1 := Zpos (digits2_pos m1)) in *.
  set (d2 := Zpos (digits2_pos m2)) in *.
  assert (0 < d1 ∧ 0 < d2) as [Hd1 Hd2] by (unfold d1, d2; lia).
  set (D := d1 + e1 - (d2 + e2)).
  set (e' := Z.min (fexp prec emax D) (e1 - e2)).
  assert (-2148 ≤ e' ∧ e' ≤ e1 - e2 ∧ e' ≤ fexp prec emax D) as (Hlo & Hup & HfD)
    by (unfold e', fexp, emin, prec, emax; lia).
  set (s := e1 - e2 - e').
  assert (0 ≤ s) as Hs by (unfold s; lia).
  assert (match s with
          | 0 => Zpos m1
          | Zpos _ => Z.shiftl (Zpos m1) s
          | Zneg _ => 0
          end = Zpos m1 * 2 ^ s) as ->.
  { destruct s as [|p|p] eqn:Hp; [lia| |lia].
    by rewrite Z.shiftl_mul_pow2. }
  pose proof (Z_div_mod (Zpos m1 * 2 ^ s) (Zpos m2) ltac:(lia)) as Hdm.
  destruct (Z.div_eucl (Zpos m1 * 2 ^ s) (Zpos m2)) as [q r].
  destruct Hdm as [Heq Hr].
  exists q, e', (new_location (Zpos m2) r). split; [done|].
  pose proof (pow2_pos s Hs) as Hps.
  pose proof (pow2_pos (e' + 2148) ltac:(lia)) as Hpe.
  pose proof (pow2_pos (e2 + 2148) ltac:(lia)) as Hp2.
  pose proof (pow2_pos 2148 ltac:(lia)) as Hp3.
  (* the quotient has at least [d1 + s - d2] digits when that is positive *)
  assert (0 ≤ d1 - 1 + s - d2 → 2 ^ (d1 - 1 + s - d2) ≤ q) as Hdig.
  { intros Hk. set (k := d1 - 1 + s - d2) in *.
    pose proof (pow2_pos k Hk) as Hpk.
    assert (2 ^ (d1 - 1) * 2 ^ s = 2 ^ k * 2 ^ d2) as Hpow
      by (rewrite <- !Z.pow_add_r by lia; f_equal; unfold k; lia).
    assert (2 ^ k * Zpos m2 < Zpos m2 * (q + 1)) by nia.
    nia. }
  assert (-1074 < fexp prec emax D → 52 ≤ d1 - 1 + s - d2) as Hnormal
    by (unfold s, D, fexp, emin, prec, emax in *; lia).
  (* cancel the divisor's scale *)
  assert (Zpos m2 * 2 ^ 2148 ≤ (Zpos m2 * q + r) * 2 ^ (e' + 2148)) as Hval.
  { rewrite <- Heq.
    assert (2 ^ (e1 + 2148) * 2 ^ 2148
            = 2 ^ s * 2 ^ (e' + 2148) * 2 ^ (e2 + 2148)) as Hpow
      by (rewrite <- !Z.pow_add_r by lia; f_equal; unfold s; lia).
    apply (Z.mul_le_mono_pos_r _ _ (2 ^ (e2 + 2148))); [done|].
    replace (Zpos m1 * 2 ^ s * 2 ^ (e' + 2148) * 2 ^ (e2 + 2148))
      with (Zpos m1 * (2 ^ s * 2 ^ (e' + 2148) * 2 ^ (e2 + 2148))) by ring.
    rewrite <- Hpow. nia. }
  assert (1 ≤ q ∧ 2 ^ 2148 ≤ q * 2 ^ (e' + 2148)) as [Hq1 Hq].
  { destruct (Z.le_gt_cases e' 0) as [Hneg|Hposi].
    - pose proof (pow2_pos (- e') ltac:(lia)) as Hpn.
      assert (2 ^ 2148 = 2 ^ (- e') * 2 ^ (e' + 2148)) as Hpow
        by (rewrite <- Z.pow_add_r by lia; f_equal; lia).
      rewrite Hpow in Hval |- *.
      assert (Zpos m2 * 2 ^ (- e') < Zpos m2 * (q + 1)) by nia.
      assert (2 ^ (- e') ≤ q) by nia. split; [lia|nia].
    - assert (2 ^ 52 ≤ q) as Hq52.
      { etrans; [|apply Hdig; lia]. apply Z.pow_le_mono_r; lia. }
      assert (0 < 2 ^ 52) by (by apply pow2_pos).
      assert (2 ^ 2148 ≤ 2 ^ (e' + 2148)) by (apply Z.pow_le_mono_r; lia).
      split; [lia|nia]. }
  split; [lia|]. split; [lia|]. split; [|done].
  destruct (Z.eq_dec (fexp prec emax D) (-1074)) as [Hsub|Hnorm].
  - unfold fexp, emin, prec, emax in *. lia.
  - assert (-1074 < fexp prec emax D) as Hgt
      by (unfold fexp, emin, prec, emax in *; lia).
    specialize (Hnormal Hgt). specialize (Hdig ltac:(lia)).
    pose proof (Zdigits2_bounds q ltac:(lia)) as [_ Hd].
    assert (2 ^ (d1 - 1 + s - d2) < 2 ^ Zdigits2 q) as Hlt by lia.
    apply Z.pow_lt_mono_r_iff in Hlt; [|lia|].
    + unfold s, D, fexp, emin, prec, emax in *. lia.
    + destruct q; cbn [Zdigits2]; lia.
Qed.

(** A quotient of magnitude 1 or more is rounded to a binary64 number of
    magnitude 1 or more, or overflows. *)
Lemma fdiv_ge_one (s1 s2 : bool) (m1 m2 : positive) (e1 e2 : Z) :
  -1074 ≤ e1 → -1074 ≤ e2 ≤ 971 →
  Zpos m2 * 2 ^ (e2 + 2148) ≤ Zpos m1 * 2 ^ (e1 + 2148) →
  let d := fdiv (S754_finite s1 m1 e1) (S754_finite s2 m2 e2) in
  d = S754_infinity (xorb s1 s2) ∨
  ∃ m e, d = S754_finite (xorb s1 s2) m e ∧ canonical m e ∧
         2 ^ 2148 ≤ Zpos m * 2 ^ (e + 2148).
Proof.
  intros He1 He2 Hle d. unfold d, fdiv. cbn [SFdiv].
  destruct (div_core_ge_one m1 m2 e1 e2 He1 He2 Hle)
    as (q & e' & l & -> & Hq & He' & Hn & Hge).
  assert (canonical 4503599627370496 (-52)) as Hc1
    by (split; [reflexivity|by vm_compute]).
  assert (Zpos 4503599627370496 * 2 ^ (-52 + 2148) = 2 ^ 2148) as H1
    by (vm_compute; reflexivity).
  destruct (round_ge (xorb s1 s2) q e' l _ _ Hq He' Hn Hc1 ltac:(lia))
    as [->|(m & e & -> & Hc & Hm)]; [by left|right].
  exists m, e. split; [done|]. split; [done|lia].
Qed.

(** An integer of at most 53 bits is a binary64 number of that value. *)
Lemma binary_normalize_int (q : Z) :
  0 < q < 2 ^ 53 →
  binary64 (binary_normalize prec emax (- q) 0 false) ∧
  scaled (binary_normalize prec emax (- q) 0 false) = - q * 2 ^ 2148.
Proof.
  intros Hq. destruct q as [|p|p]; try lia.
  change (- Zpos p) with (Zneg p). cbn [binary_normalize].
  pose proof (digits2_pos_ge p) as Hge. pose proof (digits2_pos_gt p) as Hgt.
  set (d := Zpos (digits2_pos p)) in *.
  assert (0 < d) as Hd0 by (unfold d; lia).
  assert (d ≤ 53) as Hd.
  { assert (2 ^ (d - 1) < 2 ^ 53) as H by lia.
    apply Z.pow_lt_mono_r_iff in H; lia. }
  destruct (binary_round_exact true p 0) as (mz & k & Hk & Hkf & Hmz & ->);
    [done|unfold prec, emax; lia|unfold emax; fold d; lia|].
  fold d in Hkf. rewrite Z.add_0_r in Hkf.
  assert (k = 53 - d) as -> by (unfold fexp, emin, prec, emax in Hkf; lia).
  pose proof (pow2_pos (53 - d) ltac:(lia)) as Hpk.
  assert (Zpos (digits2_pos mz) = 53) as Hdz.
  { change (Zdigits2 (Zpos mz) = 53). apply Zdigits2_unique; [|lia].
    rewrite Hmz.
    assert (2 ^ (53 - 1) = 2 ^ (d - 1) * 2 ^ (53 - d)) as ->
      by (rewrite <- Z.pow_add_r by lia; f_equal; lia).
    assert (2 ^ 53 = 2 ^ d * 2 ^ (53 - d)) as ->
      by (rewrite <- Z.pow_add_r by lia; f_equal; lia).
    nia. }
  split.
  - cbn [binary64]. split; [|unfold emax, prec; lia].
    rewrite Hdz. unfold fexp, emin, prec, emax. lia.
  - cbn [scaled cond_Zopp]. rewrite Hmz.
    assert (2 ^ 2148 = 2 ^ (53 - d) * 2 ^ (0 - (53 - d) + 2148)) as ->
      by (rewrite <- Z.pow_add_r by lia; f_equal; lia).
    change (Zneg p) with (- Zpos p). ring.
Qed.

(** The floor of a binary64 number at or below -1 is a binary64 number,
    an integer [-q] with [-q <= x < -q + 1]. *)
Lemma ffloor_neg (m : positive) (e : Z) :
  canonical m e → 2 ^ 2148 ≤ Zpos m * 2 ^ (e + 2148) →
  ∃ q, 1 ≤ q ∧ binary64 (ffloor (S754_finite true m e)) ∧
       scaled (ffloor (S754_finite true m e)) = - q * 2 ^ 2148 ∧
       - q * 2 ^ 2148 ≤ scaled (S754_finite true m e)
         < (- q + 1) * 2 ^ 2148.
Proof.
  intros Hc Hge. destruct (canonical_facts _ _ Hc) as (He & Hm & _).
  pose proof (pow2_pos 2148 ltac:(lia)) as HP.
  cbn [ffloor scaled cond_Zopp]. destruct (Z.leb_spec 0 e) as [Hpos|Hneg].
  - exists (Zpos m * 2 ^ e). pose proof (pow2_pos e Hpos) as Hpe.
    assert (2 ^ (e + 2148) = 2 ^ e * 2 ^ 2148) as Hpow
      by (by rewrite Z.pow_add_r by lia).
    cbn [binary64 scaled cond_Zopp]. rewrite Hpow.
    split; [nia|]. split; [done|]. split; [ring|]. split; nia.
  - unfold floor_Z. cbn [cond_Zopp].
    rewrite Z.shiftl_div_pow2 by lia.
    pose proof (pow2_pos (- e) ltac:(lia)) as Hpe.
    pose proof (pow2_pos (e + 2148) ltac:(lia)) as Hps.
    assert (2 ^ 2148 = 2 ^ (- e) * 2 ^ (e + 2148)) as Hpow
      by (rewrite <- Z.pow_add_r by lia; f_equal; lia).
    assert (2 ^ (- e) ≤ Zpos m) as Hm1 by (rewrite Hpow in Hge; nia).
    pose proof (Z_div_mod (- Zpos m) (2 ^ (- e)) ltac:(lia)) as Hdm.
    unfold Z.div. change (Zneg m) with (- Zpos m).
    destruct (Z.div_eucl (- Zpos m) (2 ^ (- e))) as [nq r].
    destruct Hdm as [Heq Hr]. exists (- nq).
    assert (1 ≤ - nq) as Hq1 by nia.
    assert (- nq ≤ Zpos m) as Hq2 by nia.
    split; [done|].
    destruct (binary_normalize_int (- nq) ltac:(lia)) as [Hb Hs].
    rewrite Z.opp_involutive in Hb, Hs. rewrite !Z.opp_involutive.
    split; [done|]. split; [done|].
    rewrite Hpow. split; nia.
Qed.

(** [int(x)] of a binary64 number at or below -1 is at most -1. *)
Lemma float_to_int_neg (x : float) :
  binary64 x → scaled x ≤ - 2 ^ 2148 →
  ∃ i, float_to_int x = Ok i ∧ i ≤ -1.
Proof.
  intros Hx Hs. pose proof (pow2_pos 2148 ltac:(lia)) as HP.
  destruct (binary64_scaled_neg x Hx ltac:(lia)) as (m & e & -> & Hc).
  destruct (canonical_facts _ _ Hc) as (He & _ & _).
  cbn [scaled cond_Zopp] in Hs. cbn [float_to_int]. eexists. split; [done|].
  unfold trunc_Z. cbn [cond_Zopp].
  pose proof (pow2_pos (e + 2148) ltac:(lia)) as Hps.
  destruct (Z.le_gt_cases 0 e) as [Hpos|Hneg].
  - rewrite Z.shiftl_mul_pow2 by done. pose proof (pow2_pos e Hpos). nia.
  - rewrite Z.shiftl_div_pow2 by lia.
    pose proof (pow2_pos (- e) ltac:(lia)) as Hpe.
    assert (2 ^ 2148 = 2 ^ (- e) * 2 ^ (e + 2148)) as Hpow
      by (rewrite <- Z.pow_add_r by lia; f_equal; lia).
    assert (2 ^ (- e) ≤ Zpos m) as Hm1 by (rewrite Hpow in Hs; nia).
    assert (1 ≤ Zpos m / 2 ^ (- e)); [|lia].
    apply Z.div_le_lower_bound; lia.
Qed.

(** The last step of a floor division, on a quotient at or below -1: the
    floor, or the floor plus one, is still at or below -1. *)
Lemma floordiv_snap_neg (div : float) :
  binary64 div → scaled div ≤ - 2 ^ 2148 →
  let floordiv := ffloor div in
  let r := if flt fhalf (fsub div floordiv) then fadd floordiv fone
           else floordiv in
  binary64 r ∧ scaled r ≤ - 2 ^ 2148.
Proof.
  intros Hd Hs floordiv r. pose proof (pow2_pos 2148 ltac:(lia)) as HP.
  destruct (binary64_scaled_neg div Hd ltac:(lia)) as (m & e & -> & Hc).
  destruct (ffloor_neg m e Hc ltac:(cbn [scaled cond_Zopp] in Hs; lia))
    as (q & Hq & Hf & Hfs & Hlo & Hhi).
  fold floordiv in Hf, Hfs. unfold r.
  destruct (flt fhalf _) eqn:Hsnap; [|split; [done|nia]].
  assert (2 ≤ q) as Hq2.
  { destruct (Z.eq_dec q 1) as [->|]; [|lia]. exfalso.
    destruct (fsub_between (S754_finite true m e) floordiv
                (S754_zero false) (S754_zero false)) as (Hb & Hz);
      [done|done|done|done|cbn [scaled] in *; lia|].
    cbn [scaled] in Hz.
    apply flt_scaled in Hsnap; [|by split; [reflexivity|vm_compute]|done].
    assert (0 < scaled fhalf) by (by vm_compute). lia. }
  destruct (fadd_between floordiv fone floordiv fone_neg) as (Hb & _ & Hub);
    [done|by split; [reflexivity|vm_compute]|done|exact fone_neg_binary64| |].
  - rewrite fone_neg_scaled, Hfs.
    change (scaled fone) with (2 ^ 2148). nia.
  - rewrite fone_neg_scaled in Hub. done.
Qed.

(** The end of a floor division whose quotient is at or below -1, or has
    overflowed: an integer below 0, or no integer. *)
Lemma floordiv_tail_neg (div z : float) (i : Z) :
  div = S754_infinity true ∨ (binary64 div ∧ scaled div ≤ - 2 ^ 2148) →
  (if truthy div
   then Ok (if flt fhalf (fsub div (ffloor div)) then fadd (ffloor div) fone
            else ffloor div)
   else Ok z) ≫= float_to_int = Ok i →
  i < 0.
Proof.
  intros [->|[Hd Hs]]; [done|].
  pose proof (pow2_pos 2148 ltac:(lia)) as HP.
  destruct (floordiv_snap_neg div Hd Hs) as [Hr Hrs].
  destruct (float_to_int_neg _ Hr Hrs) as (j & Hj & Hj1).
  destruct (binary64_scaled_neg div Hd ltac:(lia)) as (m & e & -> & Hc).
  cbn [truthy mbind result_bind bind]. cbv zeta in Hj. rewrite Hj.
  intros [= <-]. lia.
Qed.

(** The remainder of a negative number by a positive one: a negative
    zero when the division is exact, which needs a divisor that is not
    larger, and a negative number that is not larger otherwise. *)
Lemma fmod_neg_cases (mv mi : positive) (ev ei : Z) :
  canonical mv ev → -1074 ≤ ei →
  let v := S754_finite true mv ev in
  let iv := S754_finite false mi ei in
  (fmod v iv = S754_zero true ∧
   Zpos mi * 2 ^ (ei + 2148) ≤ Zpos mv * 2 ^ (ev + 2148)) ∨
  (∃ m e, fmod v iv = S754_finite true m e ∧ canonical m e ∧
          Zpos m * 2 ^ (e + 2148) ≤ Zpos mv * 2 ^ (ev + 2148)).
Proof.
  intros Hc Hei v iv. destruct (canonical_facts _ _ Hc) as (Hev & _ & _).
  unfold v, iv. cbn [fmod]. set (e := Z.min ev ei).
  rewrite !Z.shiftl_mul_pow2 by (unfold e; lia).
  pose proof (pow2_pos (ev - e) ltac:(unfold e; lia)) as HPv.
  pose proof (pow2_pos (ei - e) ltac:(unfold e; lia)) as HPi.
  pose proof (pow2_pos (e + 2148) ltac:(unfold e; lia)) as HPe.
  set (V := Zpos mv * 2 ^ (ev - e)). set (I := Zpos mi * 2 ^ (ei - e)).
  assert (0 < V ∧ 0 < I) as [HV HI] by (unfold V, I; nia).
  assert (0 ≤ Z.rem V I ≤ V) as Hr.
  { split; [apply Z.rem_nonneg; lia|]. apply Z.rem_le; lia. }
  assert (Zpos mv * 2 ^ (ev + 2148) = V * 2 ^ (e + 2148)) as Hv.
  { unfold V.
    rewrite (pow2_split (ev - e) (ev + 2148) (e + 2148)) by (unfold e; lia).
    ring. }
  assert (Zpos mi * 2 ^ (ei + 2148) = I * 2 ^ (e + 2148)) as Hi.
  { unfold I.
    rewrite (pow2_split (ei - e) (ei + 2148) (e + 2148)) by (unfold e; lia).
    ring. }
  rewrite Hv, Hi.
  destruct (Z.rem V I) as [|r|r] eqn:Hrem; [left|right|lia].
  - split; [done|].
    destruct (Z.le_gt_cases I V) as [|Hsmall]; [nia|].
    rewrite Z.rem_small in Hrem by lia. lia.
  - cbn [cond_Zopp Z.opp].
    change (binary_normalize prec emax (- Zpos r) e true)
      with (binary_normalize prec emax (Zneg r) e false).
    destruct (normalize_between (Zneg r) e (S754_finite true mv ev)
                (S754_finite true 1 (-1074))) as (Hb & Hlo & Hhi);
      [unfold e; lia|done|by split; [reflexivity|vm_compute]| |].
    { cbn [scaled cond_Zopp]. rewrite Hv.
      change (Zpos 1 * 2 ^ (-1074 + 2148)) with (2 ^ 1074).
      assert (2 ^ 1074 ≤ 2 ^ (e + 2148))
        by (apply Z.pow_le_mono_r; unfold e; lia).
      nia. }
    cbn [scaled cond_Zopp] in Hlo, Hhi.
    assert (0 < Zpos 1 * 2 ^ (-1074 + 2148)) as H1 by (by vm_compute).
    destruct (binary64_scaled_neg _ Hb ltac:(lia)) as (m & e' & Heq & Hc').
    rewrite Heq in Hlo |- *. cbn [scaled cond_Zopp] in Hlo.
    exists m, e'. split; [done|]. split; [done|]. rewrite Hv in Hlo. lia.
Qed.

(** The cell index of a coordinate below the origin is negative, when the
    cell size is positive. *)
Lemma cell_index_neg (x origin iv : float) (i : Z) :
  binary64 x → binary64 origin → flt x origin = true →
  flt fzero iv = true → above_emin iv → fbounded iv →
  cell_index x origin iv = Ok i → i < 0.
Proof.
  intros Hx Ho Hlt Hiv Hemin Hbd. apply flt_scaled in Hlt; [|done|done].
  unfold cell_index.
  destruct (fsub_neg x origin Hx Ho Hlt) as [Hinf|[Hv Hv0]].
  { rewrite floordiv_int_nonfinite by (by rewrite Hinf).
    by destruct (feq _ _). }
  set (v := fsub x origin) in *. clearbody v.
  destruct (binary64_scaled_neg v Hv Hv0) as (mv & ev & -> & Hc).
  destruct (canonical_facts _ _ Hc) as (Hev & _ & _).
  pose proof (pow2_pos 2148 ltac:(lia)) as HP.
  destruct iv as [[]|[]| |[] mi ei]; try done.
  - (* the cell size is infinite *)
    unfold float_floordiv. cbn [feq SFeqb SFcompare fzero fmod].
    cbv iota.
    assert (fsub (S754_finite true mv ev) (S754_finite true mv ev)
            = S754_zero false) as ->
      by (unfold fsub; cbn [SFsub]; by rewrite Z.sub_diag).
    intros H. vm_compute in H. injection H as <-. lia.
  - (* the cell size is a positive number *)
    cbn [above_emin fbounded] in Hemin, Hbd.
    unfold float_floordiv.
    change (feq (S754_finite false mi ei) fzero) with false. cbv iota zeta.
    destruct (fmod_neg_cases mv mi ev ei Hc Hemin)
      as [[-> Hge]|(m & e & -> & Hcm & Hm)].
    + (* an exact division *)
      cbn [truthy andb].
      change (fsub (S754_finite true mv ev) (S754_zero true))
        with (S754_finite true mv ev).
      apply floordiv_tail_neg.
      destruct (fdiv_ge_one true false mv mi ev ei ltac:(lia)
                  ltac:(unfold emax, prec in Hbd; lia) Hge)
        as [->|(q & e' & -> & Hcq & Hq)]; [by left|right].
      cbn [xorb binary64 scaled cond_Zopp]. split; [done|lia].
    + (* a remainder: the quotient is lowered by one *)
      change (flt (S754_finite false mi ei) fzero) with false.
      change (flt (S754_finite true m e) fzero) with true.
      cbn [truthy andb Bool.eqb negb].
      apply floordiv_tail_neg.
      destruct (canonical_facts _ _ Hcm) as (Hem & _ & _).
      pose proof (scaled_pos m e ltac:(lia)) as Hmpos.
      destruct (fsub_between (S754_finite true mv ev) (S754_finite true m e)
                  (S754_finite true mv ev) (S754_zero false))
        as (Hw & Hwlo & Hwhi); [done|done|done|done| |].
      { cbn [scaled cond_Zopp]. lia. }
      cbn [scaled] in Hwhi.
      set (w := fsub _ (S754_finite true m e)) in *. clearbody w.
      assert (fdiv w (S754_finite false mi ei) = S754_infinity true ∨
              (∃ s, fdiv w (S754_finite false mi ei) = S754_zero s) ∨
              ∃ q e', fdiv w (S754_finite false mi ei) = S754_finite true q e'
                      ∧ -1074 ≤ e') as Hdiv.
      { destruct w as [sw| | |sw mw ew]; try done.
        - right. left. by eexists.
        - cbn [binary64] in Hw.
          destruct (canonical_facts _ _ Hw) as (Hew & _ & _).
          pose proof (scaled_pos mw ew ltac:(lia)) as Hwpos.
          destruct sw; [|cbn [scaled cond_Zopp] in Hwhi; lia].
          destruct (fdiv_cases true false mw mi ew ei)
            as [->|[->|(q & e' & -> & He')]].
          + right. left. by eexists.
          + by left.
          + right. right. by exists q, e'. }
      destruct Hdiv as [->|[[s ->]|(q & e' & -> & He')]].
      * by left.
      * right. change (fsub (S754_zero s) fone) with fone_neg.
        split; [exact fone_neg_binary64|]. rewrite fone_neg_scaled. lia.
      * unfold fsub, fone. cbn [SFsub].
        destruct (normalize_le_neg
                    (cond_Zopp true
                       (Zpos (shl_align q e' (Z.min e' (-52))).1)
                     - cond_Zopp false
                         (Zpos (shl_align 4503599627370496 (-52)
                                  (Z.min e' (-52))).1))
                    (Z.min e' (-52)) fone_neg)
          as [->|[Hb Hs]];
          [lia|exact fone_neg_binary64|rewrite fone_neg_scaled; lia|
           |by left|by right].
        rewrite Z.mul_sub_distr_r, !aligned_scaled by lia.
        rewrite fone_neg_scaled.
        change (scaled (S754_finite false 4503599627370496 (-52)))
          with (2 ^ 2148).
        pose proof (scaled_pos q e' ltac:(lia)).
        cbn [scaled cond_Zopp]. lia.
Qed.

Section SampleAboveLo.

Variable geodesic : float * float → float * float → result Distance.

Lemma sample_grid_bounded (bounds : Bounds) (interval : Distance)
    (w h : Z) (lat_iv lon_iv : float) :
  sample_grid geodesic bounds interval = Ok (w, h, lat_iv, lon_iv) →
  fbounded lat_iv ∧ fbounded lon_iv.
Proof.
  unfold sample_grid. rewrite bind_Ok. intros ([w' h'] & _ & H).
  apply bind_Ok in H as (a & Ha & H). apply bind_Ok in H as (c & Hc & H).
  injection H as _ _ <- <-.
  unfold float_truediv_int in Ha, Hc.
  destruct (h' =? 0); [done|]. destruct (w' =? 0); [done|].
  apply bind_Ok in Ha as (d & _ & [= <-]).
  apply bind_Ok in Hc as (d' & _ & [= <-]).
  split; apply fdiv_bounded.
Qed.

(** X25: With positive cell sizes, [Coords.sample] keeps no point that
    lies below [bounds.lo] on an axis: every point of the sample has a
    longitude and a latitude at or above those of [bounds.lo], when the
    coordinates are binary64 numbers. *)
Theorem Coords_sample_above_lo (s out : Coords) (bounds : Bounds)
    (interval : Distance) (w_len h_len : Z) (lat_iv lon_iv : float) :
  Coords_sample geodesic s bounds interval = Ok out →
  sample_grid geodesic bounds interval = Ok (w_len, h_len, lat_iv, lon_iv) →
  flt fzero lat_iv = true → flt fzero lon_iv = true →
  binary64 (lon (lo bounds)) → binary64 (lat (lo bounds)) →
  Forall (λ p, binary64 (lon p) ∧ binary64 (lat p)) (coords s) →
  Forall (λ p, below (lo bounds) p) (coords out).
Proof.
  intros Hs Hgrid Hlat Hlon B1 B2 Hbin.
  destruct (sample_grid_above_emin _ _ _ _ _ _ _ Hgrid) as [E1 E2].
  destruct (sample_grid_bounded _ _ _ _ _ _ Hgrid) as [F1 F2].
  apply Coords_sample_spec in Hs
    as (w & h & lat_iv' & lon_iv' & Hgrid' & _ & Hout).
  rewrite Hgrid in Hgrid'. injection Hgrid' as <- <- <- <-.
  rewrite Forall_forall in Hbin |- *. intros p Hp.
  rewrite Hout, list_elem_of_In, filter_In, <- list_elem_of_In in Hp.
  destruct Hp as [Hp Hkeep]. destruct (Hbin p Hp) as [B3 B4].
  unfold keeps, point_cell in Hkeep.
  destruct (cell_index (lat p) _ lat_iv) as [i|] eqn:Hi; [|done].
  cbn [mbind result_bind bind] in Hkeep.
  destruct (cell_index (lon p) _ lon_iv) as [j|] eqn:Hj; [|done].
  cbn [mbind result_bind bind] in Hkeep. unfold in_grid in Hkeep.
  rewrite !andb_true_iff, !Z.leb_le, !Z.ltb_lt in Hkeep.
  split.
  - destruct (flt (lon p) (lon (lo bounds))) eqn:Hcmp.
    + pose proof (cell_index_neg _ _ _ _ B3 B1 Hcmp Hlon E2 F2 Hj). lia.
    + apply flt_false_fle; [by apply binary64_not_nan..|done].
  - destruct (flt (lat p) (lat (lo bounds))) eqn:Hcmp.
    + pose proof (cell_index_neg _ _ _ _ B4 B2 Hcmp Hlat E1 F1 Hi). lia.
    + apply flt_false_fle; [by apply binary64_not_nan..|done].
Qed.

End SampleAboveLo.

(** ** The further properties at work *)

(** [from_points_ordered] on the two corners of [unit_box], the high one
    first: the box is [unit_box]. *)
Lemma from_points_ordered_witness :
  ∃ b, from_points north_east south_west = Ok b ∧ b = unit_box ∧
       below (lo b) (hi b) ∧ aux (lo b) = ∅.
Proof.
  destruct (from_points_ordered north_east south_west)
    as (b & Hb & Hord & _ & _ & _ & _ & _ & _ & _ & _ & Haux & _);
    try reflexivity.
  exists b. split; [exact Hb|]. split; [|split; [exact Hord|exact Haux]].
  vm_compute in Hb. injection Hb as <-. vm_compute. reflexivity.
Defined.

(** [from_points_sample_inside] on the same two corners at 50 km. *)
Lemma from_points_sample_inside_witness :
  from_points north_east south_west = Ok unit_box ∧
  grid_counts flat_geodesic unit_box km50 = Ok (2, 2) ∧
  ∃ out, Bounds_sample flat_geodesic unit_box km50 = Ok out ∧
         Forall (λ p, below (lo unit_box) p ∧ below p (hi unit_box))
           (coords out).
Proof.
  assert (from_points north_east south_west = Ok unit_box) as Hb
    by (vm_compute; reflexivity).
  assert (grid_counts flat_geodesic unit_box km50 = Ok (2, 2)) as Hgrid
    by (vm_compute; reflexivity).
  split; [exact Hb|]. split; [exact Hgrid|].
  apply (from_points_sample_inside flat_geodesic north_east south_west
           unit_box km50 2 2); try binary64_compute; try reflexivity;
    try lia; try exact Hb; exact Hgrid.
Defined.

(** [get_bounds_sample_inside] on [triangle] at 50 km: its box is
    [triangle_box], of 8 by 6 cells. *)
Lemma get_bounds_sample_inside_witness :
  get_bounds triangle = Ok (Some triangle_box) ∧
  grid_counts flat_geodesic triangle_box km50 = Ok (8, 6) ∧
  Forall (λ p, below (lo triangle_box) p ∧ below p (hi triangle_box))
    (coords triangle) ∧
  ∃ out, Bounds_sample flat_geodesic triangle_box km50 = Ok out ∧
         Forall (λ p, below (lo triangle_box) p ∧ below p (hi triangle_box))
           (coords out).
Proof.
  assert (get_bounds triangle = Ok (Some triangle_box)) as Hb
    by (vm_compute; reflexivity).
  assert (grid_counts flat_geodesic triangle_box km50 = Ok (8, 6)) as Hgrid
    by (vm_compute; reflexivity).
  split; [exact Hb|]. split; [exact Hgrid|].
  apply (get_bounds_sample_inside flat_geodesic triangle triangle_box km50 8 6);
    try exact Hb; try exact Hgrid; try reflexivity; try lia.
  repeat (constructor; [split; binary64_compute|]). constructor.
Defined.

(** [inject_idx_last_wins] on a point set that holds the object at
    reference 0 twice, first and last: the object ends with [idx = 2],
    the other one with [idx = 1]. *)
Lemma inject_idx_last_wins_witness :
  snd (inject_idx [0; 1; 0]%nat two_objects) !! 0%nat
    = Some (Point_update_aux (pt (dec 1 0) (dec 0 0)) {[ "idx" := PyInt 2 ]}) ∧
  snd (inject_idx [0; 1; 0]%nat two_objects) !! 1%nat
    = Some (Point_update_aux (pt (dec 2 0) (dec 0 0)) {[ "idx" := PyInt 1 ]}).
Proof.
  destruct (inject_idx_last_wins [0; 1; 0]%nat two_objects) as (_ & _ & Hat).
  split.
  - apply (Hat 0%nat 2%nat); [reflexivity| |reflexivity].
    intros [|[|[|j]]] Hj; (lia || done).
  - apply (Hat 1%nat 1%nat); [reflexivity| |reflexivity].
    intros [|[|[|j]]] Hj; (lia || done).
Defined.

(** [inject_idx_distinct] on the two objects, each held once. *)
Lemma inject_idx_distinct_witness :
  deref two_objects [0; 1]%nat = Some two_points ∧
  deref (snd (inject_idx [0; 1]%nat two_objects)) [0; 1]%nat
    = Some (mkCoords (indexed (coords two_points))).
Proof.
  assert (deref two_objects [0; 1]%nat = Some two_points) as Hs
    by reflexivity.
  split; [exact Hs|].
  apply (inject_idx_distinct [0; 1]%nat two_objects two_points); [|exact Hs].
  apply NoDup_cons. split; [by intros ?%list_elem_of_singleton|].
  apply NoDup_singleton.
Defined.


(** [Coords_sample_idempotent] on [crowd] at 50 km. *)
Lemma Coords_sample_idempotent_witness :
  Coords_sample flat_geodesic crowd unit_box km50 = Ok crowd_kept ∧
  Coords_sample flat_geodesic crowd_kept unit_box km50 = Ok crowd_kept.
Proof.
  assert (Coords_sample flat_geodesic crowd unit_box km50 = Ok crowd_kept)
    as Hs by (vm_compute; reflexivity).
  split; [exact Hs|].
  exact (Coords_sample_idempotent flat_geodesic crowd crowd_kept unit_box
           km50 Hs).
Defined.

(** [Coords_sample_rejects_nonfinite] on [nan_points]: the NaN longitude
    of the first point makes the sample raise. *)
Lemma Coords_sample_rejects_nonfinite_witness :
  ∃ e, Coords_sample flat_geodesic nan_points unit_box km50 = Raise e.
Proof.
  apply (Coords_sample_rejects_nonfinite flat_geodesic nan_points unit_box
           km50 (pt S754_nan (dec 0 0))).
  - apply list_elem_of_here.
  - right. reflexivity.
Defined.

(** [Coords_sample_keeps_lo] on [crowd] followed by the low corner of
    [unit_box]. *)
Lemma Coords_sample_keeps_lo_witness :
  ∃ out, Coords_sample flat_geodesic crowd_with_corner unit_box km50 = Ok out ∧
         south_west ∈ coords out.
Proof.
  destruct (Coords_sample flat_geodesic crowd_with_corner unit_box km50)
    as [out|e] eqn:Hs; [|vm_compute in Hs; discriminate].
  exists out. split; [reflexivity|].
  apply (Coords_sample_keeps_lo flat_geodesic crowd_with_corner out unit_box
           km50 2 2); [exact Hs|vm_compute; reflexivity|lia|lia| | |];
    try reflexivity.
  do 4 apply list_elem_of_further. apply list_elem_of_here.
Defined.

(** [sample_bad_interval] on [unit_box] at 0 km. *)
Lemma sample_bad_interval_witness :
  Bounds_sample flat_geodesic unit_box km0 = Raise ZeroDivisionError ∧
  Coords_sample flat_geodesic crowd unit_box km0 = Raise ZeroDivisionError.
Proof.
  destruct (get_wh flat_geodesic unit_box) as [[width height]|e] eqn:Hwh;
    [|vm_compute in Hwh; discriminate].
  destruct (proj1 (sample_bad_interval flat_geodesic unit_box km0 width height
                     Hwh)) as [Hb Hc]; [reflexivity|].
  split; [exact Hb|exact (Hc crowd)].
Defined.

(** [Bounds_sample_spanned] on the box of the module's [__main__], whose
    latitudes are the other way round: the 143 points lie between the two
    corners. *)
Lemma Bounds_sample_spanned_witness :
  fle (lat (lo main_box)) (lat (hi main_box)) = false ∧
  ∃ out, Bounds_sample flat_geodesic_sf main_box km005 = Ok out ∧
    Coords_len out = 143 ∧
    Forall (λ p,
      (within (lat (lo main_box)) (lat (hi main_box)) (lat p)
       ∨ within (lat (hi main_box)) (lat (lo main_box)) (lat p)) ∧
      (within (lon (lo main_box)) (lon (hi main_box)) (lon p)
       ∨ within (lon (hi main_box)) (lon (lo main_box)) (lon p)))
      (coords out).
Proof.
  split; [reflexivity|].
  destruct (Bounds_sample_spanned flat_geodesic_sf main_box km005 13 11)
    as (out & Hout & Hall); try binary64_compute; try reflexivity; try lia.
  exists out. split; [exact Hout|]. split; [|exact Hall].
  vm_compute in Hout. injection Hout as <-. reflexivity.
Defined.


(** [Coords_sample_low_side] on the first point of [crowd] at 50 km. *)
Lemma Coords_sample_low_side_witness :
  ∃ i j, point_cell unit_box (dec 5 (-1)) (dec 5 (-1))
           (pt (dec 1 (-1)) (dec 1 (-1))) = Ok (i, j) ∧ 0 ≤ i ∧ 0 ≤ j ∧
         (pt (dec 1 (-1)) (dec 1 (-1)) ∈ coords crowd_kept ↔ i < 2 ∧ j < 2).
Proof.
  apply (Coords_sample_low_side flat_geodesic crowd crowd_kept unit_box km50
           2 2 (dec 5 (-1)) (dec 5 (-1)) (pt (dec 1 (-1)) (dec 1 (-1))));
    try (by vm_compute); try binary64_compute.
  apply list_elem_of_here.
Defined.

(** [Coords_sample_above_lo] on [crowd] and a point west of [unit_box], at
    50 km. *)
Lemma Coords_sample_above_lo_witness :
  ∃ out, Coords_sample flat_geodesic crowd_with_west unit_box km50 = Ok out ∧
         Forall (λ p, below (lo unit_box) p) (coords out).
Proof.
  destruct (Coords_sample flat_geodesic crowd_with_west unit_box km50)
    as [out|e] eqn:Hs; [|vm_compute in Hs; discriminate].
  exists out. split; [reflexivity|].
  apply (Coords_sample_above_lo flat_geodesic crowd_with_west out unit_box
           km50 2 2 (dec 5 (-1)) (dec 5 (-1)) Hs).
  - vm_compute; reflexivity.
  - reflexivity.
  - reflexivity.
  - binary64_compute.
  - binary64_compute.
  - repeat (apply Forall_cons; split; [split; binary64_compute|]).
    apply Forall_nil_2.
Defined.
